(** * CollageSplines: procedural growth animation of curves

    A shallow embedding of [procedural_animation.py] (a Blender 3.6 script)
    and the verification of its specification.

    The script is a sequence of calls into the host's Python API ([bpy],
    [mathutils]).  The host scene is modelled as an explicit store that
    every function threads through a state-and-exception monad; Python
    numbers are modelled as unbounded integers and IEEE-754 binary64
    floats (the Standard Library's [SpecFloat] with [prec = 53] and
    [emax = 1024]), with the arithmetic of the source written out. *)

From Stdlib Require Import ZArith QArith Floats.SpecFloat.
From stdpp Require Import base option list gmap strings stringmap.

Local Open Scope string_scope.
Local Open Scope list_scope.
Local Open Scope Z_scope.

(** ** Python numbers *)

Module Py.

(** Exceptions the script can meet. *)
Inductive exn :=
| ZeroDivisionError | OverflowError | ValueError | AttributeError
| KeyError | IndexError | TypeError | UnboundLocalError | RuntimeError.

Inductive result (A : Type) :=
| Ok (a : A)
| Raise (e : exn).
Arguments Ok {A} a.
Arguments Raise {A} e.

Definition prec : Z := 53.
Definition emax : Z := 1024.

(** A Python [float]: an IEEE-754 binary64 value. *)
Abbreviation float := spec_float.

Definition fadd : float → float → float := SFadd prec emax.
Definition fsub : float → float → float := SFsub prec emax.
Definition fmul : float → float → float := SFmul prec emax.
Definition fdiv : float → float → float := SFdiv prec emax.

(** The nearest binary64 value to an integer (ties to even); out of range
    it is an infinity. *)
Definition round_int (z : Z) : float := binary_normalize prec emax z 0 false.

Definition is_inf (f : float) : bool :=
  match f with S754_infinity _ => true | _ => false end.

Definition is_zero (f : float) : bool :=
  match f with S754_zero _ => true | _ => false end.

Definition is_nan (f : float) : bool :=
  match f with S754_nan => true | _ => false end.

(** [float(z)]: raises [OverflowError] when [z] is too large. *)
Definition float_of_int (z : Z) : result float :=
  let f := round_int z in
  if is_inf f then Raise OverflowError else Ok f.

(** [x / y] on floats: raises [ZeroDivisionError] on a zero divisor. *)
Definition float_truediv (x y : float) : result float :=
  if is_zero y then Raise ZeroDivisionError else Ok (fdiv x y).

(** [a / b] on ints (true division): the correctly rounded quotient of the
    two integers. *)
Definition int_truediv (a b : Z) : result float :=
  match a, b with
  | _, Z0 => Raise ZeroDivisionError
  | Z0, _ => Ok (S754_zero (b <? 0))
  | _, _ =>
      let q := fdiv (S754_finite (a <? 0) (Z.to_pos (Z.abs a)) 0)
                    (S754_finite (b <? 0) (Z.to_pos (Z.abs b)) 0) in
      if is_inf q then Raise OverflowError else Ok q
  end.

(** [int(x)]: truncation toward zero. *)
Definition int_of_float (x : float) : result Z :=
  match x with
  | S754_zero _ => Ok 0
  | S754_finite s m e =>
      let a := match e with
               | Zneg k => Z.shiftr (Zpos m) (Zpos k)
               | _ => Z.shiftl (Zpos m) e
               end in
      Ok (if s then - a else a)
  | S754_infinity _ => Raise OverflowError
  | S754_nan => Raise ValueError
  end.

(** A Python number as the script uses them: an [int] or a [float]. *)
Inductive num :=
| Int (z : Z)
| Float (f : float).

(** [x + y]: an int operand is converted to float when the other is one. *)
Definition add (x y : num) : result num :=
  match x, y with
  | Int a, Int b => Ok (Int (a + b))
  | Int a, Float g =>
      match float_of_int a with
      | Ok f => Ok (Float (fadd f g))
      | Raise e => Raise e
      end
  | Float f, Int b =>
      match float_of_int b with
      | Ok g => Ok (Float (fadd f g))
      | Raise e => Raise e
      end
  | Float f, Float g => Ok (Float (fadd f g))
  end.

(** The exact value of a finite float as the pair (numerator, binary
    exponent of the denominator), and comparison of numbers by exact value
    ([None] when a NaN is involved). *)
Definition as_float (x : num) : float :=
  match x with
  | Int 0 => S754_zero false
  | Int (Zpos p) => S754_finite false p 0
  | Int (Zneg p) => S754_finite true p 0
  | Float f => f
  end.

(** Sign and magnitude [m * 2^e] scaled to a common exponent. *)
Definition scaled (f : float) (e0 : Z) : Z :=
  match f with
  | S754_finite s m e => cond_Zopp s (Z.shiftl (Zpos m) (e - e0))
  | _ => 0
  end.

Definition exponent (f : float) : Z :=
  match f with S754_finite _ _ e => e | _ => 0 end.

Definition fcompare (f g : float) : option comparison :=
  match f, g with
  | S754_nan, _ | _, S754_nan => None
  | S754_infinity s, S754_infinity t =>
      Some (match s, t with
            | true, false => Lt | false, true => Gt | _, _ => Eq end)
  | S754_infinity s, _ => Some (if s then Lt else Gt)
  | _, S754_infinity t => Some (if t then Gt else Lt)
  | _, _ =>
      let e0 := Z.min (exponent f) (exponent g) in
      Some (scaled f e0 ?= scaled g e0)
  end.

Definition compare (x y : num) : option comparison :=
  fcompare (as_float x) (as_float y).

Definition eqb (x y : num) : bool :=
  match compare x y with Some Eq => true | _ => false end.
Definition ltb (x y : num) : bool :=
  match compare x y with Some Lt => true | _ => false end.
Definition leb (x y : num) : bool :=
  match compare x y with Some Lt | Some Eq => true | _ => false end.

(** Whether a number is an integer-typed value ([isinstance(x, int)]). *)
Definition is_int (x : num) : bool :=
  match x with Int _ => true | Float _ => false end.

(** The exact rational value of a finite float. *)
Definition to_Q (f : float) : option Q :=
  match f with
  | S754_zero _ => Some 0%Q
  | S754_finite s m e =>
      Some (match e with
            | Zneg k => Qmake (cond_Zopp s (Zpos m)) (2 ^ k)%positive
            | _ => inject_Z (cond_Zopp s (Zpos m * 2 ^ e))
            end)
  | _ => None
  end.

(** Whether a number has an integral value (a float such as [30.0] has,
    [0.5] has not). *)
Definition is_integral (x : num) : bool :=
  match x with
  | Int _ => true
  | Float f =>
      match f with
      | S754_zero _ => true
      | S754_finite _ m e =>
          match e with
          | Zneg k => Z.land (Zpos m) (Z.ones (Zpos k)) =? 0
          | _ => true
          end
      | _ => false
      end
  end.

(** The literals of the script. *)
Definition f0_0 : float := S754_zero false.
Definition f1_0 : float := S754_finite false 4503599627370496 (-52).
(** [0.1 = 0x1.999999999999ap-4] *)
Definition f0_1 : float := S754_finite false 7205759403792794 (-56).
(** [0.3 = 0x1.3333333333333p-2] *)
Definition f0_3 : float := S754_finite false 5404319552844595 (-54).
(** [0.5 = 0x1.0p-1] *)
Definition f0_5 : float := S754_finite false 4503599627370496 (-53).
(** [360.0] and [180.0] *)
Definition f360 : float := S754_finite false 6333186975989760 (-44).
Definition f180 : float := S754_finite false 6333186975989760 (-45).

End Py.

(** ** The host scene

    What the script can observe of Blender's data: the data-blocks of
    [bpy.data] are kept in maps keyed by their (unique) names, and one
    data-block refers to another by that name.  An object refers to its
    curve data, a curve to its materials and, through its animation data,
    to an action holding the F-curves.  Values are recorded as the script
    passes them; the host's own storage precision and range clamping of
    properties are no part of the script. *)

Module Bpy.
Import Py.

(** [mathutils.Color]: given by its RGB components or through its [hsv]
    setter. *)
Inductive color :=
| RGB (r g b : float)
| HSV (h s v : float).

Record keyframe := Keyframe {
  co_frame : num;
  co_value : float;
  interpolation : string;
  easing : string }.

Record fcurve := FCurve {
  data_path : string;
  keyframe_points : list keyframe }.

Record action := Action { fcurves : list fcurve }.

(** [ID.animation_data]: its action slot may be empty. *)
Record anim_data := AnimData { ad_action : option string }.

Definition point : Type := float * float * float.

(** Curve data: geometry and bevel parameters. *)
Record curve := Curve {
  splines : list (list point);
  bevel_factor_start : float;
  bevel_factor_end : float;
  bevel_depth : float;
  cu_materials : list string;
  cu_animation_data : option anim_data }.

Record object := Object {
  data : string;
  animation_data : option anim_data }.

(** The value of a node input socket. *)
Inductive socket_value :=
| RGBA (c : color) (alpha : float)
| Scalar (x : num).

(** A shader node; [inputs] holds the default values assigned so far, the
    other sockets keep the host's defaults. *)
Record node := Node {
  node_name : string;
  bl_idname : string;
  inputs : gmap nat socket_value }.

Record link := Link {
  from_node : string;
  from_socket : nat;
  to_node : string;
  to_socket : nat }.

Record node_tree := NodeTree {
  nodes : list node;
  links : list link }.

Record material := Material {
  use_nodes : bool;
  mat_node_tree : option node_tree }.

Record scene := Scene {
  objects : gmap string object;             (* bpy.data.objects *)
  curves : gmap string curve;               (* bpy.data.curves *)
  actions : gmap string action;             (* bpy.data.actions *)
  materials : gmap string material;         (* bpy.data.materials *)
  collections : gmap string (list string);  (* bpy.data.collections *)
  scene_children : list string;   (* bpy.context.scene.collection.children *)
  scene_objects : list string;    (* bpy.context.scene.collection.objects *)
  context_collection : option string;
    (* bpy.context.collection: a named collection or the scene's own *)
  noise : nat → float;            (* the values mathutils.noise.random() *)
  noise_pos : nat }.              (* yields, and how many were drawn *)

Definition with_objects (f : gmap string object → gmap string object)
    (s : scene) : scene :=
  Scene (f (objects s)) (curves s) (actions s) (materials s) (collections s)
    (scene_children s) (scene_objects s) (context_collection s)
    (noise s) (noise_pos s).

Definition with_curves (f : gmap string curve → gmap string curve)
    (s : scene) : scene :=
  Scene (objects s) (f (curves s)) (actions s) (materials s) (collections s)
    (scene_children s) (scene_objects s) (context_collection s)
    (noise s) (noise_pos s).

Definition with_actions (f : gmap string action → gmap string action)
    (s : scene) : scene :=
  Scene (objects s) (curves s) (f (actions s)) (materials s) (collections s)
    (scene_children s) (scene_objects s) (context_collection s)
    (noise s) (noise_pos s).

Definition with_materials (f : gmap string material → gmap string material)
    (s : scene) : scene :=
  Scene (objects s) (curves s) (actions s) (f (materials s)) (collections s)
    (scene_children s) (scene_objects s) (context_collection s)
    (noise s) (noise_pos s).

Definition with_collections
    (f : gmap string (list string) → gmap string (list string))
    (s : scene) : scene :=
  Scene (objects s) (curves s) (actions s) (materials s) (f (collections s))
    (scene_children s) (scene_objects s) (context_collection s)
    (noise s) (noise_pos s).

Definition with_scene_children (f : list string → list string)
    (s : scene) : scene :=
  Scene (objects s) (curves s) (actions s) (materials s) (collections s)
    (f (scene_children s)) (scene_objects s) (context_collection s)
    (noise s) (noise_pos s).

Definition with_scene_objects (f : list string → list string)
    (s : scene) : scene :=
  Scene (objects s) (curves s) (actions s) (materials s) (collections s)
    (scene_children s) (f (scene_objects s)) (context_collection s)
    (noise s) (noise_pos s).

Definition with_noise_pos (f : nat → nat) (s : scene) : scene :=
  Scene (objects s) (curves s) (actions s) (materials s) (collections s)
    (scene_children s) (scene_objects s) (context_collection s)
    (noise s) (f (noise_pos s)).

(** *** The monad of the script: scene state and Python exceptions.
    A raised exception keeps the effects made before it. *)

Definition M (A : Type) : Type := scene → scene * result A.

Definition ret {A} (a : A) : M A := fun s => (s, Ok a).
Definition raise {A} (e : exn) : M A := fun s => (s, Raise e).
Definition bind {A B} (c : M A) (k : A → M B) : M B :=
  fun s => match c s with
           | (s', Ok a) => k a s'
           | (s', Raise e) => (s', Raise e)
           end.
Definition get : M scene := fun s => (s, Ok s).
Definition modify (f : scene → scene) : M unit := fun s => (f s, Ok tt).

(** Lifting a pure computation that may raise. *)
Definition lift {A} (r : result A) : M A := fun s => (s, r).

(** An optional value that must be there ([KeyError], [AttributeError]
    on [None], ...). *)
Definition need {A} (e : exn) (o : option A) : M A :=
  match o with Some a => ret a | None => raise e end.

Declare Scope py_scope.
Delimit Scope py_scope with py.
Notation "x <- c ;; k" := (bind c (fun x => k))
  (at level 100, c at next level, right associativity) : py_scope.
Notation "c ;; k" := (bind c (fun _ => k))
  (at level 100, right associativity) : py_scope.
Local Open Scope py_scope.

(** [for i in range(n): vars = body(i, vars)]: the loop-carried variables
    are threaded explicitly. *)
Fixpoint for_range {V} (body : Z → V → M V) (i : Z) (count : nat) (vars : V)
    : M V :=
  match count with
  | O => ret vars
  | S count' => vars' <- body i vars ;; for_range body (i + 1) count' vars'
  end.

(** *** Host operations *)

(** [mathutils.noise.random()] *)
Definition noise_random : M float :=
  s <- get ;; modify (with_noise_pos S) ;; ret (noise s (noise_pos s)).

Definition get_object (ob : string) : M object :=
  s <- get ;; need KeyError (objects s !! ob).
Definition get_curve (cu : string) : M curve :=
  s <- get ;; need KeyError (curves s !! cu).
Definition get_action (a : string) : M action :=
  s <- get ;; need KeyError (actions s !! a).
Definition get_material (m : string) : M material :=
  s <- get ;; need KeyError (materials s !! m).

Definition put_object (ob : string) (o : object) : M unit :=
  modify (with_objects <[ob := o]>).
Definition put_curve (cu : string) (c : curve) : M unit :=
  modify (with_curves <[cu := c]>).
Definition put_action (a : string) (x : action) : M unit :=
  modify (with_actions <[a := x]>).
Definition put_material (m : string) (x : material) : M unit :=
  modify (with_materials <[m := x]>).

(** [ob.copy()]: a new object under a name not in use, with the fields of
    the original: it refers to the same curve data and, through a copy of
    the animation data, to the same action. *)
Definition object_copy (ob : string) : M string :=
  o <- get_object ob ;;
  s <- get ;;
  let ob' := fresh_string ob (objects s) in
  put_object ob' o ;;
  ret ob'.

(** [cu.copy()]: a new curve data-block under a name not in use; geometry
    and settings are copied, materials and action are referred to. *)
Definition curve_copy (cu : string) : M string :=
  c <- get_curve cu ;;
  s <- get ;;
  let cu' := fresh_string cu (curves s) in
  put_curve cu' c ;;
  ret cu'.

(** [ob.data = cu] *)
Definition set_data (ob cu : string) : M unit :=
  o <- get_object ob ;;
  put_object ob (Object cu (animation_data o)).

(** [ob.animation_data_clear()] *)
Definition animation_data_clear (ob : string) : M unit :=
  o <- get_object ob ;;
  put_object ob (Object (data o) None).

(** [coll.objects.link(ob)] on a named collection. *)
Definition collection_link (coll ob : string) : M unit :=
  s <- get ;;
  obs <- need KeyError (collections s !! coll) ;;
  if bool_decide (ob ∈ obs) then raise RuntimeError
  else modify (with_collections <[coll := obs ++ [ob]]>).

(** [bpy.context.collection.objects.link(ob)] *)
Definition context_link (ob : string) : M unit :=
  s <- get ;;
  match context_collection s with
  | Some coll => collection_link coll ob
  | None =>
      if bool_decide (ob ∈ scene_objects s) then raise RuntimeError
      else modify (with_scene_objects (λ obs, obs ++ [ob]))
  end.

Definition set_bevel_factor_start (cu : string) (x : float) : M unit :=
  c <- get_curve cu ;;
  put_curve cu (Curve (splines c) x (bevel_factor_end c) (bevel_depth c)
                      (cu_materials c) (cu_animation_data c)).

Definition set_bevel_factor_end (cu : string) (x : float) : M unit :=
  c <- get_curve cu ;;
  put_curve cu (Curve (splines c) (bevel_factor_start c) x (bevel_depth c)
                      (cu_materials c) (cu_animation_data c)).

Definition set_bevel_depth (cu : string) (x : float) : M unit :=
  c <- get_curve cu ;;
  put_curve cu (Curve (splines c) (bevel_factor_start c) (bevel_factor_end c)
                      x (cu_materials c) (cu_animation_data c)).

Definition set_splines (cu : string) (g : list (list point)) : M unit :=
  c <- get_curve cu ;;
  put_curve cu (Curve g (bevel_factor_start c) (bevel_factor_end c)
                      (bevel_depth c) (cu_materials c) (cu_animation_data c)).

(** [cu.materials.append(mat)] *)
Definition materials_append (cu mat : string) : M unit :=
  c <- get_curve cu ;;
  put_curve cu (Curve (splines c) (bevel_factor_start c) (bevel_factor_end c)
                      (bevel_depth c) (cu_materials c ++ [mat])
                      (cu_animation_data c)).

(** The animatable properties of curve data the script names. *)
Definition property (c : curve) (path : string) : option float :=
  if String.eqb path "bevel_factor_start" then Some (bevel_factor_start c)
  else if String.eqb path "bevel_factor_end" then Some (bevel_factor_end c)
  else if String.eqb path "bevel_depth" then Some (bevel_depth c)
  else None.

(** Keys of an F-curve are kept in frame order; a key inserted on the frame
    of an existing one replaces its value. *)
Fixpoint insert_key (frame : num) (v : float) (kfs : list keyframe)
    : list keyframe :=
  match kfs with
  | [] => [Keyframe frame v "BEZIER" "AUTO"]
  | k :: rest =>
      if eqb frame (co_frame k)
      then Keyframe (co_frame k) v (interpolation k) (easing k) :: rest
      else if ltb frame (co_frame k)
      then Keyframe frame v "BEZIER" "AUTO" :: k :: rest
      else k :: insert_key frame v rest
  end.

(** The F-curve of a property is created on its first key. *)
Fixpoint insert_fcurve_key (path : string) (frame : num) (v : float)
    (fcs : list fcurve) : list fcurve :=
  match fcs with
  | [] => [FCurve path (insert_key frame v [])]
  | fc :: rest =>
      if String.eqb (data_path fc) path
      then FCurve path (insert_key frame v (keyframe_points fc)) :: rest
      else fc :: insert_fcurve_key path frame v rest
  end.

(** The action keys of [cu] go to: the one assigned, or a new one which is
    then assigned (with the animation data, where that is missing). *)
Definition ensure_action (cu : string) : M string :=
  c <- get_curve cu ;;
  match cu_animation_data c with
  | Some (AnimData (Some a)) => ret a
  | _ =>
      s <- get ;;
      let a := fresh_string (cu +:+ "Action") (actions s) in
      put_action a (Action []) ;;
      put_curve cu (Curve (splines c) (bevel_factor_start c)
                          (bevel_factor_end c) (bevel_depth c)
                          (cu_materials c) (Some (AnimData (Some a)))) ;;
      ret a
  end.

(** [cu.keyframe_insert(data_path=path, frame=frame)]: keys the current
    value of the property. *)
Definition keyframe_insert (cu path : string) (frame : num) : M unit :=
  c <- get_curve cu ;;
  v <- need TypeError (property c path) ;;
  a <- ensure_action cu ;;
  act <- get_action a ;;
  put_action a (Action (insert_fcurve_key path frame v (fcurves act))).

(** [bpy.data.materials.new(name)]: a material without nodes, under a name
    not in use. *)
Definition materials_new (name : string) : M string :=
  s <- get ;;
  let m := fresh_string name (materials s) in
  put_material m (Material false None) ;;
  ret m.

(** The node tree a material gets when nodes are first enabled. *)
Definition default_node_tree : node_tree :=
  NodeTree [Node "Principled BSDF" "ShaderNodeBsdfPrincipled" ∅;
            Node "Material Output" "ShaderNodeOutputMaterial" ∅]
           [Link "Principled BSDF" 0 "Material Output" 0].

(** [mat.use_nodes = True] *)
Definition set_use_nodes (m : string) : M unit :=
  x <- get_material m ;;
  put_material m
    (Material true (Some (default default_node_tree (mat_node_tree x)))).

Definition get_node_tree (m : string) : M node_tree :=
  x <- get_material m ;; need AttributeError (mat_node_tree x).

Definition put_node_tree (m : string) (t : node_tree) : M unit :=
  x <- get_material m ;; put_material m (Material (use_nodes x) (Some t)).

(** [mat.node_tree.links.clear()] and [mat.node_tree.nodes.clear()] *)
Definition links_clear (m : string) : M unit :=
  t <- get_node_tree m ;; put_node_tree m (NodeTree (nodes t) []).
Definition nodes_clear (m : string) : M unit :=
  t <- get_node_tree m ;; put_node_tree m (NodeTree [] []).

(** The name a node of a given type is created under. *)
Definition node_label (type : string) : option string :=
  if String.eqb type "ShaderNodeOutputMaterial" then Some "Material Output"
  else if String.eqb type "ShaderNodeBsdfDiffuse" then Some "Diffuse BSDF"
  else if String.eqb type "ShaderNodeEmission" then Some "Emission"
  else if String.eqb type "ShaderNodeBsdfGlossy" then Some "Glossy BSDF"
  else None.

(** [mat.node_tree.nodes.new(type=type)]: the node is named after its type,
    made unique within the tree. *)
Definition nodes_new (m type : string) : M string :=
  t <- get_node_tree m ;;
  label <- need RuntimeError (node_label type) ;;
  let name :=
    fresh_string_of_set label (list_to_set (node_name <$> nodes t)) in
  put_node_tree m (NodeTree (nodes t ++ [Node name type ∅]) (links t)) ;;
  ret name.

(** [mat.node_tree.nodes[name].inputs[i].default_value = v] *)
Definition set_input (name : string) (i : nat) (v : socket_value)
    (nd : node) : node :=
  if String.eqb (node_name nd) name
  then Node (node_name nd) (bl_idname nd) (<[i := v]> (inputs nd))
  else nd.

Definition set_input_default (m name : string) (i : nat) (v : socket_value)
    : M unit :=
  t <- get_node_tree m ;;
  if existsb (λ nd, String.eqb (node_name nd) name) (nodes t)
  then put_node_tree m (NodeTree (set_input name i v <$> nodes t) (links t))
  else raise KeyError.

(** [mat.node_tree.links.new(a.outputs[i], b.inputs[j])]: an input socket
    holds one link, the new one. *)
Definition links_new (m a : string) (i : nat) (b : string) (j : nat)
    : M unit :=
  t <- get_node_tree m ;;
  let others :=
    filter (λ l, ¬ (to_node l = b ∧ to_socket l = j)) (links t) in
  put_node_tree m (NodeTree (nodes t) (others ++ [Link a i b j])).

End Bpy.

(** ** The script *)

Module Script.
Import Py Bpy.
Local Open Scope py_scope.

(** [obj.data] *)
Definition data_of (obj : string) : M string :=
  o <- get_object obj ;; ret (data o).

(** [lerp(t, a, b)] *)
Definition lerp (t a b : float) : float :=
  fadd (fmul (fsub f1_0 t) a) (fmul t b).

Definition create_collection_if_not_exists (collection_name : string)
    : M unit :=
  s <- get ;;
  match collections s !! collection_name with
  | Some _ => ret tt
  | None =>
      modify (with_collections <[collection_name := []]>) ;;
      modify (with_scene_children (λ cs, cs ++ [collection_name]))
  end.

Definition add_object_to_collection (base_object collection_name : string)
    : M unit :=
  create_collection_if_not_exists collection_name ;;
  collection_link collection_name base_object.

Definition copy_obj (obj : string) (collection_name : option string)
    : M string :=
  obj_cpy <- object_copy obj ;;
  d <- data_of obj ;;
  d' <- curve_copy d ;;
  set_data obj_cpy d' ;;
  animation_data_clear obj_cpy ;;
  match collection_name with
  | None => context_link obj_cpy
  | Some name => add_object_to_collection obj_cpy name
  end ;;
  ret obj_cpy.

Definition animate_curve_growth (curve : string) (frame_start frame_end : num)
    (growth_factor_start growth_factor_end : float) : M unit :=
  (* Set starting. *)
  d <- data_of curve ;; set_bevel_factor_end d growth_factor_start ;;
  d <- data_of curve ;; set_bevel_factor_start d growth_factor_start ;;
  d <- data_of curve ;; keyframe_insert d "bevel_factor_start" frame_start ;;
  d <- data_of curve ;; keyframe_insert d "bevel_factor_end" frame_start ;;
  (* Set end. *)
  d <- data_of curve ;; set_bevel_factor_end d growth_factor_end ;;
  d <- data_of curve ;; keyframe_insert d "bevel_factor_end" frame_end.

Definition animate_curve_thickness (curve : string)
    (frame_start frame_end : num) (thickness_min thickness_max : float)
    (start_thickness : float) : M unit :=
  d <- data_of curve ;; set_bevel_depth d start_thickness ;;
  d <- data_of curve ;; keyframe_insert d "bevel_depth" frame_start ;;
  r <- noise_random ;;
  d <- data_of curve ;; set_bevel_depth d (lerp r thickness_min thickness_max) ;;
  d <- data_of curve ;; keyframe_insert d "bevel_depth" frame_end.

Definition shape_key (option : string) (kf : keyframe) : keyframe :=
  Keyframe (co_frame kf) (co_value kf) option "EASE_OUT".

Definition shape_fcurve (option : string) (fc : fcurve) : fcurve :=
  FCurve (data_path fc) (shape_key option <$> keyframe_points fc).

Definition set_animation_fcurve (base_object : string) (option : string)
    : M unit :=
  d <- data_of base_object ;;
  c <- get_curve d ;;
  ad <- need AttributeError (cu_animation_data c) ;;
  a <- need AttributeError (ad_action ad) ;;
  act <- get_action a ;;
  put_action a (Action (shape_fcurve option <$> fcurves act)).

Definition create_material (mat_id mat_type : string) (color : color)
    (emission_intensity glossy_roughness : num) : M string :=
  s <- get ;;
  mat <- match materials s !! mat_id with
         | Some _ => ret mat_id
         | None => materials_new mat_id
         end ;;
  set_use_nodes mat ;;
  x <- get_material mat ;;
  match mat_node_tree x with
  | Some _ => links_clear mat ;; nodes_clear mat
  | None => ret tt
  end ;;
  output <- nodes_new mat "ShaderNodeOutputMaterial" ;;
  shader <-
    (if String.eqb mat_type "diffuse" then
       shader <- nodes_new mat "ShaderNodeBsdfDiffuse" ;;
       set_input_default mat "Diffuse BSDF" 0 (RGBA color f1_0) ;;
       ret (Some shader)
     else if String.eqb mat_type "emission" then
       shader <- nodes_new mat "ShaderNodeEmission" ;;
       set_input_default mat "Emission" 0 (RGBA color f1_0) ;;
       set_input_default mat "Emission" 1 (Scalar emission_intensity) ;;
       ret (Some shader)
     else if String.eqb mat_type "glossy" then
       shader <- nodes_new mat "ShaderNodeBsdfGlossy" ;;
       set_input_default mat "Glossy BSDF" 0 (RGBA color f1_0) ;;
       set_input_default mat "Glossy BSDF" 1 (Scalar glossy_roughness) ;;
       ret (Some shader)
     else ret None) ;;
  shader <- need UnboundLocalError shader ;;
  links_new mat shader 0 output 0 ;;
  ret mat.

(** The five hues of a palette, from the seed hue and the offset. *)
Definition palette_hues (hue hue_op : Z) : list Z :=
  [hue;
   hue - hue_op;
   hue + hue_op;
   hue - 2 * hue_op;
   hue + 2 * hue_op].

Definition generate_5_random_colors_that_fit : M (list color) :=
  r <- noise_random ;;
  hue <- lift (int_of_float (fmul r f360)) ;;
  r <- noise_random ;;
  hue_op <- lift (int_of_float (fmul r f180)) ;;
  let hues := palette_hues hue hue_op in
  for_range
    (λ i rand_cols,
       hi <- need IndexError (hues !! Z.to_nat i) ;;
       fh <- lift (float_of_int hi) ;;
       h <- lift (float_truediv fh f360) ;;
       s <- noise_random ;;
       v <- noise_random ;;
       ret (rand_cols ++ [HSV h s v]))
    0 5 [].

Definition thickness_delta : float := f0_3.

(** [1.0 / n_instances] *)
Definition growth_delta_of (n_instances : Z) : result float :=
  match float_of_int n_instances with
  | Ok n => float_truediv f1_0 n
  | Raise e => Raise e
  end.

Definition thicker_to_thinner_body (curve : string) (n_frames : Z)
    (growth_delta curr_start_growth : float) (rand_5_colors : list color)
    (instance_i : Z) (vars : float * float) : M (float * float) :=
  let '(curr_end_growth, curr_thickness) := vars in
  curve_cpy <-
    copy_obj curve (Some "curve_cpy_thicker_to_thinner_collection") ;;
  (* Animate growth. *)
  animate_curve_growth curve_cpy (Int 0) (Int n_frames)
    curr_start_growth curr_end_growth ;;
  set_animation_fcurve curve_cpy "CUBIC" ;;
  let curr_end_growth' := fsub curr_end_growth growth_delta in
  (* Animate thickening. *)
  d <- data_of curve_cpy ;; set_bevel_depth d curr_thickness ;;
  d <- data_of curve_cpy ;; keyframe_insert d "bevel_depth" (Int 0) ;;
  let curr_thickness' := fadd curr_thickness thickness_delta in
  (* Add material. *)
  col <- need IndexError (rand_5_colors !! Z.to_nat (instance_i mod 2)) ;;
  mat <- create_material (curve_cpy +:+ "_mat") "diffuse" col
           (Int 1) (Float f0_1) ;;
  d <- data_of curve_cpy ;; materials_append d mat ;;
  ret (curr_end_growth', curr_thickness').

Definition grow_from_thicker_to_thinner (curve : string)
    (n_instances n_frames : Z) : M unit :=
  growth_delta <- lift (growth_delta_of n_instances) ;;
  let curr_start_growth := f0_0 in
  let curr_end_growth := f1_0 in
  let curr_thickness := f0_1 in
  rand_5_colors <- generate_5_random_colors_that_fit ;;
  for_range
    (thicker_to_thinner_body curve n_frames growth_delta curr_start_growth
       rand_5_colors)
    0 (Z.to_nat n_instances) (curr_end_growth, curr_thickness) ;;
  ret tt.

Definition thinner_to_thicker_body (curve : string)
    (delta_frame growth_delta : float) (rand_5_colors : list color)
    (instance_i : Z) (vars : num * float * float) : M (num * float * float) :=
  let '(curr_frame, curr_start_growth, curr_thickness) := vars in
  curve_cpy <-
    copy_obj curve (Some "curve_cpy_thinner_to_thicker_collection") ;;
  (* Animate growth. *)
  frame_end <- lift (add curr_frame (Float delta_frame)) ;;
  animate_curve_growth curve_cpy curr_frame frame_end
    curr_start_growth (fadd curr_start_growth growth_delta) ;;
  set_animation_fcurve curve_cpy "LINEAR" ;;
  let curr_start_growth' := fadd curr_start_growth growth_delta in
  curr_frame' <- lift (add curr_frame (Float delta_frame)) ;;
  (* Animate thickening. *)
  d <- data_of curve_cpy ;; set_bevel_depth d curr_thickness ;;
  d <- data_of curve_cpy ;; keyframe_insert d "bevel_depth" (Int 0) ;;
  let curr_thickness' := fadd curr_thickness thickness_delta in
  (* Add material. *)
  col <- need IndexError (rand_5_colors !! Z.to_nat (instance_i mod 2)) ;;
  mat <- create_material (curve_cpy +:+ "_mat") "diffuse" col
           (Int 1) (Float f0_1) ;;
  d <- data_of curve_cpy ;; materials_append d mat ;;
  ret (curr_frame', curr_start_growth', curr_thickness').

Definition grow_from_thinner_to_thicker (curve : string)
    (n_instances n_frames : Z) : M unit :=
  let curr_frame := Int 0 in
  delta_frame <- lift (int_truediv n_frames n_instances) ;;
  growth_delta <- lift (growth_delta_of n_instances) ;;
  let curr_start_growth := f0_0 in
  let curr_thickness := f0_1 in
  rand_5_colors <- generate_5_random_colors_that_fit ;;
  for_range
    (thinner_to_thicker_body curve delta_frame growth_delta rand_5_colors)
    0 (Z.to_nat n_instances) (curr_frame, curr_start_growth, curr_thickness) ;;
  ret tt.

(** [for x in xs: body(x)] *)
Fixpoint for_each {A} (body : A → M unit) (xs : list A) : M unit :=
  match xs with
  | [] => ret tt
  | x :: xs' => body x ;; for_each body xs'
  end.

(** [bpy.data.collections[name].all_objects]: the objects linked to the
    collection (a collection of this scene has no child collections). *)
Definition all_objects (name : string) : M (list string) :=
  s <- get ;; need KeyError (collections s !! name).

Definition main : M unit :=
  (* Parameters. *)
  let n_instances := 10 in
  let n_frames := 300 in
  curves <- all_objects "start_thicker_to_thinner_collection" ;;
  for_each
    (λ curve, grow_from_thicker_to_thinner curve n_instances n_frames)
    curves ;;
  curves <- all_objects "start_thinner_to_thicker_collection" ;;
  for_each
    (λ curve, grow_from_thinner_to_thicker curve n_instances n_frames)
    curves.

End Script.

(** ** Notions used in the statements *)

Module Spec.
Import Py Bpy.
Local Open Scope py_scope.

(** [runs c s a s']: from scene [s], [c] returns [a] and leaves [s']. *)
Definition runs {A} (c : M A) (s : scene) (a : A) (s' : scene) : Prop :=
  c s = (s', Ok a).

(** [fails c s e s']: from [s], [c] raises [e], having reached [s']. *)
Definition fails {A} (c : M A) (s : scene) (e : exn) (s' : scene) : Prop :=
  c s = (s', Raise e).

(** *** Non-negative floats *)

(** A zero, [+inf], or a positive finite float in canonical form (a valid
    binary64 float in the sense of [SpecFloat.valid_binary]). *)
Definition good (f : float) : bool :=
  match f with
  | S754_zero _ => true
  | S754_infinity s => negb s
  | S754_nan => false
  | S754_finite s m e => negb s && bounded prec emax m e
  end.

(** The values the frame counter of thin-to-thick takes: the int [0], then
    non-negative floats. *)
Definition good_frame (x : num) : bool :=
  match x with
  | Int z => z =? 0
  | Float f => good f
  end.

(** *** Keyframe shaping *)

(** What shaping does on an object whose curve data is [c]. *)
Definition shaping_outcome (s : scene) (ob : string) (c : curve)
    (option : string) : Prop :=
  match cu_animation_data c with
  | None | Some (AnimData None) =>
      fails (Script.set_animation_fcurve ob option) s AttributeError s
  | Some (AnimData (Some a)) =>
      ∀ act, actions s !! a = Some act →
        ∃ act',
          runs (Script.set_animation_fcurve ob option) s tt
               (with_actions <[a := act']> s) ∧
          data_path <$> fcurves act' = data_path <$> fcurves act ∧
          (λ fc, co_frame <$> keyframe_points fc) <$> fcurves act'
            = (λ fc, co_frame <$> keyframe_points fc) <$> fcurves act ∧
          (λ fc, co_value <$> keyframe_points fc) <$> fcurves act'
            = (λ fc, co_value <$> keyframe_points fc) <$> fcurves act ∧
          ∀ fc kf, fc ∈ fcurves act' → kf ∈ keyframe_points fc →
            interpolation kf = option ∧ easing kf = "EASE_OUT"
  end.

(** *** The palette *)

(** The hue a colour was given through its [hsv] setter. *)
Definition color_hue (c : color) : option float :=
  match c with HSV h _ _ => Some h | RGB _ _ _ => None end.

(** [h / 360.0] for an integer hue. *)
Definition hue_fraction (h : Z) : float := fdiv (round_int h) f360.

(** The colours of the palette with seed hue [hue] and offset [hue_op],
    saturations and values being the next ten draws of the scene [s]. *)
Definition palette_from (s : scene) (hue hue_op : Z) : list color :=
  let p := noise_pos s in
  [HSV (hue_fraction hue)
       (noise s (2 + p)%nat) (noise s (3 + p)%nat);
   HSV (hue_fraction (hue - hue_op))
       (noise s (4 + p)%nat) (noise s (5 + p)%nat);
   HSV (hue_fraction (hue + hue_op))
       (noise s (6 + p)%nat) (noise s (7 + p)%nat);
   HSV (hue_fraction (hue - 2 * hue_op))
       (noise s (8 + p)%nat) (noise s (9 + p)%nat);
   HSV (hue_fraction (hue + 2 * hue_op))
       (noise s (10 + p)%nat) (noise s (11 + p)%nat)].

(** *** Duplication *)

(** A scene is consistent when every object's data is a curve of the
    scene, every member of a collection is an object of the scene, and the
    context collection, when it is a named one, exists. *)
Definition consistent (s : scene) : Prop :=
  map_Forall (λ _ o, is_Some (curves s !! data o)) (objects s) ∧
  map_Forall (λ _ obs, Forall (λ x, is_Some (objects s !! x)) obs)
             (collections s) ∧
  Forall (λ x, is_Some (objects s !! x)) (scene_objects s) ∧
  from_option (λ coll, is_Some (collections s !! coll)) True
              (context_collection s).

(** Linking object [ob] to the named collection (created and put under the
    scene when absent) or, without a name, to the context collection. *)
Definition link_into (collection_name : option string) (ob : string)
    (s : scene) : scene :=
  match collection_name with
  | Some name =>
      match collections s !! name with
      | Some obs => with_collections <[name := obs ++ [ob]]> s
      | None =>
          with_collections <[name := [ob]]>
            (with_scene_children (λ cs, cs ++ [name]) s)
      end
  | None =>
      match context_collection s with
      | Some coll =>
          with_collections
            <[coll := default [] (collections s !! coll) ++ [ob]]> s
      | None => with_scene_objects (λ obs, obs ++ [ob]) s
      end
  end.

(** Replacing the geometry of a curve. *)
Definition with_splines (g : list (list point)) (c : curve) : curve :=
  Curve g (bevel_factor_start c) (bevel_factor_end c) (bevel_depth c)
        (cu_materials c) (cu_animation_data c).

(** *** Growth *)

(** The loop-carried variables of the two strategies when instance [i]
    starts: each is what the script's repeated [+=] / [-=] makes of it. *)
Definition thickness (i : nat) : float :=
  Nat.iter i (λ t, fadd t Script.thickness_delta) f0_1.

Definition end_growth (growth_delta : float) (i : nat) : float :=
  Nat.iter i (λ e, fsub e growth_delta) f1_0.

Definition start_growth (growth_delta : float) (i : nat) : float :=
  Nat.iter i (λ g, fadd g growth_delta) f0_0.

(** [curr_frame + delta_frame]: the frame counter starts as the int [0] and
    is a float from the first addition on. *)
Definition step_frame (delta_frame : float) (curr_frame : num) : num :=
  Float (fadd (match curr_frame with
               | Int z => round_int z
               | Float f => f
               end) delta_frame).

Definition frame_start (delta_frame : float) (i : nat) : num :=
  Nat.iter i (step_frame delta_frame) (Int 0).

(** What one instance is made with: the frames and growth fractions of its
    growth animation, its thickness and its colour. *)
Record instance_params := InstanceParams {
  ip_frame_start : num;
  ip_frame_end : num;
  ip_growth_start : float;
  ip_growth_end : float;
  ip_thickness : float;
  ip_color : color }.

(** The F-curves an instance ends with: the growth keys, shaped, and the
    thickness key. *)
Definition instance_fcurves (option : string) (p : instance_params)
    : list fcurve :=
  [FCurve "bevel_factor_start"
     [Keyframe (ip_frame_start p) (ip_growth_start p) option "EASE_OUT"];
   FCurve "bevel_factor_end"
     (Script.shape_key option <$>
        insert_key (ip_frame_end p) (ip_growth_end p)
          [Keyframe (ip_frame_start p) (ip_growth_start p) "BEZIER" "AUTO"]);
   FCurve "bevel_depth"
     [Keyframe (Int 0) (ip_thickness p) "BEZIER" "AUTO"]].

(** The curve data an instance ends with, [c0] being the source's. *)
Definition instance_curve (c0 : curve) (a mat : string) (p : instance_params)
    : curve :=
  Curve (splines c0) (ip_growth_start p) (ip_growth_end p) (ip_thickness p)
        (cu_materials c0 ++ [mat]) (Some (AnimData (Some a))).

(** The material an instance is painted with. *)
Definition diffuse_material (col : color) : material :=
  Material true
    (Some (NodeTree
             [Node "Material Output" "ShaderNodeOutputMaterial" ∅;
              Node "Diffuse BSDF" "ShaderNodeBsdfDiffuse"
                   {[0%nat := RGBA col f1_0]}]
             [Link "Diffuse BSDF" 0 "Material Output" 0])).

(** The scene after one turn of a growth loop on source object [curve]
    (object [o0] with curve data [c0]). *)
Definition add_instance (curve collection option : string) (o0 : object)
    (c0 : Bpy.curve) (p : instance_params) (s : scene) : scene :=
  let ob := fresh_string curve (objects s) in
  let d := fresh_string (data o0) (curves s) in
  let a := fresh_string (d +:+ "Action") (actions s) in
  with_materials <[ob +:+ "_mat" := diffuse_material (ip_color p)]>
    (with_actions <[a := Action (instance_fcurves option p)]>
       (with_curves <[d := instance_curve c0 a (ob +:+ "_mat") p]>
          (with_objects <[ob := Object d None]>
             (link_into (Some collection) ob s)))).

(** The scene after [n] turns, instance [i + k] being made with
    [plan (i + k)]. *)
Fixpoint add_instances (curve collection option : string) (o0 : object)
    (c0 : Bpy.curve) (plan : nat → instance_params) (i n : nat) (s : scene)
    : scene :=
  match n with
  | O => s
  | S n' =>
      add_instances curve collection option o0 c0 plan (S i) n'
        (add_instance curve collection option o0 c0 (plan i) s)
  end.

(** The colour of instance [i]. *)
Definition instance_color (palette : list color) (i : nat) : color :=
  default (RGB f0_0 f0_0 f0_0) (palette !! (i mod 2)%nat).

Definition thick_plan (n_frames : Z) (growth_delta : float)
    (palette : list color) (i : nat) : instance_params :=
  InstanceParams (Int 0) (Int n_frames) f0_0 (end_growth growth_delta i)
                 (thickness i) (instance_color palette i).

Definition thin_plan (delta_frame growth_delta : float)
    (palette : list color) (i : nat) : instance_params :=
  InstanceParams (frame_start delta_frame i) (frame_start delta_frame (S i))
                 (start_growth growth_delta i)
                 (start_growth growth_delta (S i))
                 (thickness i) (instance_color palette i).

(** What a turn of a growth loop needs of the scene, and keeps: the source
    object [curve] is object [o0] with curve data [c0], in a consistent
    scene. *)
Definition ready (curve : string) (o0 : object) (c0 : Bpy.curve)
    (s : scene) : Prop :=
  objects s !! curve = Some o0 ∧
  curves s !! data o0 = Some c0 ∧
  consistent s.

(** Object [ob] of scene [s] is an instance made with [p] from a source
    with curve data [c0]. *)
Definition is_instance (s : scene) (ob : string) (c0 : Bpy.curve)
    (option : string) (p : instance_params) : Prop :=
  ∃ d a,
    objects s !! ob = Some (Object d None) ∧
    curves s !! d = Some (instance_curve c0 a (ob +:+ "_mat") p) ∧
    actions s !! a = Some (Action (instance_fcurves option p)) ∧
    materials s !! (ob +:+ "_mat") = Some (diffuse_material (ip_color p)).

(** The two strategies, to state what they share. *)
Inductive strategy := ThickerToThinner | ThinnerToThicker.

Definition grow (st : strategy) : string → Z → Z → M unit :=
  match st with
  | ThickerToThinner => Script.grow_from_thicker_to_thinner
  | ThinnerToThicker => Script.grow_from_thinner_to_thicker
  end.

Definition collection_of (st : strategy) : string :=
  match st with
  | ThickerToThinner => "curve_cpy_thicker_to_thinner_collection"
  | ThinnerToThicker => "curve_cpy_thinner_to_thicker_collection"
  end.

Definition option_of (st : strategy) : string :=
  match st with
  | ThickerToThinner => "CUBIC"
  | ThinnerToThicker => "LINEAR"
  end.

(** What the instances of a run are made with; the divisions at the head
    of the strategy may raise. *)
Definition plan_of (st : strategy) (n_instances n_frames : Z)
    (palette : list color) : result (nat → instance_params) :=
  match st with
  | ThickerToThinner =>
      match Script.growth_delta_of n_instances with
      | Ok growth_delta => Ok (thick_plan n_frames growth_delta palette)
      | Raise e => Raise e
      end
  | ThinnerToThicker =>
      match int_truediv n_frames n_instances with
      | Ok delta_frame =>
          match Script.growth_delta_of n_instances with
          | Ok growth_delta =>
              Ok (thin_plan delta_frame growth_delta palette)
          | Raise e => Raise e
          end
      | Raise e => Raise e
      end
  end.

(** The keys of the end fraction in thick-to-thin, by the place of frame
    [n_frames] with respect to frame [0]. *)
Definition thick_end_keys (n_frames : Z) (v : float) : list keyframe :=
  if n_frames =? 0 then [Keyframe (Int 0) v "CUBIC" "EASE_OUT"]
  else if n_frames <? 0 then
    [Keyframe (Int n_frames) v "CUBIC" "EASE_OUT";
     Keyframe (Int 0) f0_0 "CUBIC" "EASE_OUT"]
  else
    [Keyframe (Int 0) f0_0 "CUBIC" "EASE_OUT";
     Keyframe (Int n_frames) v "CUBIC" "EASE_OUT"].

(** A source the strategies are meant for: an object of a consistent
    scene whose curve data carries no animation data of its own. *)
Definition source (s : scene) (curve : string) (o0 : object)
    (c0 : Bpy.curve) : Prop :=
  ready curve o0 c0 s ∧ cu_animation_data c0 = None.

(** *** Observing a scene *)

(** The F-curves animating the curve data of object [ob]. *)
Definition fcurves_of (s : scene) (ob : string) : option (list fcurve) :=
  o ← objects s !! ob;
  c ← curves s !! data o;
  ad ← cu_animation_data c;
  a ← ad_action ad;
  act ← actions s !! a;
  Some (fcurves act).

(** The keys of one animated property of [ob]. *)
Definition keys_of (s : scene) (ob path : string) : option (list keyframe) :=
  fcs ← fcurves_of s ob;
  fc ← find (λ fc, String.eqb (data_path fc) path) fcs;
  Some (keyframe_points fc).

(** The materials of the curve data of [ob]. *)
Definition materials_of (s : scene) (ob : string) : option (list string) :=
  o ← objects s !! ob;
  c ← curves s !! data o;
  Some (cu_materials c).

(** The colour input of the (first) shader node of material [m]. *)
Definition material_color (s : scene) (m : string) : option socket_value :=
  x ← materials s !! m;
  t ← mat_node_tree x;
  nd ← find (λ nd, negb (String.eqb (bl_idname nd)
                                     "ShaderNodeOutputMaterial")) (nodes t);
  inputs nd !! 0%nat.

(** The objects linked to a collection ([[]] when it does not exist). *)
Definition members (s : scene) (collection : string) : list string :=
  default [] (collections s !! collection).

(** *** Duplication, observed *)

(** The action that animates curve data [c], when there is one. *)
Definition action_of (c : curve) : option string :=
  cu_animation_data c ≫= ad_action.

(** What [copy_obj obj collection_name] does on a scene [s] where [obj] is
    object [o] with curve data [c]. *)
Definition duplicated (s : scene) (obj : string) (o : object) (c : curve)
    (collection_name : option string) : Prop :=
  ∃ obj_cpy d' s',
    runs (Script.copy_obj obj collection_name) s obj_cpy s' ∧
    (* a new object with new curve data holding a copy of the source's;
       the object itself has no animation data, whatever the source has *)
    objects s !! obj_cpy = None ∧
    curves s !! d' = None ∧
    objects s' !! obj_cpy = Some (Object d' None) ∧
    curves s' !! d' = Some c ∧
    (* the data is referred to by the new object only *)
    (∀ k o', objects s' !! k = Some o' → data o' = d' → k = obj_cpy) ∧
    (* the copy stops at the action: the new curve data has the animation
       data of the source's, and so the same action and F-curves *)
    (curves s' !! d' ≫= action_of) = action_of c ∧
    fcurves_of s' obj_cpy = fcurves_of s obj ∧
    (* everything that was there is unchanged *)
    (∀ k, k ≠ obj_cpy → objects s' !! k = objects s !! k) ∧
    (∀ k, k ≠ d' → curves s' !! k = curves s !! k) ∧
    objects s' !! obj = Some o ∧
    curves s' !! data o = Some c ∧
    actions s' = actions s ∧
    materials s' = materials s ∧
    consistent s' ∧
    (* changing the duplicate's geometry leaves the source's alone *)
    (∀ g, ∃ s'',
       runs (set_splines d' g) s' tt s'' ∧
       curves s'' !! d' = Some (with_splines g c) ∧
       curves s'' !! data o = Some c ∧
       objects s'' = objects s' ∧
       ∀ k, k ≠ d' → curves s'' !! k = curves s' !! k) ∧
    (* a further duplicate of the source gets curve data of its own *)
    ∃ obj_cpy2 d2 s2,
      runs (Script.copy_obj obj collection_name) s' obj_cpy2 s2 ∧
      obj_cpy2 ≠ obj_cpy ∧ obj_cpy2 ≠ obj ∧
      d2 ≠ d' ∧ d2 ≠ data o ∧
      objects s2 !! obj_cpy2 = Some (Object d2 None) ∧
      objects s2 !! obj_cpy = Some (Object d' None) ∧
      curves s2 !! d2 = Some c ∧
      curves s2 !! d' = Some c.

(** The action the animation data of curve data [c] refers to, if any, is
    an action of the scene: the host keeps no reference to a data-block
    that is not there. *)
Definition action_known (s : scene) (c : curve) : Prop :=
  ∀ a, action_of c = Some a → is_Some (actions s !! a).

(** From [s] to [s'] no material was made or changed but those named
    after the objects [names], ["<name>_mat"]. *)
Definition paints_only (names : list string) (s s' : scene) : Prop :=
  ∀ m, (∀ ob, ob ∈ names → m ≠ ob +:+ "_mat") →
    materials s' !! m = materials s !! m.

(** *** Outcomes of the strategies *)

(** A run of strategy [st] from [s] to [s'] has made the objects [names],
    all new and pairwise distinct, as many as [n_instances], and linked
    them in order to the strategy's collection. *)
Definition duplicates (st : strategy) (s s' : scene) (n_instances : Z)
    (names : list string) : Prop :=
  Z.of_nat (length names) = n_instances ∧
  NoDup names ∧
  (∀ ob, ob ∈ names → objects s !! ob = None) ∧
  dom (objects s') = dom (objects s) ∪ list_to_set names ∧
  members s' (collection_of st) = members s (collection_of st) ++ names.

(** C1, as amended. *)
Definition thick_to_thin_outcome (s : scene) (curve : string)
    (n_instances n_frames : Z) (growth_delta : float) : Prop :=
  ∃ s' names,
    runs (Script.grow_from_thicker_to_thinner curve n_instances n_frames)
         s tt s' ∧
    duplicates ThickerToThinner s s' n_instances names ∧
    ∀ i ob, names !! i = Some ob →
      keys_of s' ob "bevel_factor_start"
        = Some [Keyframe (Int 0) f0_0 "CUBIC" "EASE_OUT"] ∧
      keys_of s' ob "bevel_factor_end"
        = Some (thick_end_keys n_frames (end_growth growth_delta i)).

(** C2, as amended. *)
Definition thin_to_thick_outcome (s : scene) (curve : string)
    (n_instances n_frames : Z) (delta_frame growth_delta : float) : Prop :=
  ∃ s' names,
    runs (Script.grow_from_thinner_to_thicker curve n_instances n_frames)
         s tt s' ∧
    duplicates ThinnerToThicker s s' n_instances names ∧
    frame_start delta_frame 0 = Int 0 ∧
    ∀ i ob, names !! i = Some ob →
      keys_of s' ob "bevel_factor_start"
        = Some [Keyframe (frame_start delta_frame i)
                         (start_growth growth_delta i) "LINEAR" "EASE_OUT"] ∧
      keys_of s' ob "bevel_factor_end"
        = Some (Script.shape_key "LINEAR" <$>
                  insert_key (frame_start delta_frame (S i))
                             (start_growth growth_delta (S i))
                    [Keyframe (frame_start delta_frame i)
                              (start_growth growth_delta i)
                              "BEZIER" "AUTO"]).

(** C3, as amended. *)
Definition thickness_outcome (st : strategy) (s : scene) (curve : string)
    (n_instances n_frames : Z) : Prop :=
  ∃ s' names,
    runs (grow st curve n_instances n_frames) s tt s' ∧
    duplicates st s s' n_instances names ∧
    ∀ i ob, names !! i = Some ob →
      keys_of s' ob "bevel_depth"
        = Some [Keyframe (Int 0) (thickness i) "BEZIER" "AUTO"] ∧
      (* the next instance is at least as thick *)
      leb (Float (thickness i)) (Float (thickness (S i))) = true.

(** C4, as amended. *)
Definition frames_outcome (st : strategy) (s : scene) (curve : string)
    (n_instances n_frames : Z) (plan : nat → instance_params) : Prop :=
  ∃ s' names,
    runs (grow st curve n_instances n_frames) s tt s' ∧
    duplicates st s s' n_instances names ∧
    ∀ i ob, names !! i = Some ob →
      let p := plan i in
      (* the growth animation of the instance: from its start frame to its
         end frame *)
      keys_of s' ob "bevel_factor_start"
        = Some [Keyframe (ip_frame_start p) (ip_growth_start p)
                         (option_of st) "EASE_OUT"] ∧
      keys_of s' ob "bevel_factor_end"
        = Some (Script.shape_key (option_of st) <$>
                  insert_key (ip_frame_end p) (ip_growth_end p)
                    [Keyframe (ip_frame_start p) (ip_growth_start p)
                              "BEZIER" "AUTO"]) ∧
      leb (Int 0) (ip_frame_start p) = true ∧
      leb (ip_frame_start p) (ip_frame_end p) = true ∧
      (* every key of the instance *)
      ∀ fcs fc kf,
        fcurves_of s' ob = Some fcs →
        fc ∈ fcs → kf ∈ keyframe_points fc →
        leb (Int 0) (co_frame kf) = true ∧
        (st = ThickerToThinner → is_int (co_frame kf) = true).

(** C10. *)
Definition paint_outcome (st : strategy) (s : scene) (curve : string)
    (c0 : Bpy.curve) (n_instances n_frames : Z) (palette : list color)
    : Prop :=
  ∃ s' names,
    runs (grow st curve n_instances n_frames) s tt s' ∧
    duplicates st s s' n_instances names ∧
    length palette = 5%nat ∧
    (* instance [i] has one more material than the source, of the colour
       at index [i mod 2] of the palette *)
    (∀ i ob, names !! i = Some ob →
       ∃ col,
         palette !! (i mod 2)%nat = Some col ∧
         materials_of s' ob = Some (cu_materials c0 ++ [ob +:+ "_mat"]) ∧
         material_color s' (ob +:+ "_mat") = Some (RGBA col f1_0)) ∧
    (* and no other material is made or changed *)
    paints_only names s s'.

(** *** Materials *)

(** The shader kinds of the material builder and their node types. *)
Definition shader_type (mat_type : string) : option string :=
  if String.eqb mat_type "diffuse" then Some "ShaderNodeBsdfDiffuse"
  else if String.eqb mat_type "emission" then Some "ShaderNodeEmission"
  else if String.eqb mat_type "glossy" then Some "ShaderNodeBsdfGlossy"
  else None.

Definition output_node : node :=
  Node "Material Output" "ShaderNodeOutputMaterial" ∅.

(** The graph [create_material] leaves: the output node, then the shader
    node with its inputs set, and the link between them. *)
Definition shader_graph (mat_type : string) (color : color)
    (emission_intensity glossy_roughness : num) : option node_tree :=
  if String.eqb mat_type "diffuse" then
    Some (NodeTree
            [output_node;
             Node "Diffuse BSDF" "ShaderNodeBsdfDiffuse"
                  {[0%nat := RGBA color f1_0]}]
            [Link "Diffuse BSDF" 0 "Material Output" 0])
  else if String.eqb mat_type "emission" then
    Some (NodeTree
            [output_node;
             Node "Emission" "ShaderNodeEmission"
                  (<[1%nat := Scalar emission_intensity]>
                     {[0%nat := RGBA color f1_0]})]
            [Link "Emission" 0 "Material Output" 0])
  else if String.eqb mat_type "glossy" then
    Some (NodeTree
            [output_node;
             Node "Glossy BSDF" "ShaderNodeBsdfGlossy"
                  (<[1%nat := Scalar glossy_roughness]>
                     {[0%nat := RGBA color f1_0]})]
            [Link "Glossy BSDF" 0 "Material Output" 0])
  else None.

(** The hues of the colours the palette generator returns on [s], for a
    seed hue [H] and an offset [O]. *)
Definition five_colors (s : scene) (H O : Z) : Prop :=
  ∃ cols s',
    runs Script.generate_5_random_colors_that_fit s cols s' ∧
    length cols = 5%nat ∧
    Script.palette_hues H O = [H; H - O; H + O; H - 2 * O; H + 2 * O] ∧
    color_hue <$> cols
      = (λ h, Some (hue_fraction h)) <$> Script.palette_hues H O.

(** A graph of exactly one shader node of the given type wired to exactly
    one output node. *)
Definition one_shader_one_output (type : string) (t : node_tree) : Prop :=
  ∃ out sh,
    nodes t = [out; sh] ∧
    bl_idname out = "ShaderNodeOutputMaterial" ∧
    bl_idname sh = type ∧
    type ≠ "ShaderNodeOutputMaterial" ∧
    links t = [Link (node_name sh) 0 (node_name out) 0].

(** Building material [mat_id] twice, first of kind [kind1] and then of
    kind [kind2] (of node type [type2]). *)
Definition built_twice (s : scene) (mat_id : string)
    (kind1 : string) (color1 : color) (ei1 gr1 : num)
    (kind2 : string) (color2 : color) (ei2 gr2 : num) (type2 : string)
    : Prop :=
  ∃ s1 s2 t,
    runs (Script.create_material mat_id kind1 color1 ei1 gr1) s mat_id s1 ∧
    runs (Script.create_material mat_id kind2 color2 ei2 gr2) s1 mat_id s2 ∧
    materials s2 !! mat_id = Some (Material true (Some t)) ∧
    one_shader_one_output type2 t ∧
    length (nodes t) = 2%nat ∧ length (links t) = 1%nat ∧
    ∀ m, m ≠ mat_id → materials s2 !! m = materials s !! m.

(** The part of [create_material] that follows the lookup of [mat_id]. *)
Definition rebuild (mat mat_type : string) (color : color)
    (emission_intensity glossy_roughness : num) : M string :=
  set_use_nodes mat ;;
  x <- get_material mat ;;
  match mat_node_tree x with
  | Some _ => links_clear mat ;; nodes_clear mat
  | None => ret tt
  end ;;
  output <- nodes_new mat "ShaderNodeOutputMaterial" ;;
  shader <-
    (if String.eqb mat_type "diffuse" then
       shader <- nodes_new mat "ShaderNodeBsdfDiffuse" ;;
       set_input_default mat "Diffuse BSDF" 0 (RGBA color f1_0) ;;
       ret (Some shader)
     else if String.eqb mat_type "emission" then
       shader <- nodes_new mat "ShaderNodeEmission" ;;
       set_input_default mat "Emission" 0 (RGBA color f1_0) ;;
       set_input_default mat "Emission" 1 (Scalar emission_intensity) ;;
       ret (Some shader)
     else if String.eqb mat_type "glossy" then
       shader <- nodes_new mat "ShaderNodeBsdfGlossy" ;;
       set_input_default mat "Glossy BSDF" 0 (RGBA color f1_0) ;;
       set_input_default mat "Glossy BSDF" 1 (Scalar glossy_roughness) ;;
       ret (Some shader)
     else ret None) ;;
  shader <- need UnboundLocalError shader ;;
  links_new mat shader 0 output 0 ;;
  ret mat.

(** *** Interpolation *)

(** A finite non-zero float in canonical form. *)
Definition valid_nonzero (f : float) : bool :=
  match f with
  | S754_finite _ m e => bounded prec emax m e
  | _ => false
  end.

(** *** Registration in collections *)

(** From [s] to [s'], object [ob] was linked to the named collection
    [coll], as its last member, and to nothing else. *)
Definition linked_to (s s' : scene) (coll ob : string) : Prop :=
  members s' coll = members s coll ++ [ob] ∧
  is_Some (collections s' !! coll) ∧
  (∀ k, k ≠ coll → collections s' !! k = collections s !! k) ∧
  scene_objects s' = scene_objects s.

(** The children of the scene collection once collection [name] was asked
    for: it is added, last, when it did not exist. *)
Definition children_with (s : scene) (name : string) : list string :=
  match collections s !! name with
  | Some _ => scene_children s
  | None => scene_children s ++ [name]
  end.

(** Where [copy_obj] registers the duplicate [ob]. *)
Definition registered (s s' : scene) (collection_name : option string)
    (ob : string) : Prop :=
  match collection_name with
  | Some name =>
      linked_to s s' name ob ∧ scene_children s' = children_with s name
  | None =>
      scene_children s' = scene_children s ∧
      match context_collection s with
      | Some coll => linked_to s s' coll ob
      | None =>
          scene_objects s' = scene_objects s ++ [ob] ∧
          collections s' = collections s
      end
  end.

(** *** Keys of a property keyed twice *)

(** The keys of a property keyed to [v1] on frame [f1] and then to [v2] on
    frame [f2]: in frame order, the second value replacing the first when
    the frames are equal. *)
Definition keyed_twice (f1 f2 : num) (v1 v2 : float) : list keyframe :=
  match compare f2 f1 with
  | Some Eq => [Keyframe f1 v2 "BEZIER" "AUTO"]
  | Some Lt => [Keyframe f2 v2 "BEZIER" "AUTO"; Keyframe f1 v1 "BEZIER" "AUTO"]
  | _ => [Keyframe f1 v1 "BEZIER" "AUTO"; Keyframe f2 v2 "BEZIER" "AUTO"]
  end.

(** The bevel settings of the curve data of [ob]: start and end fraction,
    and depth. *)
Definition bevel_of (s : scene) (ob : string)
    : option (float * float * float) :=
  o ← objects s !! ob;
  c ← curves s !! data o;
  Some (bevel_factor_start c, bevel_factor_end c, bevel_depth c).

(** *** Shader inputs *)

(** Input [i] of the (first) shader node of material [m], when it was
    given a value. *)
Definition shader_input (s : scene) (m : string) (i : nat)
    : option socket_value :=
  x ← materials s !! m;
  t ← mat_node_tree x;
  nd ← find (λ nd, negb (String.eqb (bl_idname nd)
                                     "ShaderNodeOutputMaterial")) (nodes t);
  inputs nd !! i.

(** The second input [create_material] sets, by shader kind: the strength
    of an emission shader, the roughness of a glossy one, none of a
    diffuse one. *)
Definition second_input (mat_type : string)
    (emission_intensity glossy_roughness : num) : option socket_value :=
  if String.eqb mat_type "emission" then Some (Scalar emission_intensity)
  else if String.eqb mat_type "glossy" then Some (Scalar glossy_roughness)
  else None.

(** The graph left when the shader kind is not one of the three: the
    output node alone. *)
Definition output_only : material :=
  Material true (Some (NodeTree [output_node] [])).

(** *** Saturation and value of the palette *)

(** The saturation and the value a colour was given through its [hsv]
    setter. *)
Definition color_sv (c : color) : option (float * float) :=
  match c with HSV _ s v => Some (s, v) | RGB _ _ _ => None end.

(** *** Random draws *)

(** A float in [[0, 1]], as [mathutils.noise.random()] returns them. *)
Definition unit_float (r : float) : bool :=
  good r && leb (Float r) (Int 1).

(** Every draw of the random source is in [[0, 1]]. *)
Definition unit_noise (s : scene) : Prop :=
  ∀ k, unit_float (noise s k) = true.

(** *** The whole script *)

(** An object of the scene whose curve data carries no animation data. *)
Definition unanimated (s : scene) (curve : string) : Prop :=
  ∃ o0 c0,
    objects s !! curve = Some o0 ∧
    curves s !! data o0 = Some c0 ∧
    cu_animation_data c0 = None.

(** From [s] to [s'] nothing that was there has changed but the members
    of the collections [touched]: data-blocks were added at most, and
    [drawn] random values were drawn. *)
Definition extends (touched : list string) (s s' : scene) (drawn : nat)
    : Prop :=
  (∀ k o, objects s !! k = Some o → objects s' !! k = Some o) ∧
  (∀ k c, curves s !! k = Some c → curves s' !! k = Some c) ∧
  (∀ k a, actions s !! k = Some a → actions s' !! k = Some a) ∧
  (∀ k, k ∉ touched → collections s' !! k = collections s !! k) ∧
  scene_objects s' = scene_objects s ∧
  noise s' = noise s ∧
  noise_pos s' = (drawn + noise_pos s)%nat.

(** From [s] to [s'] the objects [names], all new and pairwise distinct,
    were made and linked, in order, to the collection of strategy [st]. *)
Definition grown (st : strategy) (s s' : scene) (names : list string)
    : Prop :=
  NoDup names ∧
  (∀ ob, ob ∈ names → objects s !! ob = None) ∧
  dom (objects s') = dom (objects s) ∪ list_to_set names ∧
  members s' (collection_of st) = members s (collection_of st) ++ names.

(** *** Growth from an animated source

    The copy of curve data refers to the action of the original: when the
    source curve is animated, its duplicates key into its action. *)

(** What a turn of a growth loop makes of the F-curves of that action:
    the growth keys are inserted, every key there is is shaped, and the
    depth is keyed. *)
Definition shared_fcurves (option : string) (p : instance_params)
    (fcs : list fcurve) : list fcurve :=
  insert_fcurve_key "bevel_depth" (Int 0) (ip_thickness p)
    (Script.shape_fcurve option <$>
       insert_fcurve_key "bevel_factor_end" (ip_frame_end p) (ip_growth_end p)
         (insert_fcurve_key "bevel_factor_end" (ip_frame_start p)
            (ip_growth_start p)
            (insert_fcurve_key "bevel_factor_start" (ip_frame_start p)
               (ip_growth_start p) fcs))).

(** The F-curves of the action after [n] turns, from instance [i] on. *)
Fixpoint shared_fcurves_after (option : string) (plan : nat → instance_params)
    (i n : nat) (fcs : list fcurve) : list fcurve :=
  match n with
  | O => fcs
  | S n' =>
      shared_fcurves_after option plan (S i) n'
        (shared_fcurves option (plan i) fcs)
  end.

(** The scene after one turn on a source [curve] whose curve data [c0] is
    animated by action [a0], the F-curves of which are [fcs]. *)
Definition add_shared_instance (curve collection option : string)
    (o0 : object) (c0 : Bpy.curve) (a0 : string) (fcs : list fcurve)
    (p : instance_params) (s : scene) : scene :=
  let ob := fresh_string curve (objects s) in
  let d := fresh_string (data o0) (curves s) in
  with_materials <[ob +:+ "_mat" := diffuse_material (ip_color p)]>
    (with_actions <[a0 := Action (shared_fcurves option p fcs)]>
       (with_curves <[d := instance_curve c0 a0 (ob +:+ "_mat") p]>
          (with_objects <[ob := Object d None]>
             (link_into (Some collection) ob s)))).

Fixpoint add_shared_instances (curve collection option : string)
    (o0 : object) (c0 : Bpy.curve) (a0 : string) (fcs : list fcurve)
    (plan : nat → instance_params) (i n : nat) (s : scene) : scene :=
  match n with
  | O => s
  | S n' =>
      add_shared_instances curve collection option o0 c0 a0
        (shared_fcurves option (plan i) fcs) plan (S i) n'
        (add_shared_instance curve collection option o0 c0 a0 fcs (plan i) s)
  end.

(** A source whose curve data is animated by action [a0], of F-curves
    [fcs]. *)
Definition animated_source (s : scene) (curve : string) (o0 : object)
    (c0 : Bpy.curve) (a0 : string) (fcs : list fcurve) : Prop :=
  ready curve o0 c0 s ∧
  cu_animation_data c0 = Some (AnimData (Some a0)) ∧
  actions s !! a0 = Some (Action fcs).

(** Every key of the F-curves [fcs] other than the one of the depth has
    the interpolation [option] and eases out. *)
Definition all_shaped (option : string) (fcs : list fcurve) : Prop :=
  ∀ fc kf, fc ∈ fcs → data_path fc ≠ "bevel_depth" →
    kf ∈ keyframe_points fc →
    interpolation kf = option ∧ easing kf = "EASE_OUT".

End Spec.

(** ** Sample scenes *)

Module Samples.
Import Py Bpy.

(** A curve object as the script expects it: a spline, the bevel at its
    defaults, no material, no animation. *)
Definition plain_curve : curve :=
  Curve [[(f0_0, f0_0, f0_0); (f1_0, f0_0, f0_0)]] f0_0 f1_0 f0_0 [] None.

(** A random source: the values [0.5], [0.1], [0.3], [0.5], [0.1], ...
    for the first twelve draws, [0.5] from then on. *)
Definition draws (k : nat) : float :=
  nth k [f0_5; f0_1; f0_3; f0_5; f0_1; f0_3;
         f0_5; f0_1; f0_3; f0_5; f0_1; f0_3] f0_5.

(** A scene with one curve object, linked to the scene collection. *)
Definition one_curve : scene :=
  Scene {["Curve" := Object "CurveData" None]}
        {["CurveData" := plain_curve]}
        ∅ ∅ ∅ [] ["Curve"] None draws 0.

(** The same, the curve data having animation data without an action. *)
Definition no_action : scene :=
  Scene {["Curve" := Object "CurveData" None]}
        {["CurveData" :=
            Curve [] f0_0 f1_0 f0_0 [] (Some (AnimData None))]}
        ∅ ∅ ∅ [] ["Curve"] None draws 0.

(** The same, the curve data being animated by an action of two keys. *)
Definition two_keys : action :=
  Action [FCurve "bevel_depth"
            [Keyframe (Int 1) f0_1 "BEZIER" "AUTO";
             Keyframe (Int 50) f0_3 "LINEAR" "AUTO"]].

Definition animated : scene :=
  Scene {["Curve" := Object "CurveData" None]}
        {["CurveData" :=
            Curve [] f0_0 f1_0 f0_0 []
                  (Some (AnimData (Some "CurveDataAction")))]}
        {["CurveDataAction" := two_keys]}
        ∅ ∅ [] ["Curve"] None draws 0.

(** The same, the object itself being animated too, by an action of its
    own. *)
Definition keyed_curve : curve :=
  Curve [[(f0_0, f0_0, f0_0); (f1_0, f0_0, f0_0)]] f0_0 f1_0 f0_0 []
        (Some (AnimData (Some "CurveDataAction"))).

Definition animated_object : scene :=
  Scene {["Curve" :=
            Object "CurveData" (Some (AnimData (Some "CurveAction")))]}
        {["CurveData" := keyed_curve]}
        (<["CurveAction" :=
             Action [FCurve "location"
                       [Keyframe (Int 1) f0_0 "BEZIER" "AUTO"]]]>
           {["CurveDataAction" := two_keys]})
        ∅ ∅ [] ["Curve"] None draws 0.

(** [0.25] and [0.875] *)
Definition f0_25 : float := S754_finite false 4503599627370496 (-54).
Definition f0_875 : float := S754_finite false 7881299347898368 (-53).

(** A random source whose first two draws, [0.25] and [0.875], give the
    seed hue [90] and the offset [157]: the hues of the palette are [90],
    [-67], [247], [-224] and [404]. *)
Definition wide_draws (k : nat) : float :=
  nth k [f0_25; f0_875] f0_5.

Definition wide_palette : scene :=
  Scene {["Curve" := Object "CurveData" None]}
        {["CurveData" := plain_curve]}
        ∅ ∅ ∅ [] ["Curve"] None wide_draws 0.

(** A scene as [main] expects it: the curve object is linked to the two
    start collections. *)
Definition studio : scene :=
  Scene {["Curve" := Object "CurveData" None]}
        {["CurveData" := plain_curve]}
        ∅ ∅
        (<["start_thicker_to_thinner_collection" := ["Curve"]]>
           {["start_thinner_to_thicker_collection" := ["Curve"]]})
        ["start_thicker_to_thinner_collection";
         "start_thinner_to_thicker_collection"]
        [] None draws 0.

(** The same without the second start collection. *)
Definition half_studio : scene :=
  Scene {["Curve" := Object "CurveData" None]}
        {["CurveData" := plain_curve]}
        ∅ ∅
        {["start_thicker_to_thinner_collection" := ["Curve"]]}
        ["start_thicker_to_thinner_collection"]
        [] None draws 0.

End Samples.

(** ** Running computations *)

Module Run.
Import Py Bpy Spec.
Local Open Scope py_scope.

Lemma runs_ret {A} (a : A) s : runs (ret a) s a s.
Proof. reflexivity. Qed.

Lemma runs_bind {A B} (c : M A) (k : A → M B) s a s1 b s2 :
  runs c s a s1 → runs (k a) s1 b s2 → runs (bind c k) s b s2.
Proof. unfold runs, bind. intros -> ->. reflexivity. Qed.

Lemma fails_bind_now {A B} (c : M A) (k : A → M B) s e s1 :
  fails c s e s1 → fails (bind c k) s e s1.
Proof. unfold fails, bind. intros ->. reflexivity. Qed.

Lemma fails_bind_later {A B} (c : M A) (k : A → M B) s a s1 e s2 :
  runs c s a s1 → fails (k a) s1 e s2 → fails (bind c k) s e s2.
Proof. unfold runs, fails, bind. intros -> ->. reflexivity. Qed.

Lemma runs_get s : runs get s s s.
Proof. reflexivity. Qed.

Lemma runs_modify f s : runs (modify f) s tt (f s).
Proof. reflexivity. Qed.

Lemma runs_lift {A} (r : result A) a s : r = Ok a → runs (lift r) s a s.
Proof. intros ->. reflexivity. Qed.

Lemma runs_need {A} e (o : option A) a s : o = Some a → runs (need e o) s a s.
Proof. intros ->. reflexivity. Qed.

Lemma fails_need {A} e s : fails (need (A:=A) e None) s e s.
Proof. reflexivity. Qed.

(** A run has one outcome. *)
Lemma runs_inj {A} (c : M A) s a1 s1 a2 s2 :
  runs c s a1 s1 → runs c s a2 s2 → a1 = a2 ∧ s1 = s2.
Proof. unfold runs. intros H1 H2. rewrite H1 in H2. by simplify_eq. Qed.

Lemma runs_eq {A} (c : M A) s a s1 s2 :
  runs c s a s1 → s1 = s2 → runs c s a s2.
Proof. by intros ? <-. Qed.

Lemma runs_get_object s ob o :
  objects s !! ob = Some o → runs (get_object ob) s o s.
Proof. intros H. unfold get_object. eapply runs_bind; [apply runs_get|].
  by apply runs_need. Qed.

Lemma runs_get_curve s cu c :
  curves s !! cu = Some c → runs (get_curve cu) s c s.
Proof. intros H. unfold get_curve. eapply runs_bind; [apply runs_get|].
  by apply runs_need. Qed.

Lemma runs_get_action s a x :
  actions s !! a = Some x → runs (get_action a) s x s.
Proof. intros H. unfold get_action. eapply runs_bind; [apply runs_get|].
  by apply runs_need. Qed.

Lemma runs_get_material s m x :
  materials s !! m = Some x → runs (get_material m) s x s.
Proof. intros H. unfold get_material. eapply runs_bind; [apply runs_get|].
  by apply runs_need. Qed.

Lemma runs_data_of s ob o :
  objects s !! ob = Some o → runs (Script.data_of ob) s (data o) s.
Proof. intros H. unfold Script.data_of.
  eapply runs_bind; [by apply runs_get_object|]. apply runs_ret. Qed.

End Run.

(** ** Binary64 arithmetic *)

Module Binary64.
Import Py Spec.

(** ** Rounding never goes below a representable lower bound *)

Lemma digits2_pos_size p : digits2_pos p = Pos.size p.
Proof. induction p; simpl; congruence. Qed.

Lemma digits_pos m : 0 < m → 2 ^ (Zdigits2 m - 1) ≤ m < 2 ^ Zdigits2 m.
Proof.
  destruct m as [|p|p]; [lia| |lia]. intros _. simpl Zdigits2.
  rewrite digits2_pos_size.
  pose proof (Pos.size_gt p) as Hgt. pose proof (Pos.size_le p) as Hle.
  split.
  - assert (H : 2 ^ Zpos (Pos.size p) ≤ 2 * Zpos p).
    { rewrite <- Pos2Z.inj_pow. change (2 * Zpos p) with (Zpos p~0). lia. }
    replace (Zpos (Pos.size p)) with (1 + (Zpos (Pos.size p) - 1)) in H by lia.
    rewrite Z.pow_add_r in H by lia. lia.
  - rewrite <- Pos2Z.inj_pow. lia.
Qed.

Lemma digits_nonneg m : 0 ≤ Zdigits2 m.
Proof. destruct m; simpl; lia. Qed.

Lemma digits_lt m : 0 ≤ m → m < 2 ^ Zdigits2 m.
Proof.
  intros Hm. destruct (decide (m = 0)) as [->|]; [done|].
  apply digits_pos. lia.
Qed.

(** [m < 2^k] bounds the number of digits by [k], [2^k ≤ m] makes it
    exceed [k]. *)
Lemma digits_le m k : 0 ≤ m → 0 ≤ k → m < 2 ^ k → Zdigits2 m ≤ k.
Proof.
  intros Hm Hk Hlt. destruct (decide (m = 0)) as [->|Hne]; [done|].
  destruct (digits_pos m ltac:(lia)) as [Hlo _].
  destruct (Z_le_gt_dec (Zdigits2 m) k) as [|Hgt]; [done|].
  assert (2 ^ k ≤ 2 ^ (Zdigits2 m - 1)) by (apply Z.pow_le_mono_r; lia). lia.
Qed.

Lemma digits_gt m k : 0 ≤ k → 2 ^ k ≤ m → k < Zdigits2 m.
Proof.
  intros Hk Hle.
  assert (0 < m) by (pose proof (Z.pow_pos_nonneg 2 k); lia).
  destruct (digits_pos m ltac:(lia)) as [_ Hhi].
  destruct (Z_lt_le_dec k (Zdigits2 m)) as [|Hge]; [done|].
  assert (2 ^ Zdigits2 m ≤ 2 ^ k)
    by (apply Z.pow_le_mono_r; [lia|done]). lia.
Qed.

(** *** Shifting right *)

Lemma shr_1_m r : 0 ≤ shr_m r → shr_m (shr_1 r) = shr_m r / 2.
Proof.
  destruct r as [m b s]. cbn [shr_m]. intros Hm.
  rewrite <- Z.div2_div. by destruct m as [|[p|p|]|p].
Qed.

Lemma iter_shr_1_m n r :
  0 ≤ shr_m r →
  shr_m (SpecFloat.iter_pos shr_1 n r) = shr_m r / 2 ^ Zpos n.
Proof.
  revert r. induction n as [n IH|n IH|]; intros r Hr; simpl SpecFloat.iter_pos.
  - assert (H1 : 0 ≤ shr_m (shr_1 r)).
    { rewrite shr_1_m by done. by apply Z.div_pos. }
    assert (H2 : 0 ≤ shr_m (SpecFloat.iter_pos shr_1 n (shr_1 r))).
    { rewrite IH by done. apply Z.div_pos; [done|]. by apply Z.pow_pos_nonneg. }
    rewrite IH, IH, shr_1_m by done.
    rewrite !Z.div_div by (try apply Z.pow_pos_nonneg; lia).
    f_equal. rewrite Pos2Z.inj_xI.
    rewrite <- Z.pow_add_r, <- Z.pow_succ_r by lia. f_equal. lia.
  - assert (H2 : 0 ≤ shr_m (SpecFloat.iter_pos shr_1 n r)).
    { rewrite IH by done. apply Z.div_pos; [done|]. by apply Z.pow_pos_nonneg. }
    rewrite IH, IH by done.
    rewrite !Z.div_div by (try apply Z.pow_pos_nonneg; lia).
    f_equal. rewrite Pos2Z.inj_xO.
    rewrite <- Z.pow_add_r by lia. f_equal. lia.
  - rewrite shr_1_m by done. done.
Qed.

(** The mantissa and exponent [shr] leaves. *)
Lemma shr_m_e r e n :
  0 ≤ shr_m r →
  shr_m (shr r e n).1 = shr_m r / 2 ^ Z.max n 0 ∧
  (shr r e n).2 = e + Z.max n 0.
Proof.
  intros Hr. destruct n as [|n|n]; simpl.
  - rewrite Z.div_1_r. split; [done|lia].
  - split; [by apply iter_shr_1_m|lia].
  - rewrite Z.div_1_r. split; [done|lia].
Qed.

Lemma shr_record_of_loc_m m l : shr_m (shr_record_of_loc m l) = m.
Proof. by destruct l as [|[]]. Qed.

Lemma round_nearest_even_bounds m l :
  m ≤ round_nearest_even m l ≤ m + 1.
Proof.
  destruct l as [|[]]; simpl; try lia. destruct (Z.even m); lia.
Qed.


(** *** The exponent function of binary64 *)

Lemma fexp_eq e : fexp prec emax e = Z.max (e - 53) (-1074).
Proof. reflexivity. Qed.

(** *** What [binary_round_aux] returns

    On a non-negative mantissa whose exponent is not above its target
    exponent [g]: it never returns a NaN nor a negative value; a finite
    result is a valid binary64 float, not below the mantissa truncated to
    [g]. *)
Lemma binary_round_aux_spec m e l :
  0 ≤ m →
  e ≤ fexp prec emax (Zdigits2 m + e) →
  let g := fexp prec emax (Zdigits2 m + e) in
  match binary_round_aux prec emax false m e l with
  | S754_zero s => s = false ∧ m / 2 ^ (g - e) = 0
  | S754_infinity s => s = false
  | S754_nan => False
  | S754_finite s m' e' =>
      s = false ∧ bounded prec emax m' e' = true ∧ g ≤ e' ∧
      m / 2 ^ (g - e) ≤ Zpos m' * 2 ^ (e' - g)
  end.
Proof.
  intros Hm Hn g. unfold binary_round_aux, shr_fexp. fold g.
  set (n := g - e). assert (Hn0 : 0 ≤ n) by (unfold n; lia).
  set (lo := m / 2 ^ n).
  assert (H2n : 0 < 2 ^ n) by (by apply Z.pow_pos_nonneg).
  assert (Hlo0 : 0 ≤ lo) by (by apply Z.div_pos).
  (* the first shift *)
  destruct (shr_m_e (shr_record_of_loc m l) e n) as [Hm1 He1];
    [by rewrite shr_record_of_loc_m|].
  rewrite shr_record_of_loc_m, Z.max_l in Hm1 by done.
  rewrite Z.max_l in He1 by done.
  destruct (shr (shr_record_of_loc m l) e n) as [r1 e1]. simpl in Hm1, He1.
  fold lo in Hm1. rewrite He1. replace (e + n) with g by (unfold n; lia).
  clear He1 e1.
  (* the mantissa is below 2^53 after it *)
  assert (Hd : Zdigits2 m + e - 53 ≤ g ∧ -1074 ≤ g).
  { unfold g. rewrite fexp_eq. lia. }
  assert (Hlohi : lo < 2 ^ 53).
  { apply Z.div_lt_upper_bound; [done|].
    rewrite <- Z.pow_add_r by lia.
    eapply Z.lt_le_trans; [by apply digits_lt|].
    apply Z.pow_le_mono_r; [lia|]. unfold n. lia. }
  (* and, above the subnormal range, not below 2^52 *)
  assert (Hlolo : -1074 < g → 2 ^ 52 ≤ lo).
  { intros Hg.
    assert (Hg' : g = Zdigits2 m + e - 53) by (unfold g in *; rewrite fexp_eq in *; lia).
    assert (Hmpos : 0 < m).
    { destruct (decide (m = 0)) as [->|]; [|lia]. simpl in Hg'. lia. }
    apply Z.div_le_lower_bound; [done|].
    rewrite <- Z.pow_add_r by lia.
    eapply Z.le_trans; [|apply (digits_pos m Hmpos)].
    apply Z.pow_le_mono_r; [lia|]. unfold n. lia. }
  (* rounding *)
  pose proof (round_nearest_even_bounds (shr_m r1) (loc_of_shr_record r1))
    as Hrne.
  set (m2 := round_nearest_even (shr_m r1) (loc_of_shr_record r1)) in *.
  rewrite Hm1 in Hrne.
  (* the second shift *)
  destruct (Z_lt_le_dec m2 (2 ^ 53)) as [Hsmall|Hcarry].
  - assert (Hd2 : Zdigits2 m2 ≤ 53) by (apply digits_le; lia).
    assert (Hn2 : fexp prec emax (Zdigits2 m2 + g) - g ≤ 0)
      by (rewrite fexp_eq; lia).
    destruct (shr_m_e (shr_record_of_loc m2 loc_Exact) g
                (fexp prec emax (Zdigits2 m2 + g) - g)) as [Hm3 He3];
      [simpl; lia|].
    rewrite Z.max_r in Hm3, He3 by done.
    destruct (shr (shr_record_of_loc m2 loc_Exact) g
                (fexp prec emax (Zdigits2 m2 + g) - g)) as [r3 e3].
    simpl in Hm3, He3. rewrite Z.div_1_r in Hm3.
    rewrite Hm3. rewrite Z.add_0_r in He3. subst e3.
    destruct m2 as [|m'|m'] eqn:Hm2; [| |lia].
    + split; [done|]. fold lo. lia.
    + destruct (Z.leb_spec g (emax - prec)) as [Hle|Hgt]; [|done].
      split_and!; [done| |lia|].
      * unfold bounded, canonical_mantissa.
        apply andb_true_iff. split; [|by apply Z.leb_le].
        apply Z.eqb_eq. change (Zpos (digits2_pos m')) with (Zdigits2 (Zpos m')).
        rewrite fexp_eq.
        destruct (Z_le_gt_dec g (-1074)) as [Hsub|Hnor].
        -- rewrite <- Hm2 in *. lia.
        -- assert (52 < Zdigits2 (Zpos m')).
           { apply digits_gt; [lia|]. specialize (Hlolo ltac:(lia)). lia. }
           rewrite <- Hm2 in *. lia.
      * fold lo. rewrite Z.sub_diag, Z.mul_1_r. lia.
  - assert (Hm2 : m2 = 2 ^ 53) by lia.
    assert (Hd2 : Zdigits2 m2 = 54).
    { apply Z.le_antisymm.
      - apply digits_le; [lia|lia|]. rewrite Hm2. done.
      - assert (53 < Zdigits2 m2) by (apply digits_gt; lia). lia. }
    assert (Hn2 : fexp prec emax (Zdigits2 m2 + g) - g = 1)
      by (rewrite fexp_eq; lia).
    rewrite Hn2.
    destruct (shr_m_e (shr_record_of_loc m2 loc_Exact) g 1) as [Hm3 He3];
      [simpl; lia|].
    destruct (shr (shr_record_of_loc m2 loc_Exact) g 1) as [r3 e3].
    change (Z.max 1 0) with 1 in Hm3, He3.
    simpl in Hm3, He3. rewrite Hm3, Hm2.
    change (2 ^ 53 / 2 ^ 1) with (Zpos (2 ^ 52)). subst e3.
    destruct (Z.leb_spec (g + 1) (emax - prec)) as [Hle|Hgt]; [|done].
    split_and!; [done| |lia|].
    + unfold bounded, canonical_mantissa.
      apply andb_true_iff. split; [|by apply Z.leb_le].
      apply Z.eqb_eq. rewrite fexp_eq.
      change (Zpos (digits2_pos (2 ^ 52))) with 53. lia.
    + fold lo. replace (g + 1 - g) with 1 by lia.
      change (Zpos (2 ^ 52) * 2 ^ 1) with (2 ^ 53). lia.
Qed.


(** Above the subnormal range the truncated mantissa has 53 digits. *)
Lemma truncated_normal m e :
  0 < m →
  let g := fexp prec emax (Zdigits2 m + e) in
  e ≤ g → -1074 < g → 2 ^ 52 ≤ m / 2 ^ (g - e).
Proof.
  intros Hm g He Hg.
  assert (Hg' : g = Zdigits2 m + e - 53)
    by (unfold g in *; rewrite fexp_eq in *; lia).
  apply Z.div_le_lower_bound; [apply Z.pow_pos_nonneg; lia|].
  rewrite <- Z.pow_add_r by lia.
  eapply Z.le_trans; [|apply (digits_pos m Hm)].
  apply Z.pow_le_mono_r; lia.
Qed.

(** *** Aligning mantissas *)

Lemma iter_xO m d : Zpos (Pos.iter xO m d) = Zpos m * 2 ^ Zpos d.
Proof.
  induction d as [|d IH] using Pos.peano_ind.
  - simpl. lia.
  - rewrite Pos.iter_succ, Pos2Z.inj_xO, IH, Pos2Z.inj_succ, Z.pow_succ_r
      by lia. lia.
Qed.

(** [shl_align] lowers the exponent to [e'] when it is above it, keeping
    the value. *)
Lemma shl_align_spec m e e' :
  let r := shl_align m e e' in
  r.2 = Z.min e e' ∧ Zpos r.1 = Zpos m * 2 ^ (e - Z.min e e').
Proof.
  unfold shl_align. destruct (e' - e) as [|d|d] eqn:Hd; simpl.
  - replace (Z.min e e') with e by lia. rewrite Z.sub_diag. lia.
  - replace (Z.min e e') with e by lia. rewrite Z.sub_diag. lia.
  - replace (Z.min e e') with e' by lia.
    replace (e - e') with (Zpos d) by lia. split; [done|apply iter_xO].
Qed.

Lemma digits_mul_pow2 m k :
  0 < m → 0 ≤ k → Zdigits2 (m * 2 ^ k) = Zdigits2 m + k.
Proof.
  intros Hm Hk.
  assert (H2k : 0 < 2 ^ k) by (by apply Z.pow_pos_nonneg).
  destruct (digits_pos m Hm) as [Hlo Hhi].
  pose proof (digits_nonneg m) as Hd.
  assert (Hd1 : 1 ≤ Zdigits2 m).
  { destruct (Z_le_gt_dec 1 (Zdigits2 m)); [done|].
    assert (Zdigits2 m = 0) by lia. rewrite H in Hhi. simpl in Hhi. lia. }
  apply Z.le_antisymm.
  - apply digits_le; [nia|lia|]. rewrite Z.pow_add_r by lia. nia.
  - assert (Zdigits2 m + k - 1 < Zdigits2 (m * 2 ^ k)); [|lia].
    apply digits_gt; [lia|].
    replace (Zdigits2 m + k - 1) with (Zdigits2 m - 1 + k) by lia.
    rewrite Z.pow_add_r by lia. nia.
Qed.

(** *** Comparing values on a common scale *)

Lemma pow2_split x c c0 :
  c0 ≤ c → c ≤ x → 2 ^ (x - c0) = 2 ^ (x - c) * 2 ^ (c - c0).
Proof.
  intros H1 H2. rewrite <- Z.pow_add_r by lia. f_equal. lia.
Qed.

(** An inequality between [a * 2^x] and [b * 2^y], written at scale [c],
    is the same written at a lower scale [c0]. *)
Lemma scale_le a b x y c c0 :
  c0 ≤ c → c ≤ x → c ≤ y →
  a * 2 ^ (x - c) ≤ b * 2 ^ (y - c) ↔ a * 2 ^ (x - c0) ≤ b * 2 ^ (y - c0).
Proof.
  intros H0 Hx Hy.
  rewrite (pow2_split x c c0), (pow2_split y c c0) by done.
  rewrite !Z.mul_assoc.
  assert (0 < 2 ^ (c - c0)) by (apply Z.pow_pos_nonneg; lia).
  split; intros H'; nia.
Qed.

Lemma scale_lt a b x y c c0 :
  c0 ≤ c → c ≤ x → c ≤ y →
  a * 2 ^ (x - c) < b * 2 ^ (y - c) ↔ a * 2 ^ (x - c0) < b * 2 ^ (y - c0).
Proof.
  intros H0 Hx Hy.
  rewrite (pow2_split x c c0), (pow2_split y c c0) by done.
  rewrite !Z.mul_assoc.
  assert (0 < 2 ^ (c - c0)) by (apply Z.pow_pos_nonneg; lia).
  split; intros H'; nia.
Qed.

(** *** Rounding a positive value

    [binary_round] of [p * 2^e] is never a NaN, a zero or negative when a
    valid float [mx * 2^ex] is not above it; a finite result is a valid
    float not below [mx * 2^ex]. *)
Lemma binary_round_ge p e mx ex :
  canonical_mantissa prec emax mx ex = true →
  Zpos mx * 2 ^ (ex - Z.min ex e) ≤ Zpos p * 2 ^ (e - Z.min ex e) →
  match binary_round prec emax false p e with
  | S754_infinity s => s = false
  | S754_finite s m' e' =>
      s = false ∧ bounded prec emax m' e' = true ∧
      Zpos mx * 2 ^ (ex - Z.min ex e') ≤ Zpos m' * 2 ^ (e' - Z.min ex e')
  | _ => False
  end.
Proof.
  intros Hcan Hle. unfold binary_round.
  set (g := fexp prec emax (Zpos (digits2_pos p) + e)).
  destruct (shl_align_spec p e g) as [Hez Hmz].
  destruct (shl_align p e g) as [mz ez]. simpl in Hez, Hmz.
  assert (Hdig : Zdigits2 (Zpos mz) + ez = Zpos (digits2_pos p) + e).
  { rewrite Hmz, digits_mul_pow2 by lia. simpl Zdigits2. lia. }
  assert (Hg : fexp prec emax (Zdigits2 (Zpos mz) + ez) = g)
    by (by rewrite Hdig).
  pose proof (binary_round_aux_spec (Zpos mz) ez loc_Exact ltac:(lia)) as Haux.
  rewrite Hg in Haux. specialize (Haux ltac:(lia)). cbv zeta in Haux.
  pose proof (truncated_normal (Zpos mz) ez ltac:(lia)) as Hnorm.
  cbv zeta in Hnorm. rewrite Hg in Hnorm. specialize (Hnorm ltac:(lia)).
  set (lo := Zpos mz / 2 ^ (g - ez)) in *.
  assert (Hgez : 0 < 2 ^ (g - ez)) by (apply Z.pow_pos_nonneg; lia).
  assert (Hlomz : lo * 2 ^ (g - ez) ≤ Zpos mz).
  { unfold lo. rewrite Z.mul_comm. apply Z.mul_div_le. done. }
  (* the valid float [mx * 2^ex] *)
  unfold canonical_mantissa in Hcan. apply Z.eqb_eq in Hcan.
  rewrite fexp_eq in Hcan.
  change (Zpos (digits2_pos mx)) with (Zdigits2 (Zpos mx)) in Hcan.
  destruct (digits_pos (Zpos mx) ltac:(lia)) as [_ Hmxhi].
  assert (Hmx53 : Zpos mx < 2 ^ 53).
  { eapply Z.lt_le_trans; [exact Hmxhi|]. apply Z.pow_le_mono_r; lia. }
  (* it is not above the truncated mantissa, at the scale of [g] *)
  assert (Hlow : (g ≤ ex → Zpos mx * 2 ^ (ex - g) ≤ lo) ∧
                 (ex < g → 2 ^ 52 ≤ lo)).
  { split.
    - intros Hge. apply Z.div_le_lower_bound; [done|].
      rewrite Z.mul_comm, <- Z.mul_assoc, <- (pow2_split ex g ez) by lia.
      rewrite Hmz.
      apply (scale_le _ _ ex e (Z.min ex e) ez) in Hle; [|lia..].
      replace (Z.min e g) with ez by lia. exact Hle.
    - intros Hlt. apply Hnorm. lia. }
  destruct Hlow as [HlowA HlowB].
  destruct (binary_round_aux prec emax false (Zpos mz) ez loc_Exact)
    as [s|s| |s m' e'].
  - destruct Haux as [_ Hlo0].
    destruct (Z_le_gt_dec g ex) as [Hge|Hlt].
    + specialize (HlowA Hge).
      assert (0 < Zpos mx * 2 ^ (ex - g)); [|lia].
      apply Z.mul_pos_pos; [lia|]. apply Z.pow_pos_nonneg; lia.
    + specialize (HlowB ltac:(lia)). lia.
  - done.
  - done.
  - destruct Haux as (-> & Hb & Hge' & Hlo). split_and!; [done..|].
    assert (Hpos : 0 < 2 ^ (e' - g)) by (apply Z.pow_pos_nonneg; lia).
    destruct (Z_le_gt_dec g ex) as [Hge|Hlt].
    + specialize (HlowA Hge).
      apply (scale_le _ _ ex e' (Z.min ex e') g); [lia..|].
      lia.
    + specialize (HlowB ltac:(lia)).
      replace (Z.min ex e') with ex by lia. rewrite Z.sub_diag, Z.mul_1_r.
      rewrite (pow2_split e' g ex), Z.mul_assoc by lia.
      assert (2 ≤ 2 ^ (g - ex)).
      { change 2 with (2 ^ 1) at 1. apply Z.pow_le_mono_r; lia. }
      nia.
Qed.


(** *** Non-negative valid floats *)

Lemma fcompare_finite m1 e1 m2 e2 :
  fcompare (S754_finite false m1 e1) (S754_finite false m2 e2)
  = Some (Zpos m1 * 2 ^ (e1 - Z.min e1 e2) ?= Zpos m2 * 2 ^ (e2 - Z.min e1 e2)).
Proof.
  unfold fcompare, scaled, exponent, cond_Zopp.
  rewrite !Z.shiftl_mul_pow2 by lia. done.
Qed.

Lemma fcompare_zero_finite s m e :
  fcompare (S754_zero s) (S754_finite false m e) = Some Lt.
Proof.
  unfold fcompare, scaled, exponent, cond_Zopp. f_equal.
  apply Z.compare_lt_iff. rewrite Z.shiftl_mul_pow2 by lia.
  apply Z.mul_pos_pos; [lia|]. apply Z.pow_pos_nonneg; lia.
Qed.

Lemma fcompare_refl f : is_nan f = false → fcompare f f = Some Eq.
Proof.
  destruct f as [s|[]| |s m e]; try done; intros _.
  unfold fcompare. f_equal. apply Z.compare_refl.
Qed.

(** Adding a non-negative float to a non-negative float does not go
    below it. *)
Lemma fadd_ge x d :
  good x = true → good d = true →
  good (fadd x d) = true ∧ leb (Float x) (Float (fadd x d)) = true.
Proof.
  unfold leb, compare, as_float, fadd.
  destruct x as [sx|sx| |sx mx ex]; destruct d as [sd|sd| |sd md ed];
    simpl good; intros Hx Hd; try discriminate;
    repeat match goal with
           | H : negb ?s = true |- _ =>
               apply negb_true_iff in H; subst s
           | H : negb ?s && _ = true |- _ =>
               apply andb_true_iff in H as [? H]
           end.
  all: try (split; [by destruct sx, sd | by destruct sx, sd]).
  all: try (split; [done|]; simpl SFadd;
            first [by rewrite fcompare_zero_finite
                  | by rewrite fcompare_refl | done ]).
  all: try done.
  (* two positive finite floats *)
  unfold bounded in Hx. apply andb_true_iff in Hx as [Hcan _].
  unfold SFadd, cond_Zopp.
  destruct (shl_align_spec mx ex (Z.min ex ed)) as [_ Ha].
  set (a := (shl_align mx ex (Z.min ex ed)).1) in *.
  set (b := (shl_align md ed (Z.min ex ed)).1) in *.
  change (Zpos a + Zpos b) with (Zpos (a + b)).
  unfold binary_normalize.
  pose proof (binary_round_ge (a + b) (Z.min ex ed) mx ex Hcan) as Hr.
  replace (Z.min ex (Z.min ex ed)) with (Z.min ex ed) in Ha, Hr by lia.
  rewrite Z.sub_diag, Z.mul_1_r in Hr.
  specialize (Hr ltac:(rewrite Pos2Z.inj_add; lia)).
  destruct (binary_round prec emax false (a + b) (Z.min ex ed))
    as [s|s| |s m' e']; [done| |done|].
  - by subst s.
  - destruct Hr as (-> & Hb' & Hle). split; [done|].
    rewrite fcompare_finite.
    by destruct (Z.compare_spec (Zpos mx * 2 ^ (ex - Z.min ex e'))
                                (Zpos m' * 2 ^ (e' - Z.min ex e'))); [..|lia].
Qed.

(** *** True division of non-negative integers *)

Lemma div_core_spec m1 m2 :
  let '(q, e', l) := SFdiv_core_binary prec emax (Zpos m1) 0 (Zpos m2) 0 in
  0 ≤ q ∧ e' ≤ fexp prec emax (Zdigits2 q + e').
Proof.
  unfold SFdiv_core_binary.
  set (d1 := Zdigits2 (Zpos m1)). set (d2 := Zdigits2 (Zpos m2)).
  set (e' := Z.min (fexp prec emax (d1 + 0 - (d2 + 0))) (0 - 0)).
  set (s := 0 - 0 - e').
  assert (Hs : 0 ≤ s) by (unfold s, e'; lia).
  set (m' := match s with
             | 0 => Zpos m1
             | Zpos _ => Z.shiftl (Zpos m1) s
             | Zneg _ => 0
             end).
  assert (Hm' : m' = Zpos m1 * 2 ^ s).
  { unfold m'. destruct s as [|p|p] eqn:Hsp.
    - simpl. lia.
    - by rewrite Z.shiftl_mul_pow2.
    - lia. }
  assert (Hq : (Z.div_eucl m' (Zpos m2)).1 = m' / Zpos m2) by done.
  destruct (Z.div_eucl m' (Zpos m2)) as [q r]. simpl in Hq. subst q.
  assert (H2s : 0 < 2 ^ s) by (by apply Z.pow_pos_nonneg).
  split.
  - apply Z.div_pos; [|lia]. rewrite Hm'. nia.
  - rewrite fexp_eq.
    destruct (Z_le_gt_dec e' (-1074)) as [Hsub|Hnor]; [lia|].
    assert (He' : e' ≤ d1 - d2 - 53).
    { unfold e' in *. rewrite fexp_eq in *. lia. }
    assert (52 < Zdigits2 (m' / Zpos m2)); [|lia].
    apply digits_gt; [lia|].
    apply Z.div_le_lower_bound; [lia|].
    destruct (digits_pos (Zpos m1) ltac:(lia)) as [Hlo1 _].
    destruct (digits_pos (Zpos m2) ltac:(lia)) as [_ Hhi2].
    fold d1 in Hlo1. fold d2 in Hhi2.
    pose proof (digits_nonneg (Zpos m2)) as Hd2. fold d2 in Hd2.
    assert (Hd1 : 1 ≤ d1).
    { unfold d1. simpl. lia. }
    rewrite Hm'.
    assert (Hstep : 2 ^ 52 * 2 ^ d2 ≤ 2 ^ (d1 - 1) * 2 ^ s).
    { rewrite <- !Z.pow_add_r by lia. apply Z.pow_le_mono_r; [lia|].
      unfold s. lia. }
    assert (0 < 2 ^ 52) by done.
    nia.
Qed.

Lemma int_truediv_good a b q :
  0 ≤ a → 1 ≤ b → int_truediv a b = Ok q → good q = true.
Proof.
  intros Ha Hb. unfold int_truediv.
  destruct b as [|pb|pb]; [lia| |lia].
  destruct a as [|pa|pa]; [by intros [= <-]| |lia].
  change (Zpos pa <? 0) with false. change (Zpos pb <? 0) with false.
  simpl Z.abs. simpl Z.to_pos.
  unfold fdiv, SFdiv.
  pose proof (div_core_spec pa pb) as Hcore.
  destruct (SFdiv_core_binary prec emax (Zpos pa) 0 (Zpos pb) 0)
    as [[mz ez] lz].
  destruct Hcore as [Hq He].
  pose proof (binary_round_aux_spec mz ez lz Hq He) as Haux.
  cbv zeta in Haux. simpl xorb.
  destruct (binary_round_aux prec emax false mz ez lz) as [s|s| |s m' e'];
    cbn [is_inf]; try done.
  - by intros [= <-].
  - destruct Haux as (-> & Hbd & _). by intros [= <-].
Qed.

End Binary64.

(** ** Keyframe shaping *)

Module Shaping.
Import Py Bpy Script Spec Run.

Lemma shape_fcurve_keys option fc kf :
  kf ∈ keyframe_points (shape_fcurve option fc) →
  interpolation kf = option ∧ easing kf = "EASE_OUT".
Proof.
  unfold shape_fcurve; simpl. intros (k & -> & _)%list_elem_of_fmap.
  by split.
Qed.

Lemma shape_fcurve_frames option fc :
  co_frame <$> keyframe_points (shape_fcurve option fc)
  = co_frame <$> keyframe_points fc.
Proof.
  unfold shape_fcurve; simpl. rewrite <- list_fmap_compose.
  by apply list_fmap_ext.
Qed.

Lemma shape_fcurve_values option fc :
  co_value <$> keyframe_points (shape_fcurve option fc)
  = co_value <$> keyframe_points fc.
Proof.
  unfold shape_fcurve; simpl. rewrite <- list_fmap_compose.
  by apply list_fmap_ext.
Qed.

Lemma runs_set_animation_fcurve s ob o c a act option :
  objects s !! ob = Some o →
  curves s !! data o = Some c →
  cu_animation_data c = Some (AnimData (Some a)) →
  actions s !! a = Some act →
  runs (set_animation_fcurve ob option) s tt
    (with_actions <[a := Action (shape_fcurve option <$> fcurves act)]> s).
Proof.
  intros Ho Hc Had Ha. unfold set_animation_fcurve.
  eapply runs_bind; [by apply runs_data_of|].
  eapply runs_bind; [by apply runs_get_curve|].
  rewrite Had.
  eapply runs_bind; [by apply runs_need|].
  eapply runs_bind; [by apply runs_need|].
  eapply runs_bind; [by apply runs_get_action|].
  apply runs_modify.
Qed.

(** C8, as amended: shaping raises [AttributeError] and changes nothing
    when the object's curve data has no animation data, and also when its
    animation data has no action; when an action is assigned, every key of
    every F-curve of that action gets the given interpolation and the
    easing ["EASE_OUT"], channels, frames and values being kept, and
    nothing else in the scene changes. *)
Theorem set_animation_fcurve_shapes_every_key s ob o c option :
  objects s !! ob = Some o →
  curves s !! data o = Some c →
  shaping_outcome s ob c option.
Proof.
  intros Ho Hc. unfold shaping_outcome.
  destruct (cu_animation_data c) as [[[a|]]|] eqn:Had.
  - intros act Ha. eexists. split; [by eapply runs_set_animation_fcurve|].
    simpl. split_and!.
    + rewrite <- list_fmap_compose. by apply list_fmap_ext.
    + rewrite <- list_fmap_compose. apply list_fmap_ext.
      intros _ fc _. apply shape_fcurve_frames.
    + rewrite <- list_fmap_compose. apply list_fmap_ext.
      intros _ fc _. apply shape_fcurve_values.
    + intros fc kf (fc0 & -> & _)%list_elem_of_fmap Hkf.
      by eapply shape_fcurve_keys.
  - unfold set_animation_fcurve.
    eapply fails_bind_later; [by apply runs_data_of|].
    eapply fails_bind_later; [by apply runs_get_curve|].
    rewrite Had.
    eapply fails_bind_later; [by apply runs_need|].
    apply fails_bind_now. apply fails_need.
  - unfold set_animation_fcurve.
    eapply fails_bind_later; [by apply runs_data_of|].
    eapply fails_bind_later; [by apply runs_get_curve|].
    rewrite Had. apply fails_bind_now. apply fails_need.
Qed.

End Shaping.

(** ** The material builder *)

Module Materials.
Import Py Bpy Script Spec Run.
Local Open Scope py_scope.

Lemma create_material_unfold mat_id mat_type color ei gr :
  create_material mat_id mat_type color ei gr =
  (s <- get ;;
   mat <- match materials s !! mat_id with
          | Some _ => ret mat_id
          | None => materials_new mat_id
          end ;;
   rebuild mat mat_type color ei gr).
Proof. reflexivity. Qed.

Lemma runs_put_material s m x :
  runs (put_material m x) s tt (with_materials <[m := x]> s).
Proof. apply runs_modify. Qed.

Lemma runs_get_node_tree s m x t :
  materials s !! m = Some x → mat_node_tree x = Some t →
  runs (get_node_tree m) s t s.
Proof.
  intros Hm Ht. unfold get_node_tree.
  eapply runs_bind; [by apply runs_get_material|]. by apply runs_need.
Qed.

Lemma runs_put_node_tree s m x t :
  materials s !! m = Some x →
  runs (put_node_tree m t) s tt
       (with_materials <[m := Material (use_nodes x) (Some t)]> s).
Proof.
  intros Hm. unfold put_node_tree.
  eapply runs_bind; [by apply runs_get_material|]. apply runs_put_material.
Qed.

(** Every step on material [m] leaves a scene of the form
    [with_materials <[m := _]> s]; these lemmas keep it in that form. *)
Lemma with_materials_insert_insert m (x y : material) s :
  with_materials <[m := y]> (with_materials <[m := x]> s)
  = with_materials <[m := y]> s.
Proof. unfold with_materials; simpl. f_equal. apply insert_insert_eq. Qed.

Lemma lookup_with_materials_insert m (x : material) s :
  materials (with_materials <[m := x]> s) !! m = Some x.
Proof. simpl. apply lookup_insert_eq. Qed.

Lemma runs_tree_step {A} (c : M A) m s x a t' :
  (∀ s1, materials s1 !! m = Some x →
     runs c s1 a
       (with_materials <[m := Material (use_nodes x) (Some t')]> s1)) →
  runs c (with_materials <[m := x]> s) a
    (with_materials <[m := Material (use_nodes x) (Some t')]> s).
Proof.
  intros H. eapply runs_eq; [apply H, lookup_with_materials_insert|].
  apply with_materials_insert_insert.
Qed.

Lemma runs_nodes_new s m x t type label :
  materials s !! m = Some x → mat_node_tree x = Some t →
  node_label type = Some label →
  runs (nodes_new m type) s
    (fresh_string_of_set label (list_to_set (node_name <$> nodes t)))
    (with_materials <[m := Material (use_nodes x)
       (Some (NodeTree
                (nodes t ++ [Node (fresh_string_of_set label
                                     (list_to_set (node_name <$> nodes t)))
                                  type ∅])
                (links t)))]> s).
Proof.
  intros Hm Ht Hl. unfold nodes_new.
  eapply runs_bind; [by eapply runs_get_node_tree|].
  eapply runs_bind; [by apply runs_need|].
  eapply runs_bind; [by eapply runs_put_node_tree|]. apply runs_ret.
Qed.

Lemma runs_set_input_default s m x t name i v :
  materials s !! m = Some x → mat_node_tree x = Some t →
  existsb (λ nd, String.eqb (node_name nd) name) (nodes t) = true →
  runs (set_input_default m name i v) s tt
    (with_materials <[m := Material (use_nodes x)
       (Some (NodeTree (set_input name i v <$> nodes t) (links t)))]> s).
Proof.
  intros Hm Ht He. unfold set_input_default.
  eapply runs_bind; [by eapply runs_get_node_tree|].
  rewrite He. by eapply runs_put_node_tree.
Qed.

Lemma runs_links_new s m x t a i b j :
  materials s !! m = Some x → mat_node_tree x = Some t →
  runs (links_new m a i b j) s tt
    (with_materials <[m := Material (use_nodes x)
       (Some (NodeTree (nodes t)
          (filter (λ l, ¬ (to_node l = b ∧ to_socket l = j)) (links t)
             ++ [Link a i b j])))]> s).
Proof.
  intros Hm Ht. unfold links_new.
  eapply runs_bind; [by eapply runs_get_node_tree|].
  by eapply runs_put_node_tree.
Qed.

(** Run one host call on the material under construction. *)
Ltac tree_step lem :=
  eapply runs_bind;
  [ eapply runs_tree_step; let s1 := fresh "s" in let H1 := fresh "H" in
    intros s1 H1; by eapply (lem s1)
  | cbn [use_nodes nodes links fmap list_fmap app node_name] ].

Lemma runs_rebuild s mat x mat_type color ei gr t :
  materials s !! mat = Some x →
  shader_graph mat_type color ei gr = Some t →
  runs (rebuild mat mat_type color ei gr) s mat
       (with_materials <[mat := Material true (Some t)]> s).
Proof.
  intros Hm Hg. unfold rebuild.
  (* mat.use_nodes = True *)
  eapply runs_bind.
  { unfold set_use_nodes. eapply runs_bind; [by apply runs_get_material|].
    apply runs_put_material. }
  eapply runs_bind; [apply runs_get_material, lookup_with_materials_insert|].
  cbn [mat_node_tree].
  (* the links and the nodes are cleared *)
  eapply runs_bind.
  { eapply runs_bind.
    - unfold links_clear.
      eapply runs_bind;
        [by eapply runs_get_node_tree; [apply lookup_with_materials_insert|]|].
      eapply runs_tree_step. intros s1 H1. by apply (runs_put_node_tree s1).
    - unfold nodes_clear. cbn [use_nodes].
      eapply runs_bind;
        [by eapply runs_get_node_tree; [apply lookup_with_materials_insert|]|].
      eapply runs_tree_step. intros s1 H1. by apply (runs_put_node_tree s1). }
  cbn [use_nodes].
  (* the output node, alone in the tree, gets its plain name *)
  tree_step runs_nodes_new.
  change (fresh_string_of_set "Material Output" (list_to_set []))
    with "Material Output".
  unfold shader_graph in Hg.
  destruct (String.eqb mat_type "diffuse");
    [|destruct (String.eqb mat_type "emission");
      [|destruct (String.eqb mat_type "glossy"); [|done]]];
    injection Hg as <-.
  - eapply runs_bind.
    { tree_step runs_nodes_new.
      change (fresh_string_of_set "Diffuse BSDF"
                (list_to_set ["Material Output"])) with "Diffuse BSDF".
      tree_step runs_set_input_default.
      apply runs_ret. }
    eapply runs_bind; [by apply runs_need|].
    tree_step runs_links_new.
    eapply runs_eq; [apply runs_ret|]. reflexivity.
  - eapply runs_bind.
    { tree_step runs_nodes_new.
      change (fresh_string_of_set "Emission"
                (list_to_set ["Material Output"])) with "Emission".
      tree_step runs_set_input_default.
      tree_step runs_set_input_default.
      apply runs_ret. }
    eapply runs_bind; [by apply runs_need|].
    tree_step runs_links_new.
    eapply runs_eq; [apply runs_ret|]. reflexivity.
  - eapply runs_bind.
    { tree_step runs_nodes_new.
      change (fresh_string_of_set "Glossy BSDF"
                (list_to_set ["Material Output"])) with "Glossy BSDF".
      tree_step runs_set_input_default.
      tree_step runs_set_input_default.
      apply runs_ret. }
    eapply runs_bind; [by apply runs_need|].
    tree_step runs_links_new.
    eapply runs_eq; [apply runs_ret|]. reflexivity.
Qed.

(** Whatever the scene held under [mat_id], [create_material] leaves there
    the graph of the requested kind, and nothing else changes. *)
Lemma runs_create_material s mat_id mat_type color ei gr t :
  shader_graph mat_type color ei gr = Some t →
  runs (create_material mat_id mat_type color ei gr) s mat_id
       (with_materials <[mat_id := Material true (Some t)]> s).
Proof.
  intros Hg. rewrite create_material_unfold.
  eapply runs_bind; [apply runs_get|].
  destruct (materials s !! mat_id) as [x|] eqn:Hm.
  - eapply runs_bind; [apply runs_ret|]. by eapply runs_rebuild.
  - eapply runs_bind.
    { unfold materials_new. eapply runs_bind; [apply runs_get|].
      unfold fresh_string. rewrite Hm.
      eapply runs_bind; [apply runs_put_material|]. apply runs_ret. }
    eapply runs_eq.
    + eapply runs_rebuild; [apply lookup_with_materials_insert|done].
    + apply with_materials_insert_insert.
Qed.

Lemma shader_graph_kind mat_type color ei gr type :
  shader_type mat_type = Some type →
  ∃ t, shader_graph mat_type color ei gr = Some t ∧
       one_shader_one_output type t.
Proof.
  unfold shader_type, shader_graph, one_shader_one_output.
  destruct (String.eqb mat_type "diffuse");
    [|destruct (String.eqb mat_type "emission");
      [|destruct (String.eqb mat_type "glossy"); [|done]]];
    intros [= <-]; eexists; (split; [reflexivity|]);
    eexists _, _; split_and!; reflexivity || done.
Qed.

(** C5: calling [create_material] twice with the same identifier, with
    any two shader kinds, succeeds both times and leaves under that
    identifier a graph of exactly one shader node (of the second kind)
    wired to exactly one output node; the other materials are as before. *)
Theorem create_material_twice_one_shader s mat_id
    kind1 color1 ei1 gr1 type1 kind2 color2 ei2 gr2 type2 :
  shader_type kind1 = Some type1 →
  shader_type kind2 = Some type2 →
  built_twice s mat_id kind1 color1 ei1 gr1 kind2 color2 ei2 gr2 type2.
Proof.
  intros H1 H2. unfold built_twice.
  destruct (shader_graph_kind kind1 color1 ei1 gr1 type1 H1) as (t1 & Hg1 & _).
  destruct (shader_graph_kind kind2 color2 ei2 gr2 type2 H2)
    as (t2 & Hg2 & Ht2).
  eexists _, _, t2. split_and!.
  - by apply runs_create_material.
  - by apply runs_create_material.
  - simpl. apply lookup_insert_eq.
  - done.
  - destruct Ht2 as (out & sh & -> & _). done.
  - destruct Ht2 as (out & sh & _ & _ & _ & _ & ->). done.
  - intros m Hne. simpl. by rewrite !lookup_insert_ne.
Qed.

End Materials.

(** ** The object duplicator *)

Module Duplicator.
Import Py Bpy Script Spec Run.
Local Open Scope py_scope.

Lemma fresh_string_ne {A} (m : gmap string A) s k :
  is_Some (m !! k) → fresh_string s m ≠ k.
Proof.
  intros [x Hk] Heq. pose proof (fresh_string_fresh m s) as Hf.
  rewrite Heq in Hf. congruence.
Qed.

Lemma runs_put_object s ob o :
  runs (put_object ob o) s tt (with_objects <[ob := o]> s).
Proof. apply runs_modify. Qed.

Lemma runs_put_curve s cu c :
  runs (put_curve cu c) s tt (with_curves <[cu := c]> s).
Proof. apply runs_modify. Qed.

Lemma runs_object_copy s ob o :
  objects s !! ob = Some o →
  runs (object_copy ob) s (fresh_string ob (objects s))
       (with_objects <[fresh_string ob (objects s) := o]> s).
Proof.
  intros Ho. unfold object_copy.
  eapply runs_bind; [by apply runs_get_object|].
  eapply runs_bind; [apply runs_get|].
  eapply runs_bind; [apply runs_put_object|]. apply runs_ret.
Qed.

Lemma runs_curve_copy s cu c :
  curves s !! cu = Some c →
  runs (curve_copy cu) s (fresh_string cu (curves s))
       (with_curves <[fresh_string cu (curves s) := c]> s).
Proof.
  intros Hc. unfold curve_copy.
  eapply runs_bind; [by apply runs_get_curve|].
  eapply runs_bind; [apply runs_get|].
  eapply runs_bind; [apply runs_put_curve|]. apply runs_ret.
Qed.

Lemma runs_set_data s ob o cu :
  objects s !! ob = Some o →
  runs (set_data ob cu) s tt
       (with_objects <[ob := Object cu (animation_data o)]> s).
Proof.
  intros Ho. unfold set_data.
  eapply runs_bind; [by apply runs_get_object|]. apply runs_put_object.
Qed.

Lemma runs_animation_data_clear s ob o :
  objects s !! ob = Some o →
  runs (animation_data_clear ob) s tt
       (with_objects <[ob := Object (data o) None]> s).
Proof.
  intros Ho. unfold animation_data_clear.
  eapply runs_bind; [by apply runs_get_object|]. apply runs_put_object.
Qed.

Lemma runs_collection_link s coll ob obs :
  collections s !! coll = Some obs → ob ∉ obs →
  runs (collection_link coll ob) s tt
       (with_collections <[coll := obs ++ [ob]]> s).
Proof.
  intros Hc Hn. unfold collection_link.
  eapply runs_bind; [apply runs_get|].
  eapply runs_bind; [by apply runs_need|].
  rewrite bool_decide_eq_false_2 by done. apply runs_modify.
Qed.

(** Linking an object that is in no collection yet. *)
Lemma runs_link s cn ob :
  (∀ name obs, collections s !! name = Some obs → ob ∉ obs) →
  ob ∉ scene_objects s →
  from_option (λ coll, is_Some (collections s !! coll)) True
              (context_collection s) →
  runs (match cn with
        | None => context_link ob
        | Some name => add_object_to_collection ob name
        end) s tt (link_into cn ob s).
Proof.
  intros Hcoll Hsc Hctx.
  destruct cn as [name|]; unfold link_into.
  - unfold add_object_to_collection, create_collection_if_not_exists.
    destruct (collections s !! name) as [obs|] eqn:Hn.
    + eapply runs_bind.
      { eapply runs_bind; [apply runs_get|]. rewrite Hn. apply runs_ret. }
      apply runs_collection_link; [done|]. by eapply Hcoll.
    + eapply runs_bind.
      { eapply runs_bind; [apply runs_get|]. rewrite Hn.
        eapply runs_bind; apply runs_modify. }
      eapply runs_eq.
      * apply (runs_collection_link _ name ob []);
          [simpl; apply lookup_insert_eq | by apply not_elem_of_nil].
      * unfold with_collections, with_scene_children; simpl. f_equal.
        apply insert_insert_eq.
  - unfold context_link.
    eapply runs_bind; [apply runs_get|].
    destruct (context_collection s) as [coll|] eqn:Hc.
    + simpl in Hctx. destruct Hctx as [obs Hobs]. rewrite Hobs. simpl.
      apply runs_collection_link; [done|]. by eapply Hcoll.
    + rewrite bool_decide_eq_false_2 by done. apply runs_modify.
Qed.

(** A name that is no object of a consistent scene is in no collection. *)
Lemma consistent_unlinked s ob :
  consistent s → objects s !! ob = None →
  (∀ name obs, collections s !! name = Some obs → ob ∉ obs) ∧
  ob ∉ scene_objects s.
Proof.
  intros (_ & Hcoll & Hsc & _) Hob.
  assert (Hnot : ∀ obs, Forall (λ x, is_Some (objects s !! x)) obs → ob ∉ obs).
  { intros obs Hall Hin. rewrite Forall_forall in Hall.
    apply Hall in Hin as [o Ho]. congruence. }
  split; [|by apply Hnot].
  intros name obs Hn. by eapply Hnot, Hcoll.
Qed.

(** Linking touches the collections only. *)
Lemma link_into_with_objects cn ob f s :
  link_into cn ob (with_objects f s) = with_objects f (link_into cn ob s).
Proof.
  unfold link_into. destruct cn as [name|]; simpl.
  - by destruct (collections s !! name).
  - by destruct (context_collection s).
Qed.

Lemma link_into_with_curves cn ob f s :
  link_into cn ob (with_curves f s) = with_curves f (link_into cn ob s).
Proof.
  unfold link_into. destruct cn as [name|]; simpl.
  - by destruct (collections s !! name).
  - by destruct (context_collection s).
Qed.

Lemma objects_link_into cn ob s : objects (link_into cn ob s) = objects s.
Proof.
  unfold link_into. destruct cn as [name|].
  - by destruct (collections s !! name).
  - by destruct (context_collection s).
Qed.

Lemma curves_link_into cn ob s : curves (link_into cn ob s) = curves s.
Proof.
  unfold link_into. destruct cn as [name|].
  - by destruct (collections s !! name).
  - by destruct (context_collection s).
Qed.

Lemma actions_link_into cn ob s : actions (link_into cn ob s) = actions s.
Proof.
  unfold link_into. destruct cn as [name|].
  - by destruct (collections s !! name).
  - by destruct (context_collection s).
Qed.

Lemma materials_link_into cn ob s :
  materials (link_into cn ob s) = materials s.
Proof.
  unfold link_into. destruct cn as [name|].
  - by destruct (collections s !! name).
  - by destruct (context_collection s).
Qed.

Lemma with_objects_insert_insert ob (x y : object) s :
  with_objects <[ob := y]> (with_objects <[ob := x]> s)
  = with_objects <[ob := y]> s.
Proof. unfold with_objects; simpl. f_equal. apply insert_insert_eq. Qed.

Lemma with_curves_insert_insert cu (x y : curve) s :
  with_curves <[cu := y]> (with_curves <[cu := x]> s)
  = with_curves <[cu := y]> s.
Proof. unfold with_curves; simpl. f_equal. apply insert_insert_eq. Qed.

Lemma with_objects_with_curves f g s :
  with_objects f (with_curves g s) = with_curves g (with_objects f s).
Proof. reflexivity. Qed.

(** The scene [copy_obj] leaves. *)
Lemma runs_copy_obj s obj o c cn :
  objects s !! obj = Some o →
  curves s !! data o = Some c →
  consistent s →
  runs (copy_obj obj cn) s (fresh_string obj (objects s))
    (with_objects
       <[fresh_string obj (objects s)
           := Object (fresh_string (data o) (curves s)) None]>
       (with_curves <[fresh_string (data o) (curves s) := c]>
          (link_into cn (fresh_string obj (objects s)) s))).
Proof.
  intros Ho Hc Hs.
  set (obj_cpy := fresh_string obj (objects s)).
  set (d' := fresh_string (data o) (curves s)).
  unfold copy_obj.
  assert (Hne : obj_cpy ≠ obj) by (apply fresh_string_ne; eauto).
  assert (Hnew : objects s !! obj_cpy = None) by apply fresh_string_fresh.
  destruct (consistent_unlinked s obj_cpy Hs Hnew) as [Hun1 Hun2].
  eapply runs_bind; [by apply runs_object_copy|]. fold obj_cpy.
  eapply runs_bind.
  { apply runs_data_of. simpl. by rewrite lookup_insert_ne. }
  eapply runs_bind; [by apply runs_curve_copy|].
  cbn [curves with_objects]. fold d'.
  eapply runs_bind.
  { apply runs_set_data. simpl. apply lookup_insert_eq. }
  eapply runs_bind.
  { apply runs_animation_data_clear. simpl. apply lookup_insert_eq. }
  cbn [data].
  eapply runs_bind; [|apply runs_ret].
  eapply runs_eq.
  - apply runs_link; [done..|]. by destruct Hs as (_ & _ & _ & ?).
  - rewrite !link_into_with_objects, link_into_with_curves,
      link_into_with_objects.
    rewrite <- (with_objects_with_curves _ _ (link_into cn obj_cpy s)).
    by rewrite !with_objects_insert_insert.
Qed.

(** Copying keeps a scene consistent. *)
Lemma consistent_copy s obj_cpy d' c cn :
  consistent s →
  consistent
    (with_objects <[obj_cpy := Object d' None]>
       (with_curves <[d' := c]> (link_into cn obj_cpy s))).
Proof.
  intros (Hobj & Hcoll & Hsc & Hctx).
  set (s1 := link_into cn obj_cpy s).
  assert (Hmono : ∀ x, is_Some (objects s !! x) →
            is_Some (<[obj_cpy := Object d' None]> (objects s) !! x)).
  { intros x Hx. destruct (decide (obj_cpy = x)) as [->|Hn].
    - rewrite lookup_insert_eq. eauto.
    - by rewrite lookup_insert_ne. }
  assert (Hall : ∀ obs, Forall (λ x, is_Some (objects s !! x)) obs →
            Forall (λ x, is_Some (<[obj_cpy := Object d' None]> (objects s)
                                    !! x)) (obs ++ [obj_cpy])).
  { intros obs Hobs. apply Forall_app. split.
    - eapply Forall_impl; [exact Hobs|]. exact Hmono.
    - apply Forall_singleton. rewrite lookup_insert_eq. eauto. }
  unfold consistent. cbn [objects curves collections scene_objects
                            context_collection with_objects with_curves].
  subst s1. rewrite objects_link_into, curves_link_into. split_and!.
  - intros k o Hk. simpl.
    destruct (decide (obj_cpy = k)) as [->|Hn].
    + rewrite lookup_insert_eq in Hk. injection Hk as <-. simpl.
      rewrite lookup_insert_eq. eauto.
    + rewrite lookup_insert_ne in Hk by done. apply Hobj in Hk. simpl in Hk.
      destruct (decide (d' = data o)) as [->|Hd].
      * rewrite lookup_insert_eq. eauto.
      * by rewrite lookup_insert_ne.
  - unfold link_into. destruct cn as [name|].
    + destruct (collections s !! name) as [obs|] eqn:Hn; simpl.
      * apply map_Forall_insert_2; [by eapply Hall, Hcoll|].
        eapply map_Forall_impl; [exact Hcoll|]. simpl. intros _ obs' Hobs'.
        eapply Forall_impl; [exact Hobs'|]. exact Hmono.
      * apply map_Forall_insert_2; [by apply (Hall [])|].
        eapply map_Forall_impl; [exact Hcoll|]. simpl. intros _ obs' Hobs'.
        eapply Forall_impl; [exact Hobs'|]. exact Hmono.
    + destruct (context_collection s) as [coll|] eqn:Hc; simpl.
      * apply map_Forall_insert_2.
        -- apply Hall. destruct (collections s !! coll) eqn:Hn; simpl;
             [by eapply Hcoll | by apply Forall_nil].
        -- eapply map_Forall_impl; [exact Hcoll|]. simpl. intros _ obs' Hobs'.
           eapply Forall_impl; [exact Hobs'|]. exact Hmono.
      * eapply map_Forall_impl; [exact Hcoll|]. simpl. intros _ obs' Hobs'.
        eapply Forall_impl; [exact Hobs'|]. exact Hmono.
  - unfold link_into. destruct cn as [name|].
    + destruct (collections s !! name); simpl;
        (eapply Forall_impl; [exact Hsc|]; exact Hmono).
    + destruct (context_collection s) as [coll|]; simpl.
      * eapply Forall_impl; [exact Hsc|]. exact Hmono.
      * by apply Hall.
  - unfold link_into. destruct cn as [name|].
    + destruct (collections s !! name) eqn:Hn; simpl;
        destruct (context_collection s) as [coll|]; simpl in *; try done;
        (destruct (decide (name = coll)) as [->|Hd];
          [rewrite lookup_insert_eq; eauto
          | by rewrite lookup_insert_ne]).
    + destruct (context_collection s) as [coll|] eqn:Hc; simpl.
      * rewrite Hc. simpl. rewrite lookup_insert_eq. eauto.
      * by rewrite Hc.
Qed.

(** The F-curves that animate the curve data of an object. *)
Lemma fcurves_of_data s ob o c :
  objects s !! ob = Some o →
  curves s !! data o = Some c →
  fcurves_of s ob
  = (a ← action_of c; act ← actions s !! a; Some (fcurves act)).
Proof.
  intros Ho Hc. unfold fcurves_of, action_of. rewrite Ho. simpl.
  rewrite Hc. simpl. by destruct (cu_animation_data c) as [[[a|]]|].
Qed.

(** C6, as amended: on a consistent scene, for a source object with any
    animation of its own and of its curve data, [copy_obj] returns a new
    object whose curve data is a new data-block holding a copy of the
    source's, referred to by no other object (neither the source nor an
    earlier duplicate; a later duplicate gets yet another data-block), and
    the object itself has no animation data.  The source object, its data
    and every other data-block that existed are unchanged, and replacing
    the duplicate's geometry afterwards leaves the source's geometry as it
    was.  The copy is not deep, though: the animation data of the curve
    data is copied with it and refers to the action of the source's, so
    the duplicate of a source with animated curve data is animated by the
    very F-curves of the source. *)
Theorem copy_obj_duplicates s obj o c cn :
  objects s !! obj = Some o →
  curves s !! data o = Some c →
  consistent s →
  duplicated s obj o c cn.
Proof.
  intros Ho Hc Hs.
  set (obj_cpy := fresh_string obj (objects s)).
  set (d' := fresh_string (data o) (curves s)).
  set (s' := with_objects <[obj_cpy := Object d' None]>
               (with_curves <[d' := c]> (link_into cn obj_cpy s))).
  assert (Hne : obj_cpy ≠ obj) by (apply fresh_string_ne; eauto).
  assert (Hnd : d' ≠ data o) by (apply fresh_string_ne; eauto).
  assert (Hnew : objects s !! obj_cpy = None) by apply fresh_string_fresh.
  assert (Hnewd : curves s !! d' = None) by apply fresh_string_fresh.
  assert (Hrun : runs (copy_obj obj cn) s obj_cpy s')
    by (by apply runs_copy_obj).
  assert (Hobs : objects s' = <[obj_cpy := Object d' None]> (objects s)).
  { unfold s'. cbn [objects with_objects with_curves].
    by rewrite objects_link_into. }
  assert (Hcus : curves s' = <[d' := c]> (curves s)).
  { unfold s'. cbn [curves with_objects with_curves].
    by rewrite curves_link_into. }
  assert (Hacs : actions s' = actions s).
  { unfold s'. cbn [actions with_objects with_curves].
    apply actions_link_into. }
  assert (Hmas : materials s' = materials s).
  { unfold s'. cbn [materials with_objects with_curves].
    apply materials_link_into. }
  assert (Hob' : objects s' !! obj_cpy = Some (Object d' None))
    by (rewrite Hobs; apply lookup_insert_eq).
  assert (Hcu' : curves s' !! d' = Some c)
    by (rewrite Hcus; apply lookup_insert_eq).
  assert (Ho' : objects s' !! obj = Some o)
    by (by rewrite Hobs, lookup_insert_ne).
  assert (Hc' : curves s' !! data o = Some c)
    by (by rewrite Hcus, lookup_insert_ne).
  assert (Hs' : consistent s') by (by apply consistent_copy).
  exists obj_cpy, d', s'.
  split; [done|]. split; [done|]. split; [done|]. split; [done|].
  split; [done|]. split.
  { intros k o' Hk Hd. destruct (decide (obj_cpy = k)) as [|Hn]; [done|].
    rewrite Hobs, lookup_insert_ne in Hk by done.
    destruct Hs as (Hobj & _). apply Hobj in Hk as [c' Hc'']. simpl in Hc''.
    congruence. }
  split; [by rewrite Hcu'|]. split.
  { rewrite (fcurves_of_data s' obj_cpy (Object d' None) c Hob' Hcu'),
      (fcurves_of_data s obj o c Ho Hc). by rewrite Hacs. }
  split; [intros k Hk; by rewrite Hobs, lookup_insert_ne|].
  split; [intros k Hk; by rewrite Hcus, lookup_insert_ne|].
  split; [done|]. split; [done|]. split; [done|]. split; [done|].
  split; [done|]. split.
  { intros g. eexists. split.
    - unfold set_splines. eapply runs_bind.
      + by apply runs_get_curve.
      + apply runs_put_curve.
    - cbn [objects curves with_curves]. split_and!.
      + apply lookup_insert_eq.
      + by rewrite lookup_insert_ne.
      + done.
      + intros k Hk. by rewrite lookup_insert_ne. }
  set (ob2 := fresh_string obj (objects s')).
  set (d2 := fresh_string (data o) (curves s')).
  assert (Hne2 : ob2 ≠ obj_cpy) by (apply fresh_string_ne; eauto).
  assert (Hne2' : ob2 ≠ obj) by (apply fresh_string_ne; eauto).
  assert (Hnd2 : d2 ≠ d') by (apply fresh_string_ne; eauto).
  assert (Hnd2' : d2 ≠ data o) by (apply fresh_string_ne; eauto).
  exists ob2, d2. eexists. split; [by apply runs_copy_obj|].
  fold ob2 d2. cbn [objects curves with_objects with_curves].
  rewrite objects_link_into, curves_link_into.
  split_and!; try done.
  - apply lookup_insert_eq.
  - by rewrite lookup_insert_ne.
  - apply lookup_insert_eq.
  - by rewrite lookup_insert_ne.
Qed.

End Duplicator.

(** ** The colour palette generator *)

Module Palette.
Import Py Bpy Script Spec Run.
Local Open Scope py_scope.

Lemma runs_noise_random s :
  runs noise_random s (noise s (noise_pos s)) (with_noise_pos S s).
Proof.
  unfold noise_random.
  eapply runs_bind; [apply runs_get|].
  eapply runs_bind; [apply runs_modify|]. apply runs_ret.
Qed.

(** Converting a small integer to float does not overflow. *)
Lemma float_of_int_small z :
  -1024 < z < 1024 → float_of_int z = Ok (round_int z).
Proof.
  intros Hz.
  assert (Hall : forallb (λ k, negb (is_inf (round_int (Z.of_nat k - 1024))))
                         (seq 0 2048) = true) by (vm_compute; reflexivity).
  rewrite forallb_forall in Hall.
  specialize (Hall (Z.to_nat (z + 1024))).
  replace (Z.of_nat (Z.to_nat (z + 1024)) - 1024) with z in Hall by lia.
  unfold float_of_int.
  rewrite (negb_true_iff _) in Hall. rewrite Hall; [done|].
  apply in_seq. lia.
Qed.

(** One turn of the loop that builds the colours. *)
Lemma runs_palette_turn s (hues : list Z) i rand_cols hi :
  hues !! Z.to_nat i = Some hi →
  float_of_int hi = Ok (round_int hi) →
  runs (hi <- need IndexError (hues !! Z.to_nat i) ;;
        fh <- lift (float_of_int hi) ;;
        h <- lift (float_truediv fh f360) ;;
        s <- noise_random ;;
        v <- noise_random ;;
        ret (rand_cols ++ [HSV h s v]))
       s
       (rand_cols ++ [HSV (hue_fraction hi)
                          (noise s (noise_pos s)) (noise s (S (noise_pos s)))])
       (with_noise_pos (λ p, S (S p)) s).
Proof.
  intros Hi Hf.
  eapply runs_bind; [by apply runs_need|].
  eapply runs_bind; [by apply runs_lift|].
  eapply runs_bind; [by apply runs_lift|].
  eapply runs_bind; [apply runs_noise_random|].
  eapply runs_bind; [apply runs_noise_random|].
  apply runs_ret.
Qed.

Lemma runs_generate s hue hue_op :
  int_of_float (fmul (noise s (noise_pos s)) f360) = Ok hue →
  int_of_float (fmul (noise s (S (noise_pos s))) f180) = Ok hue_op →
  Forall (λ h, float_of_int h = Ok (round_int h)) (palette_hues hue hue_op) →
  runs generate_5_random_colors_that_fit s
       (palette_from s hue hue_op) (with_noise_pos (λ p, 12 + p)%nat s).
Proof.
  intros Hh Ho Hall. unfold generate_5_random_colors_that_fit.
  apply Forall_cons in Hall as [H0 Hall].
  apply Forall_cons in Hall as [H1 Hall].
  apply Forall_cons in Hall as [H2 Hall].
  apply Forall_cons in Hall as [H3 Hall].
  apply Forall_cons in Hall as [H4 _].
  eapply runs_bind; [apply runs_noise_random|].
  eapply runs_bind; [by apply runs_lift|].
  eapply runs_bind; [apply runs_noise_random|].
  eapply runs_bind; [by apply runs_lift|].
  cbn [for_range].
  eapply runs_bind; [by apply runs_palette_turn|].
  eapply runs_bind; [by apply runs_palette_turn|].
  eapply runs_bind; [by apply runs_palette_turn|].
  eapply runs_bind; [by apply runs_palette_turn|].
  eapply runs_bind; [by apply runs_palette_turn|].
  apply runs_ret.
Qed.

(** C7: the palette generator returns exactly five colours, and for a
    random source whose first two draws yield the hue [H] (in [0, 360])
    and the offset [O] (in [0, 180]), the hues used are [H], [H - O],
    [H + O], [H - 2 O], [H + 2 O], in that order, each divided by [360.0]
    to make the colour. *)
Theorem palette_five_hues s H O :
  int_of_float (fmul (noise s (noise_pos s)) f360) = Ok H →
  int_of_float (fmul (noise s (S (noise_pos s))) f180) = Ok O →
  0 ≤ H ≤ 360 → 0 ≤ O ≤ 180 →
  five_colors s H O.
Proof.
  intros Hh Ho HH HO. unfold five_colors. eexists _, _. split_and!.
  - apply runs_generate; [done..|].
    unfold palette_hues.
    repeat (constructor; [apply float_of_int_small; lia|]). constructor.
  - reflexivity.
  - reflexivity.
  - reflexivity.
Qed.

End Palette.

(** ** The growth strategies *)

Module Growth.
Import Py Bpy Script Spec Run Binary64.
Import Duplicator Materials Shaping Palette.
Local Open Scope py_scope.

(** *** Steps on curve data and actions *)

Lemma action_of_none c : cu_animation_data c = None → action_of c = None.
Proof. unfold action_of. by intros ->. Qed.

Lemma runs_put_action s a x :
  runs (put_action a x) s tt (with_actions <[a := x]> s).
Proof. apply runs_modify. Qed.

Lemma with_actions_insert_insert a (x y : action) s :
  with_actions <[a := y]> (with_actions <[a := x]> s)
  = with_actions <[a := y]> s.
Proof. unfold with_actions; simpl. f_equal. apply insert_insert_eq. Qed.

Lemma with_curves_with_actions f g s :
  with_curves f (with_actions g s) = with_actions g (with_curves f s).
Proof. reflexivity. Qed.

Lemma with_curves_with_materials f g s :
  with_curves f (with_materials g s) = with_materials g (with_curves f s).
Proof. reflexivity. Qed.

Lemma with_actions_with_materials f g s :
  with_actions f (with_materials g s) = with_materials g (with_actions f s).
Proof. reflexivity. Qed.

(** Scenes are kept in the form materials-over-actions-over-curves, one
    update per data-block. *)
Create Rewrite HintDb scene_nf.
#[local] Hint Rewrite with_curves_with_actions with_curves_with_materials
  with_actions_with_materials with_curves_insert_insert
  with_actions_insert_insert with_materials_insert_insert
  with_objects_insert_insert with_objects_with_curves : scene_nf.

Lemma runs_set_bevel_factor_start s cu c x :
  curves s !! cu = Some c →
  runs (set_bevel_factor_start cu x) s tt
    (with_curves <[cu := Curve (splines c) x (bevel_factor_end c)
                           (bevel_depth c) (cu_materials c)
                           (cu_animation_data c)]> s).
Proof.
  intros Hc. unfold set_bevel_factor_start.
  eapply runs_bind; [by apply runs_get_curve|]. apply runs_put_curve.
Qed.

Lemma runs_set_bevel_factor_end s cu c x :
  curves s !! cu = Some c →
  runs (set_bevel_factor_end cu x) s tt
    (with_curves <[cu := Curve (splines c) (bevel_factor_start c) x
                           (bevel_depth c) (cu_materials c)
                           (cu_animation_data c)]> s).
Proof.
  intros Hc. unfold set_bevel_factor_end.
  eapply runs_bind; [by apply runs_get_curve|]. apply runs_put_curve.
Qed.

Lemma runs_set_bevel_depth s cu c x :
  curves s !! cu = Some c →
  runs (set_bevel_depth cu x) s tt
    (with_curves <[cu := Curve (splines c) (bevel_factor_start c)
                           (bevel_factor_end c) x (cu_materials c)
                           (cu_animation_data c)]> s).
Proof.
  intros Hc. unfold set_bevel_depth.
  eapply runs_bind; [by apply runs_get_curve|]. apply runs_put_curve.
Qed.

Lemma runs_materials_append s cu c mat :
  curves s !! cu = Some c →
  runs (materials_append cu mat) s tt
    (with_curves <[cu := Curve (splines c) (bevel_factor_start c)
                           (bevel_factor_end c) (bevel_depth c)
                           (cu_materials c ++ [mat])
                           (cu_animation_data c)]> s).
Proof.
  intros Hc. unfold materials_append.
  eapply runs_bind; [by apply runs_get_curve|]. apply runs_put_curve.
Qed.

(** The first key on curve data without an action creates the action (and
    the animation data, where that is missing). *)
Lemma runs_keyframe_insert_first s cu c path frame v :
  curves s !! cu = Some c →
  action_of c = None →
  property c path = Some v →
  runs (keyframe_insert cu path frame) s tt
    (with_actions
       <[fresh_string (cu +:+ "Action") (actions s)
           := Action (insert_fcurve_key path frame v [])]>
       (with_curves
          <[cu := Curve (splines c) (bevel_factor_start c)
                    (bevel_factor_end c) (bevel_depth c) (cu_materials c)
                    (Some (AnimData
                       (Some (fresh_string (cu +:+ "Action") (actions s)))))]>
          s)).
Proof.
  intros Hc Had Hp. unfold keyframe_insert.
  eapply runs_bind; [by apply runs_get_curve|].
  eapply runs_bind; [by apply runs_need|].
  eapply runs_bind.
  { unfold ensure_action. eapply runs_bind; [by apply runs_get_curve|].
    unfold action_of in Had.
    destruct (cu_animation_data c) as [[[a|]]|]; [done|..];
      (eapply runs_bind; [apply runs_get|];
       eapply runs_bind; [apply runs_put_action|];
       eapply runs_bind; [apply runs_put_curve|]; apply runs_ret). }
  eapply runs_bind.
  { apply runs_get_action. simpl. apply lookup_insert_eq. }
  eapply runs_eq; [apply runs_put_action|].
  cbn [fcurves]. autorewrite with scene_nf. reflexivity.
Qed.

Lemma runs_keyframe_insert_next s cu c a act path frame v :
  curves s !! cu = Some c →
  cu_animation_data c = Some (AnimData (Some a)) →
  actions s !! a = Some act →
  property c path = Some v →
  runs (keyframe_insert cu path frame) s tt
    (with_actions
       <[a := Action (insert_fcurve_key path frame v (fcurves act))]> s).
Proof.
  intros Hc Had Ha Hp. unfold keyframe_insert.
  eapply runs_bind; [by apply runs_get_curve|].
  eapply runs_bind; [by apply runs_need|].
  eapply runs_bind.
  { unfold ensure_action. eapply runs_bind; [by apply runs_get_curve|].
    rewrite Had. apply runs_ret. }
  eapply runs_bind; [by apply runs_get_action|].
  apply runs_put_action.
Qed.

(** Looking a data-block up in a scene of the normal form. *)
Ltac scene_lookup :=
  cbn [objects curves actions materials with_objects with_curves
       with_actions with_materials];
  first [ apply lookup_insert_eq
        | rewrite lookup_insert_ne by done; scene_lookup
        | eassumption ].

Ltac step lem :=
  eapply runs_bind; [eapply lem; try scene_lookup; try done|]; cbn [data].

Lemma runs_animate_curve_growth s ob an d c fs fe gs ge :
  objects s !! ob = Some (Object d an) →
  curves s !! d = Some c →
  action_of c = None →
  runs (animate_curve_growth ob fs fe gs ge) s tt
    (with_actions
       <[fresh_string (d +:+ "Action") (actions s)
           := Action [FCurve "bevel_factor_start"
                        [Keyframe fs gs "BEZIER" "AUTO"];
                      FCurve "bevel_factor_end"
                        (insert_key fe ge [Keyframe fs gs "BEZIER" "AUTO"])]]>
       (with_curves
          <[d := Curve (splines c) gs ge (bevel_depth c) (cu_materials c)
                   (Some (AnimData
                      (Some (fresh_string (d +:+ "Action") (actions s)))))]>
          s)).
Proof.
  intros Ho Hc Had. unfold animate_curve_growth.
  step runs_data_of. step runs_set_bevel_factor_end.
  step runs_data_of. step runs_set_bevel_factor_start.
  step runs_data_of.
  eapply runs_bind.
  { eapply runs_keyframe_insert_first; [scene_lookup|exact Had|reflexivity]. }
  cbn [actions with_curves].
  step runs_data_of.
  eapply runs_bind.
  { eapply runs_keyframe_insert_next;
      [scene_lookup|reflexivity|scene_lookup|reflexivity]. }
  step runs_data_of. step runs_set_bevel_factor_end.
  step runs_data_of.
  eapply runs_eq.
  { eapply runs_keyframe_insert_next;
      [scene_lookup|reflexivity|scene_lookup|reflexivity]. }
  cbn. autorewrite with scene_nf. reflexivity.
Qed.

(** *** One turn of a loop

    On a consistent scene whose source object has curve data without an
    action, a turn leaves the scene [add_instance] describes. *)

Lemma runs_thicker_to_thinner_body s curve n_frames growth_delta
    rand_5_colors instance_i curr_end_growth curr_thickness o0 c0 col :
  objects s !! curve = Some o0 →
  curves s !! data o0 = Some c0 →
  action_of c0 = None →
  consistent s →
  rand_5_colors !! Z.to_nat (instance_i mod 2) = Some col →
  runs (thicker_to_thinner_body curve n_frames growth_delta f0_0
          rand_5_colors instance_i (curr_end_growth, curr_thickness)) s
       (fsub curr_end_growth growth_delta,
        fadd curr_thickness thickness_delta)
       (add_instance curve "curve_cpy_thicker_to_thinner_collection" "CUBIC"
          o0 c0
          (InstanceParams (Int 0) (Int n_frames) f0_0 curr_end_growth
             curr_thickness col) s).
Proof.
  intros Ho Hc Had Hs Hcol. unfold thicker_to_thinner_body.
  eapply runs_bind; [by eapply runs_copy_obj|].
  set (ob := fresh_string curve (objects s)).
  set (d := fresh_string (data o0) (curves s)).
  eapply runs_bind.
  { eapply runs_animate_curve_growth; [scene_lookup|scene_lookup|done]. }
  cbn [actions with_objects with_curves]. rewrite actions_link_into.
  set (a := fresh_string (d +:+ "Action") (actions s)).
  eapply runs_bind.
  { eapply runs_set_animation_fcurve;
      [scene_lookup|scene_lookup|reflexivity|scene_lookup]. }
  step runs_data_of. step runs_set_bevel_depth.
  step runs_data_of.
  eapply runs_bind.
  { eapply runs_keyframe_insert_next;
      [scene_lookup|reflexivity|scene_lookup|reflexivity]. }
  eapply runs_bind; [by apply runs_need|].
  eapply runs_bind; [by apply runs_create_material|].
  step runs_data_of.
  eapply runs_bind; [eapply runs_materials_append; scene_lookup|].
  eapply runs_eq; [apply runs_ret|].
  unfold add_instance. fold ob d a. cbn [fcurves fmap list_fmap].
  autorewrite with scene_nf. reflexivity.
Qed.


Lemma add_frame_start delta_frame i :
  add (frame_start delta_frame i) (Float delta_frame)
  = Ok (frame_start delta_frame (S i)).
Proof. destruct i; reflexivity. Qed.

Lemma runs_thinner_to_thicker_body s curve delta_frame growth_delta
    rand_5_colors instance_i curr_frame frame_end curr_start_growth
    curr_thickness o0 c0 col :
  objects s !! curve = Some o0 →
  curves s !! data o0 = Some c0 →
  action_of c0 = None →
  consistent s →
  rand_5_colors !! Z.to_nat (instance_i mod 2) = Some col →
  add curr_frame (Float delta_frame) = Ok frame_end →
  runs (thinner_to_thicker_body curve delta_frame growth_delta
          rand_5_colors instance_i
          (curr_frame, curr_start_growth, curr_thickness)) s
       (frame_end, fadd curr_start_growth growth_delta,
        fadd curr_thickness thickness_delta)
       (add_instance curve "curve_cpy_thinner_to_thicker_collection" "LINEAR"
          o0 c0
          (InstanceParams curr_frame frame_end curr_start_growth
             (fadd curr_start_growth growth_delta) curr_thickness col) s).
Proof.
  intros Ho Hc Had Hs Hcol Hadd. unfold thinner_to_thicker_body.
  eapply runs_bind; [by eapply runs_copy_obj|].
  set (ob := fresh_string curve (objects s)).
  set (d := fresh_string (data o0) (curves s)).
  eapply runs_bind; [by apply runs_lift|].
  eapply runs_bind.
  { eapply runs_animate_curve_growth; [scene_lookup|scene_lookup|done]. }
  cbn [actions with_objects with_curves]. rewrite actions_link_into.
  set (a := fresh_string (d +:+ "Action") (actions s)).
  eapply runs_bind.
  { eapply runs_set_animation_fcurve;
      [scene_lookup|scene_lookup|reflexivity|scene_lookup]. }
  eapply runs_bind; [by apply runs_lift|].
  step runs_data_of. step runs_set_bevel_depth.
  step runs_data_of.
  eapply runs_bind.
  { eapply runs_keyframe_insert_next;
      [scene_lookup|reflexivity|scene_lookup|reflexivity]. }
  eapply runs_bind; [by apply runs_need|].
  eapply runs_bind; [by apply runs_create_material|].
  step runs_data_of.
  eapply runs_bind; [eapply runs_materials_append; scene_lookup|].
  eapply runs_eq; [apply runs_ret|].
  unfold add_instance. fold ob d a. cbn [fcurves fmap list_fmap].
  autorewrite with scene_nf. reflexivity.
Qed.

(** *** The scene a turn starts from *)

Lemma consistent_add_instance curve collection option o0 c0 p s :
  consistent s → consistent (add_instance curve collection option o0 c0 p s).
Proof.
  intros Hs. unfold add_instance.
  set (ob := fresh_string curve (objects s)).
  set (d := fresh_string (data o0) (curves s)).
  set (a := fresh_string (d +:+ "Action") (actions s)).
  apply (consistent_copy s ob d (instance_curve c0 a (ob +:+ "_mat") p)
           (Some collection)) in Hs.
  exact Hs.
Qed.

Lemma ready_add_instance curve collection option o0 c0 p s :
  ready curve o0 c0 s →
  ready curve o0 c0 (add_instance curve collection option o0 c0 p s).
Proof.
  intros (Ho & Hc & Hs). split_and!.
  - unfold add_instance. cbn [objects with_materials with_actions with_curves
                               with_objects].
    rewrite objects_link_into, lookup_insert_ne; [done|].
    apply fresh_string_ne; eauto.
  - unfold add_instance. cbn [curves with_materials with_actions with_curves
                               with_objects].
    rewrite curves_link_into, lookup_insert_ne; [done|].
    apply fresh_string_ne; eauto.
  - by apply consistent_add_instance.
Qed.

Lemma palette_index (palette : list color) i :
  length palette = 5%nat →
  palette !! Z.to_nat (Z.of_nat i mod 2) = Some (instance_color palette i).
Proof.
  intros Hlen. unfold instance_color.
  replace (Z.to_nat (Z.of_nat i mod 2)) with (i mod 2)%nat
    by (rewrite Z2Nat.inj_mod, Nat2Z.id by lia; reflexivity).
  destruct (palette !! (i mod 2)%nat) eqn:Hl; [done|].
  apply lookup_ge_None in Hl.
  pose proof (Nat.mod_upper_bound i 2). lia.
Qed.

(** *** The loops *)

Lemma runs_thicker_to_thinner_loop curve n_frames growth_delta palette o0 c0
    n i s :
  ready curve o0 c0 s →
  action_of c0 = None →
  length palette = 5%nat →
  runs (for_range
          (thicker_to_thinner_body curve n_frames growth_delta f0_0 palette)
          (Z.of_nat i) n (end_growth growth_delta i, thickness i)) s
       (end_growth growth_delta (i + n), thickness (i + n))
       (add_instances curve "curve_cpy_thicker_to_thinner_collection" "CUBIC"
          o0 c0 (thick_plan n_frames growth_delta palette) i n s).
Proof.
  intros Hr Had Hlen. revert i s Hr.
  induction n as [|n IH]; intros i s Hr.
  - rewrite Nat.add_0_r. apply runs_ret.
  - cbn [for_range add_instances].
    destruct Hr as (Ho & Hc & Hs).
    eapply runs_bind.
    { eapply runs_thicker_to_thinner_body; [done..|].
      by apply palette_index. }
    replace (Z.of_nat i + 1) with (Z.of_nat (S i)) by lia.
    replace (i + S n)%nat with (S i + n)%nat by lia.
    apply (IH (S i)). by apply ready_add_instance.
Qed.

Lemma runs_thinner_to_thicker_loop curve delta_frame growth_delta palette
    o0 c0 n i s :
  ready curve o0 c0 s →
  action_of c0 = None →
  length palette = 5%nat →
  runs (for_range
          (thinner_to_thicker_body curve delta_frame growth_delta palette)
          (Z.of_nat i) n
          (frame_start delta_frame i, start_growth growth_delta i,
           thickness i)) s
       (frame_start delta_frame (i + n), start_growth growth_delta (i + n),
        thickness (i + n))
       (add_instances curve "curve_cpy_thinner_to_thicker_collection" "LINEAR"
          o0 c0 (thin_plan delta_frame growth_delta palette) i n s).
Proof.
  intros Hr Had Hlen. revert i s Hr.
  induction n as [|n IH]; intros i s Hr.
  - rewrite Nat.add_0_r. apply runs_ret.
  - cbn [for_range add_instances].
    destruct Hr as (Ho & Hc & Hs).
    eapply runs_bind.
    { eapply runs_thinner_to_thicker_body; [done..| |].
      - by apply palette_index.
      - apply add_frame_start. }
    replace (Z.of_nat i + 1) with (Z.of_nat (S i)) by lia.
    replace (i + S n)%nat with (S i + n)%nat by lia.
    apply (IH (S i)). by apply ready_add_instance.
Qed.


(** *** The palette a strategy starts with *)

Lemma runs_bind_inv {A B} (c : M A) (k : A → M B) s b s2 :
  runs (bind c k) s b s2 → ∃ a s1, runs c s a s1 ∧ runs (k a) s1 b s2.
Proof.
  unfold runs, bind. destruct (c s) as [s1 [a|e]]; [eauto|discriminate].
Qed.

Lemma runs_lift_inv {A} (r : result A) s a s' :
  runs (lift r) s a s' → r = Ok a ∧ s' = s.
Proof. unfold runs, lift. by intros [= <- <-]. Qed.

Lemma runs_need_inv {A} e (o : option A) s a s' :
  runs (need e o) s a s' → o = Some a ∧ s' = s.
Proof. unfold runs. destruct o; simpl; [by intros [= <- <-]|discriminate]. Qed.

Lemma runs_noise_random_inv s r s' :
  runs noise_random s r s' →
  r = noise s (noise_pos s) ∧ s' = with_noise_pos S s.
Proof. unfold runs. by intros [= <- <-]. Qed.

Lemma runs_ret_inv {A} (a b : A) s s' : runs (ret a) s b s' → b = a ∧ s' = s.
Proof. unfold runs. by intros [= <- <-]. Qed.

Ltac invert_run H :=
  let H1 := fresh "H" in
  apply runs_bind_inv in H as (? & ? & H1 & H);
  first [ apply runs_noise_random_inv in H1 as [-> ->]
        | apply runs_lift_inv in H1 as [H1 ->]
        | apply runs_need_inv in H1 as [H1 ->] ].

(** Whenever the palette generator returns, it has drawn twelve values and
    returns five colours, and has touched nothing else. *)
Lemma generate_inv s palette sp :
  runs generate_5_random_colors_that_fit s palette sp →
  length palette = 5%nat ∧ sp = with_noise_pos (λ p, 12 + p)%nat s.
Proof.
  intros H. unfold generate_5_random_colors_that_fit in H.
  do 4 invert_run H. cbn [for_range] in H.
  do 5 (apply runs_bind_inv in H as (? & ? & H' & H); do 5 invert_run H';
        apply runs_ret_inv in H' as [-> ->]).
  apply runs_ret_inv in H as [-> ->]. done.
Qed.

Lemma ready_with_noise_pos curve o0 c0 f s :
  ready curve o0 c0 s → ready curve o0 c0 (with_noise_pos f s).
Proof. done. Qed.

(** *** The strategies, run *)

Lemma runs_grow_from_thicker_to_thinner s curve o0 c0 n_instances n_frames
    growth_delta palette sp :
  ready curve o0 c0 s →
  action_of c0 = None →
  growth_delta_of n_instances = Ok growth_delta →
  runs generate_5_random_colors_that_fit s palette sp →
  runs (grow_from_thicker_to_thinner curve n_instances n_frames) s tt
       (add_instances curve "curve_cpy_thicker_to_thinner_collection" "CUBIC"
          o0 c0 (thick_plan n_frames growth_delta palette)
          0 (Z.to_nat n_instances) sp).
Proof.
  intros Hr Had Hgd Hpal. unfold grow_from_thicker_to_thinner.
  destruct (generate_inv _ _ _ Hpal) as [Hlen ->].
  eapply runs_bind; [by apply runs_lift|].
  eapply runs_bind; [exact Hpal|].
  eapply runs_bind; [|apply runs_ret].
  by apply (runs_thicker_to_thinner_loop _ _ _ _ o0 c0 _ 0%nat).
Qed.

Lemma runs_grow_from_thinner_to_thicker s curve o0 c0 n_instances n_frames
    delta_frame growth_delta palette sp :
  ready curve o0 c0 s →
  action_of c0 = None →
  int_truediv n_frames n_instances = Ok delta_frame →
  growth_delta_of n_instances = Ok growth_delta →
  runs generate_5_random_colors_that_fit s palette sp →
  runs (grow_from_thinner_to_thicker curve n_instances n_frames) s tt
       (add_instances curve "curve_cpy_thinner_to_thicker_collection" "LINEAR"
          o0 c0 (thin_plan delta_frame growth_delta palette)
          0 (Z.to_nat n_instances) sp).
Proof.
  intros Hr Had Hdf Hgd Hpal. unfold grow_from_thinner_to_thicker.
  destruct (generate_inv _ _ _ Hpal) as [Hlen ->].
  eapply runs_bind; [by apply runs_lift|].
  eapply runs_bind; [by apply runs_lift|].
  eapply runs_bind; [exact Hpal|].
  eapply runs_bind; [|apply runs_ret].
  by apply (runs_thinner_to_thicker_loop _ _ _ _ o0 c0 _ 0%nat).
Qed.


(** *** What the loops leave *)

Lemma string_length_app (s t : string) :
  String.length (s +:+ t) = (String.length s + String.length t)%nat.
Proof. induction s as [|a s IH]; simpl; [done|]. by rewrite IH. Qed.

Lemma string_app_inj_r (s1 s2 t : string) : s1 +:+ t = s2 +:+ t → s1 = s2.
Proof.
  revert s2. induction s1 as [|a s1 IH]; intros [|b s2] H; simpl in H.
  - done.
  - apply (f_equal String.length) in H.
    rewrite !string_length_app in H. simpl in H. lia.
  - apply (f_equal String.length) in H.
    rewrite !string_length_app in H. simpl in H. lia.
  - injection H as -> H. f_equal. by apply IH.
Qed.

Lemma members_add_instance curve collection option o0 c0 p s :
  members (add_instance curve collection option o0 c0 p s) collection
  = members s collection ++ [fresh_string curve (objects s)].
Proof.
  unfold members, add_instance, link_into.
  cbn [collections with_materials with_actions with_curves with_objects].
  destruct (collections s !! collection) as [obs|] eqn:Hc; simpl;
    by rewrite lookup_insert_eq.
Qed.

Lemma is_instance_add_instance curve collection option o0 c0 p s :
  is_instance (add_instance curve collection option o0 c0 p s)
              (fresh_string curve (objects s)) c0 option p.
Proof.
  unfold add_instance. eexists _, _.
  cbn [objects curves actions materials with_materials with_actions
       with_curves with_objects].
  split_and!; apply lookup_insert_eq.
Qed.

Lemma add_instances_spec curve collection option o0 c0 plan n i s :
  ready curve o0 c0 s →
  let s' := add_instances curve collection option o0 c0 plan i n s in
  ∃ names,
    length names = n ∧
    NoDup names ∧
    (∀ ob, ob ∈ names → objects s !! ob = None) ∧
    members s' collection = members s collection ++ names ∧
    dom (objects s') = dom (objects s) ∪ list_to_set names ∧
    (∀ j ob, names !! j = Some ob →
       is_instance s' ob c0 option (plan (i + j)%nat)) ∧
    (∀ k o, objects s !! k = Some o → objects s' !! k = Some o) ∧
    (∀ k c, curves s !! k = Some c → curves s' !! k = Some c) ∧
    (∀ k a, actions s !! k = Some a → actions s' !! k = Some a) ∧
    paints_only names s s'.
Proof.
  revert i s. induction n as [|n IH]; intros i s Hr; cbn zeta.
  - exists []. cbn [add_instances]. split_and!; try done.
    + apply NoDup_nil_2.
    + intros ob Hob. by apply elem_of_nil in Hob.
    + by rewrite app_nil_r.
    + simpl. by rewrite union_empty_r_L.
  - cbn [add_instances].
    set (s1 := add_instance curve collection option o0 c0 (plan i) s).
    assert (Hmat1 : materials s1
              = <[fresh_string curve (objects s) +:+ "_mat"
                    := diffuse_material (ip_color (plan i))]> (materials s)).
    { unfold s1, add_instance.
      cbn [materials with_materials with_actions with_curves with_objects].
      by rewrite materials_link_into. }
    set (ob1 := fresh_string curve (objects s)).
    assert (Hnew : objects s !! ob1 = None) by apply fresh_string_fresh.
    assert (Hobj1 : objects s1 = <[ob1 := Object (fresh_string (data o0)
                       (curves s)) None]> (objects s)).
    { unfold s1, add_instance.
      cbn [objects with_materials with_actions with_curves with_objects].
      by rewrite objects_link_into. }
    destruct (IH (S i) s1 (ready_add_instance _ _ _ _ _ _ _ Hr))
      as (names & Hlen & Hnd & Hfresh & Hmem & Hdom & Hinst & Hfo & Hfc
          & Hfa & Hfm).
    fold s1 in Hmem, Hdom, Hinst, Hfo, Hfc, Hfa, Hfm.
    assert (Hnotin : ob1 ∉ names).
    { intros Hin. apply Hfresh in Hin. rewrite Hobj1, lookup_insert_eq in Hin.
      discriminate. }
    exists (ob1 :: names). split_and!.
    + simpl. by rewrite Hlen.
    + by apply NoDup_cons_2.
    + intros ob [->|Hin]%elem_of_cons; [done|].
      apply Hfresh in Hin. rewrite Hobj1 in Hin.
      apply lookup_insert_None in Hin as [? _]. done.
    + rewrite Hmem. unfold s1. rewrite members_add_instance.
      by rewrite <- app_assoc.
    + rewrite Hdom, Hobj1, dom_insert_L. simpl.
      by rewrite (comm_L (∪) {[ob1]}), <- (assoc_L (∪)).
    + intros [|j] ob Hj; simpl in Hj.
      * injection Hj as <-. rewrite Nat.add_0_r.
        destruct (is_instance_add_instance curve collection option o0 c0
                    (plan i) s) as (d & a & Ho & Hc & Ha & Hm).
        fold s1 ob1 in Ho, Hc, Ha, Hm.
        exists d, a. split_and!; [by apply Hfo|by apply Hfc|by apply Hfa|].
        rewrite Hfm; [done|]. intros ob Hob Heq.
        apply string_app_inj_r in Heq as ->. done.
      * replace (i + S j)%nat with (S i + j)%nat by lia. by apply Hinst.
    + intros k o Hk. apply Hfo. rewrite Hobj1.
      rewrite lookup_insert_ne; [done|]. congruence.
    + intros k c Hk. apply Hfc. unfold s1, add_instance.
      cbn [curves with_materials with_actions with_curves with_objects].
      rewrite curves_link_into, lookup_insert_ne; [done|].
      apply fresh_string_ne; eauto.
    + intros k a Hk. apply Hfa. unfold s1, add_instance.
      cbn [actions with_materials with_actions with_curves with_objects].
      rewrite actions_link_into, lookup_insert_ne; [done|].
      apply fresh_string_ne; eauto.
    + intros m Hne. rewrite Hfm.
      * rewrite Hmat1, lookup_insert_ne; [done|].
        intros Heq. apply (Hne ob1); [by left|done].
      * intros ob Hob. apply Hne. by right.
Qed.


(** Observing an instance. *)
Lemma fcurves_of_instance s ob c0 option p :
  is_instance s ob c0 option p →
  fcurves_of s ob = Some (instance_fcurves option p).
Proof.
  intros (d & a & Ho & Hc & Ha & _). unfold fcurves_of.
  rewrite Ho. simpl. rewrite Hc. simpl. by rewrite Ha.
Qed.

Lemma keys_of_instance s ob c0 option p :
  is_instance s ob c0 option p →
  keys_of s ob "bevel_factor_start"
    = Some [Keyframe (ip_frame_start p) (ip_growth_start p)
                     option "EASE_OUT"] ∧
  keys_of s ob "bevel_factor_end"
    = Some (shape_key option <$>
              insert_key (ip_frame_end p) (ip_growth_end p)
                [Keyframe (ip_frame_start p) (ip_growth_start p)
                          "BEZIER" "AUTO"]) ∧
  keys_of s ob "bevel_depth"
    = Some [Keyframe (Int 0) (ip_thickness p) "BEZIER" "AUTO"].
Proof.
  intros Hi. unfold keys_of. rewrite (fcurves_of_instance _ _ _ _ _ Hi).
  done.
Qed.

Lemma materials_of_instance s ob c0 option p :
  is_instance s ob c0 option p →
  materials_of s ob = Some (cu_materials c0 ++ [ob +:+ "_mat"]) ∧
  material_color s (ob +:+ "_mat") = Some (RGBA (ip_color p) f1_0).
Proof.
  intros (d & a & Ho & Hc & _ & Hm). unfold materials_of, material_color.
  rewrite Ho. simpl. rewrite Hc, Hm. done.
Qed.

(** Both strategies, run: the scene after the palette is drawn gets one
    instance per turn. *)
Lemma runs_grow st s curve o0 c0 n_instances n_frames plan palette sp :
  ready curve o0 c0 s →
  action_of c0 = None →
  plan_of st n_instances n_frames palette = Ok plan →
  runs generate_5_random_colors_that_fit s palette sp →
  runs (grow st curve n_instances n_frames) s tt
       (add_instances curve (collection_of st) (option_of st) o0 c0 plan
          0 (Z.to_nat n_instances) sp).
Proof.
  intros Hr Had Hplan Hpal. destruct st; simpl in Hplan |- *.
  - destruct (growth_delta_of n_instances) as [gd|] eqn:Hgd; [|done].
    injection Hplan as <-. by eapply runs_grow_from_thicker_to_thinner.
  - destruct (int_truediv n_frames n_instances) as [df|] eqn:Hdf; [|done].
    destruct (growth_delta_of n_instances) as [gd|] eqn:Hgd; [|done].
    injection Hplan as <-. by eapply runs_grow_from_thinner_to_thicker.
Qed.

(** What a run of either strategy leaves: as many new objects as there are
    instances, linked in order to the strategy's collection, each an
    instance made as planned; what was in the scene stays. *)
Lemma grow_spec st s curve o0 c0 n_instances n_frames plan palette sp :
  ready curve o0 c0 s →
  action_of c0 = None →
  0 ≤ n_instances →
  plan_of st n_instances n_frames palette = Ok plan →
  runs generate_5_random_colors_that_fit s palette sp →
  ∃ s' names,
    runs (grow st curve n_instances n_frames) s tt s' ∧
    Z.of_nat (length names) = n_instances ∧
    NoDup names ∧
    (∀ ob, ob ∈ names → objects s !! ob = None) ∧
    dom (objects s') = dom (objects s) ∪ list_to_set names ∧
    members s' (collection_of st) = members s (collection_of st) ++ names ∧
    (∀ i ob, names !! i = Some ob →
       is_instance s' ob c0 (option_of st) (plan i)) ∧
    (∀ k o, objects s !! k = Some o → objects s' !! k = Some o) ∧
    (∀ k c, curves s !! k = Some c → curves s' !! k = Some c) ∧
    (∀ k a, actions s !! k = Some a → actions s' !! k = Some a).
Proof.
  intros Hr Had Hn Hplan Hpal.
  destruct (generate_inv _ _ _ Hpal) as [Hlen Hsp].
  assert (Hr' : ready curve o0 c0 sp) by (subst sp; exact Hr).
  destruct (add_instances_spec curve (collection_of st) (option_of st) o0 c0
              plan (Z.to_nat n_instances) 0 sp Hr')
    as (names & Hl & Hnd & Hfresh & Hmem & Hdom & Hinst & Hfo & Hfc & Hfa & _).
  eexists _, names. split; [by eapply runs_grow|].
  subst sp. split_and!; try done. lia.
Qed.


Lemma compare_int a b : compare (Int a) (Int b) = Some (a ?= b).
Proof. by destruct a, b. Qed.

Lemma thick_end_keys_insert n_frames v :
  shape_key "CUBIC" <$>
    insert_key (Int n_frames) v [Keyframe (Int 0) f0_0 "BEZIER" "AUTO"]
  = thick_end_keys n_frames v.
Proof.
  unfold thick_end_keys. cbn [insert_key co_frame].
  unfold eqb, ltb. rewrite compare_int.
  destruct (Z.compare_spec n_frames 0) as [->|Hlt|Hgt].
  - done.
  - rewrite (proj2 (Z.eqb_neq _ _)) by lia.
    by rewrite (proj2 (Z.ltb_lt _ _)) by lia.
  - rewrite (proj2 (Z.eqb_neq _ _)) by lia.
    by rewrite (proj2 (Z.ltb_ge _ _)) by lia.
Qed.

Lemma grow_duplicates st s curve o0 c0 n_instances n_frames plan palette sp :
  source s curve o0 c0 →
  1 ≤ n_instances →
  plan_of st n_instances n_frames palette = Ok plan →
  runs generate_5_random_colors_that_fit s palette sp →
  ∃ s' names,
    runs (grow st curve n_instances n_frames) s tt s' ∧
    duplicates st s s' n_instances names ∧
    ∀ i ob, names !! i = Some ob →
      is_instance s' ob c0 (option_of st) (plan i).
Proof.
  intros [Hr Had] Hn Hplan Hpal.
  destruct (grow_spec st s curve o0 c0 n_instances n_frames plan palette sp)
    as (s' & names & Hrun & Hlen & Hnd & Hfresh & Hdom & Hmem & Hinst & _);
    [done | by apply action_of_none | lia | done | done |].
  by exists s', names.
Qed.

(** C1, as amended: for [n ≥ 1] instances (with [1.0 / n] evaluating to
    [growth_delta]) and any frame count [F], on a source whose curve data
    has no animation data, thick-to-thin makes exactly [n] new objects, and
    instance [i] has its start fraction keyed to [0.0] at frame [0] and its
    end fraction keyed at frame [F] to the binary64 value got from [1.0]
    by subtracting [growth_delta] [i] times (which is [1 - i/n] up to
    rounding only), the start key of the end fraction being at frame [0]
    with value [0.0] when [F] is not [0]. *)
Theorem thicker_to_thinner_end_fractions s curve o0 c0 n_instances n_frames
    growth_delta palette sp :
  source s curve o0 c0 →
  1 ≤ n_instances →
  growth_delta_of n_instances = Ok growth_delta →
  runs generate_5_random_colors_that_fit s palette sp →
  thick_to_thin_outcome s curve n_instances n_frames growth_delta.
Proof.
  intros Hsrc Hn Hgd Hpal.
  destruct (grow_duplicates ThickerToThinner s curve o0 c0 n_instances
              n_frames (thick_plan n_frames growth_delta palette) palette sp)
    as (s' & names & Hrun & Hdup & Hinst); [done|done| |done|].
  { simpl. by rewrite Hgd. }
  exists s', names. split_and!; [done..|].
  intros i ob Hi. apply Hinst in Hi.
  apply keys_of_instance in Hi as (Hs & He & _).
  cbn [thick_plan ip_frame_start ip_frame_end ip_growth_start ip_growth_end]
    in Hs, He.
  split; [done|]. by rewrite He, thick_end_keys_insert.
Qed.

(** C2, as amended: for [n ≥ 1] instances and [F] frames (with [F / n]
    and [1.0 / n] evaluating to [delta_frame] and [growth_delta]), on a
    source whose curve data has no animation data, thin-to-thick makes
    exactly [n] new objects; instance [i] grows over the window from
    [frame_start delta_frame i] to [frame_start delta_frame (i + 1)],
    these being [0] for [i = 0] and else the binary64 sums of [i] times
    [delta_frame], so that each window ends on the very frame the next one
    starts on; its start fraction is keyed at the first frame to the sum of
    [i] times [growth_delta], and its end fraction at the last frame to the
    sum of [i + 1] times [growth_delta]. *)
Theorem thinner_to_thicker_windows s curve o0 c0 n_instances n_frames
    delta_frame growth_delta palette sp :
  source s curve o0 c0 →
  1 ≤ n_instances →
  int_truediv n_frames n_instances = Ok delta_frame →
  growth_delta_of n_instances = Ok growth_delta →
  runs generate_5_random_colors_that_fit s palette sp →
  thin_to_thick_outcome s curve n_instances n_frames delta_frame growth_delta.
Proof.
  intros Hsrc Hn Hdf Hgd Hpal.
  destruct (grow_duplicates ThinnerToThicker s curve o0 c0 n_instances
              n_frames (thin_plan delta_frame growth_delta palette)
              palette sp)
    as (s' & names & Hrun & Hdup & Hinst); [done|done| |done|].
  { simpl. by rewrite Hdf, Hgd. }
  exists s', names. split_and!; [done..|].
  intros i ob Hi. apply Hinst in Hi.
  by apply keys_of_instance in Hi as (Hs & He & _).
Qed.

Lemma plan_thickness st n_instances n_frames palette plan i :
  plan_of st n_instances n_frames palette = Ok plan →
  ip_thickness (plan i) = thickness i ∧
  ip_color (plan i) = instance_color palette i.
Proof.
  destruct st; simpl.
  - destruct (growth_delta_of n_instances); [|done]. by intros [= <-].
  - destruct (int_truediv n_frames n_instances); [|done].
    destruct (growth_delta_of n_instances); [|done]. by intros [= <-].
Qed.

(** The thickness never decreases from an instance to the next. *)
Lemma thickness_le i :
  good (thickness i) = true ∧
  leb (Float (thickness i)) (Float (thickness (S i))) = true.
Proof.
  assert (Hg : good (thickness i) = true).
  { induction i as [|i IH]; [done|].
    change (thickness (S i)) with (fadd (thickness i) thickness_delta).
    by apply fadd_ge. }
  split; [done|].
  change (thickness (S i)) with (fadd (thickness i) thickness_delta).
  by apply fadd_ge.
Qed.

(** C3, as amended: in both strategies, on a source whose curve data has
    no animation data, the thickness of instance [i] is keyed once, at
    frame [0], and nowhere else, to the binary64 value got from [0.1] by
    adding [0.3] [i] times (which is [0.1 + 0.3 i] up to rounding only);
    this value never decreases from an instance to the next. *)
Theorem thickness_keyed_once st s curve o0 c0 n_instances n_frames plan
    palette sp :
  source s curve o0 c0 →
  1 ≤ n_instances →
  plan_of st n_instances n_frames palette = Ok plan →
  runs generate_5_random_colors_that_fit s palette sp →
  thickness_outcome st s curve n_instances n_frames.
Proof.
  intros Hsrc Hn Hplan Hpal.
  destruct (grow_duplicates st s curve o0 c0 n_instances n_frames plan
              palette sp)
    as (s' & names & Hrun & Hdup & Hinst); [done..|].
  exists s', names. split_and!; [done..|].
  intros i ob Hi. apply Hinst in Hi.
  apply keys_of_instance in Hi as (_ & _ & Ht).
  rewrite (proj1 (plan_thickness _ _ _ _ _ i Hplan)) in Ht.
  split; [done|]. apply thickness_le.
Qed.

(** *** Frames *)

Lemma good_frame_start delta_frame i :
  good delta_frame = true → good_frame (frame_start delta_frame i) = true.
Proof.
  intros Hd. induction i as [|i IH]; [done|].
  change (frame_start delta_frame (S i))
    with (step_frame delta_frame (frame_start delta_frame i)).
  unfold step_frame. destruct (frame_start delta_frame i) as [z|f];
    simpl in IH |- *.
  - apply Z.eqb_eq in IH as ->. by apply (fadd_ge (S754_zero false)).
  - by apply fadd_ge.
Qed.

Lemma frame_start_le delta_frame i :
  good delta_frame = true →
  leb (frame_start delta_frame i) (frame_start delta_frame (S i)) = true.
Proof.
  intros Hd. pose proof (good_frame_start delta_frame i Hd) as Hg.
  change (frame_start delta_frame (S i))
    with (step_frame delta_frame (frame_start delta_frame i)).
  unfold step_frame. destruct (frame_start delta_frame i) as [z|f];
    simpl in Hg.
  - apply Z.eqb_eq in Hg as ->. by apply (fadd_ge (S754_zero false)).
  - by apply fadd_ge.
Qed.

Lemma good_frame_nonneg x : good_frame x = true → leb (Int 0) x = true.
Proof.
  destruct x as [z|f]; simpl; intros H.
  - apply Z.eqb_eq in H as ->. done.
  - unfold leb, compare. simpl as_float.
    destruct f as [s|[]| |[] m e]; try done.
    by rewrite fcompare_zero_finite.
Qed.

Lemma leb_int a b : leb (Int a) (Int b) = (a <=? b).
Proof.
  unfold leb. rewrite compare_int. unfold Z.leb. by destruct (a ?= b).
Qed.

(** The frames of the keys of an instance are those of its growth
    animation and frame [0]. *)
Lemma instance_frames option p fc kf :
  fc ∈ instance_fcurves option p → kf ∈ keyframe_points fc →
  co_frame kf = ip_frame_start p ∨ co_frame kf = ip_frame_end p ∨
  co_frame kf = Int 0.
Proof.
  unfold instance_fcurves. rewrite !elem_of_cons, elem_of_nil.
  intros [->|[->|[->|[]]]]; cbn [keyframe_points insert_key co_frame].
  - rewrite list_elem_of_singleton. intros ->. by left.
  - destruct (eqb (ip_frame_end p) (ip_frame_start p));
      [|destruct (ltb (ip_frame_end p) (ip_frame_start p))];
      cbn [fmap list_fmap]; rewrite ?elem_of_cons, elem_of_nil;
      intros H; destruct_or!; subst; simpl; auto; done.
  - rewrite list_elem_of_singleton. intros ->. by right; right.
Qed.

(** C4, as amended: in both strategies, for [n ≥ 1] instances and
    [F ≥ 0] frames, on a source whose curve data has no animation data,
    every key of every instance is on a non-negative frame, and every
    growth animation ends on a frame not before the one it starts on.  In
    thick-to-thin the frames are the ints [0] and [F]; in thin-to-thick
    they are [0] and binary64 sums of [F / n], which need not be
    integers. *)
Theorem frames_nonneg_and_ordered st s curve o0 c0 n_instances n_frames plan
    palette sp :
  source s curve o0 c0 →
  1 ≤ n_instances →
  0 ≤ n_frames →
  plan_of st n_instances n_frames palette = Ok plan →
  runs generate_5_random_colors_that_fit s palette sp →
  frames_outcome st s curve n_instances n_frames plan.
Proof.
  intros Hsrc Hn HF Hplan Hpal.
  destruct (grow_duplicates st s curve o0 c0 n_instances n_frames plan
              palette sp)
    as (s' & names & Hrun & Hdup & Hinst); [done..|].
  exists s', names. split_and!; [done..|].
  intros i ob Hi p. apply Hinst in Hi. fold p in Hi.
  destruct (keys_of_instance _ _ _ _ _ Hi) as (Hks & Hke & _).
  assert (Hfr : leb (Int 0) (ip_frame_start p) = true ∧
                leb (Int 0) (ip_frame_end p) = true ∧
                leb (ip_frame_start p) (ip_frame_end p) = true ∧
                (st = ThickerToThinner →
                 is_int (ip_frame_start p) = true ∧
                 is_int (ip_frame_end p) = true)).
  { unfold p. destruct st; simpl in Hplan.
    - destruct (growth_delta_of n_instances) as [gd|]; [|done].
      injection Hplan as <-. simpl. rewrite !leb_int.
      split_and!; [done|by apply Z.leb_le|by apply Z.leb_le|done].
    - destruct (int_truediv n_frames n_instances) as [df|] eqn:Hdf; [|done].
      destruct (growth_delta_of n_instances) as [gd|]; [|done].
      injection Hplan as <-. cbn [thin_plan ip_frame_start ip_frame_end].
      assert (Hgood : good df = true) by (by eapply int_truediv_good).
      split_and!; [| |by apply frame_start_le|done];
        apply good_frame_nonneg; by apply good_frame_start. }
  destruct Hfr as (H0 & H0' & Hle & Hint).
  split_and!; [done..|].
  intros fcs fc kf Hfcs Hfc Hkf.
  rewrite (fcurves_of_instance _ _ _ _ _ Hi) in Hfcs. injection Hfcs as <-.
  destruct (instance_frames _ _ _ _ Hfc Hkf) as [Heq|[Heq|Heq]];
    rewrite Heq.
  - split; [done|]. intros Hst. by apply Hint.
  - split; [done|]. intros Hst. by apply Hint.
  - done.
Qed.

(** C9: with [n_instances = 0] both strategies raise [ZeroDivisionError]
    at their first division, the scene being exactly as it was: no object,
    key or material has been made and no random value drawn. *)
Theorem zero_instances_raise curve n_frames s :
  fails (grow_from_thicker_to_thinner curve 0 n_frames) s
        ZeroDivisionError s ∧
  fails (grow_from_thinner_to_thicker curve 0 n_frames) s
        ZeroDivisionError s.
Proof.
  split.
  - reflexivity.
  - unfold fails, grow_from_thinner_to_thicker, bind, lift.
    by destruct n_frames.
Qed.

End Growth.

(** ** Binary64 arithmetic: exact results and upper bounds *)

Module Rounding.
Import Py Script Spec Binary64.

(** *** Exact rounding *)

Lemma shr_1_even M :
  0 ≤ M →
  shr_1 {| shr_m := 2 * M; shr_r := false; shr_s := false |}
  = {| shr_m := M; shr_r := false; shr_s := false |}.
Proof. by destruct M. Qed.

Lemma iter_shr_1_exact n M :
  0 ≤ M →
  SpecFloat.iter_pos shr_1 n
    {| shr_m := M * 2 ^ Zpos n; shr_r := false; shr_s := false |}
  = {| shr_m := M; shr_r := false; shr_s := false |}.
Proof.
  revert M. induction n as [n IH|n IH|]; intros M HM; cbn [SpecFloat.iter_pos].
  - assert (H2n : 0 < 2 ^ Zpos n) by (by apply Z.pow_pos_nonneg).
    assert (Hp : 2 ^ Zpos n~1 = 2 * (2 ^ Zpos n * 2 ^ Zpos n)).
    { rewrite <- Z.pow_add_r, <- Z.pow_succ_r by lia. f_equal. lia. }
    rewrite Hp.
    replace (M * (2 * (2 ^ Zpos n * 2 ^ Zpos n)))
      with (2 * (M * 2 ^ Zpos n * 2 ^ Zpos n)) by lia.
    rewrite shr_1_even by nia. rewrite IH by nia. by apply IH.
  - assert (H2n : 0 < 2 ^ Zpos n) by (by apply Z.pow_pos_nonneg).
    assert (Hp : 2 ^ Zpos n~0 = 2 ^ Zpos n * 2 ^ Zpos n).
    { rewrite <- Z.pow_add_r by lia. f_equal. lia. }
    rewrite Hp, Z.mul_assoc. rewrite IH by nia. by apply IH.
  - change (2 ^ 1) with 2. rewrite (Z.mul_comm M 2). by apply shr_1_even.
Qed.

(** A valid float scaled by a power of two is rounded back to itself. *)
Lemma binary_round_aux_exact s m e k :
  bounded prec emax m e = true → 0 ≤ k →
  binary_round_aux prec emax s (Zpos m * 2 ^ k) (e - k) loc_Exact
  = S754_finite s m e.
Proof.
  intros Hb Hk. apply andb_true_iff in Hb as [Hcan Hmax].
  unfold canonical_mantissa in Hcan. apply Z.eqb_eq in Hcan.
  change (Zpos (digits2_pos m)) with (Zdigits2 (Zpos m)) in Hcan.
  unfold binary_round_aux, shr_fexp.
  rewrite digits_mul_pow2 by lia.
  replace (Zdigits2 (Zpos m) + k + (e - k)) with (Zdigits2 (Zpos m) + e) by lia.
  rewrite Hcan. replace (e - (e - k)) with k by lia.
  assert (Hshr : shr (shr_record_of_loc (Zpos m * 2 ^ k) loc_Exact) (e - k) k
                 = ({| shr_m := Zpos m; shr_r := false; shr_s := false |}, e)).
  { destruct k as [|k|k]; [| |lia].
    - simpl. f_equal; [f_equal|]; lia.
    - unfold shr, shr_record_of_loc. rewrite iter_shr_1_exact by lia.
      f_equal. lia. }
  rewrite Hshr. cbn [shr_m loc_of_shr_record round_nearest_even].
  rewrite Hcan, Z.sub_diag. cbn [shr shr_record_of_loc shr_m].
  by rewrite Hmax.
Qed.

Lemma fmul_one s m e :
  bounded prec emax m e = true →
  fmul f1_0 (S754_finite s m e) = S754_finite s m e.
Proof.
  intros Hb. unfold fmul, f1_0, SFmul.
  rewrite Pos2Z.inj_mul, Z.mul_comm.
  change (Zpos 4503599627370496) with (2 ^ 52).
  replace (-52 + e) with (e - 52) by lia.
  simpl xorb. by apply binary_round_aux_exact.
Qed.

(** *** Division of positive floats *)

Lemma div_core_general m1 e1 m2 e2 :
  let '(q, e', l) := SFdiv_core_binary prec emax (Zpos m1) e1 (Zpos m2) e2 in
  0 ≤ q ∧ e' ≤ fexp prec emax (Zdigits2 q + e').
Proof.
  unfold SFdiv_core_binary.
  set (d1 := Zdigits2 (Zpos m1)). set (d2 := Zdigits2 (Zpos m2)).
  set (e' := Z.min (fexp prec emax (d1 + e1 - (d2 + e2))) (e1 - e2)).
  set (s := e1 - e2 - e').
  assert (Hs : 0 ≤ s) by (unfold s, e'; lia).
  set (m' := match s with
             | 0 => Zpos m1
             | Zpos _ => Z.shiftl (Zpos m1) s
             | Zneg _ => 0
             end).
  assert (Hm' : m' = Zpos m1 * 2 ^ s).
  { unfold m'. destruct s as [|p|p] eqn:Hsp.
    - simpl. lia.
    - by rewrite Z.shiftl_mul_pow2.
    - lia. }
  assert (Hq : (Z.div_eucl m' (Zpos m2)).1 = m' / Zpos m2) by done.
  destruct (Z.div_eucl m' (Zpos m2)) as [q r]. simpl in Hq. subst q.
  assert (H2s : 0 < 2 ^ s) by (by apply Z.pow_pos_nonneg).
  split.
  - apply Z.div_pos; [|lia]. rewrite Hm'. nia.
  - rewrite fexp_eq.
    destruct (Z_le_gt_dec e' (-1074)) as [Hsub|Hnor]; [lia|].
    assert (He' : e' ≤ d1 + e1 - (d2 + e2) - 53).
    { unfold e' in *. rewrite fexp_eq in *. lia. }
    assert (52 < Zdigits2 (m' / Zpos m2)); [|lia].
    apply digits_gt; [lia|].
    apply Z.div_le_lower_bound; [lia|].
    destruct (digits_pos (Zpos m1) ltac:(lia)) as [Hlo1 _].
    destruct (digits_pos (Zpos m2) ltac:(lia)) as [_ Hhi2].
    fold d1 in Hlo1. fold d2 in Hhi2.
    pose proof (digits_nonneg (Zpos m2)) as Hd2. fold d2 in Hd2.
    assert (Hd1 : 1 ≤ d1).
    { unfold d1. simpl. lia. }
    rewrite Hm'.
    assert (Hstep : 2 ^ 52 * 2 ^ d2 ≤ 2 ^ (d1 - 1) * 2 ^ s).
    { rewrite <- !Z.pow_add_r by lia. apply Z.pow_le_mono_r; [lia|].
      unfold s. lia. }
    assert (0 < 2 ^ 52) by done.
    nia.
Qed.

Lemma fdiv_finite_good m1 e1 m2 e2 :
  good (fdiv (S754_finite false m1 e1) (S754_finite false m2 e2)) = true.
Proof.
  unfold fdiv, SFdiv.
  pose proof (div_core_general m1 e1 m2 e2) as Hcore.
  destruct (SFdiv_core_binary prec emax (Zpos m1) e1 (Zpos m2) e2)
    as [[mz ez] lz].
  destruct Hcore as [Hq He].
  pose proof (binary_round_aux_spec mz ez lz Hq He) as Haux.
  cbv zeta in Haux. simpl xorb.
  destruct (binary_round_aux prec emax false mz ez lz) as [s|s| |s m' e'];
    simpl; try done.
  - by subst s.
  - destruct Haux as (-> & Hbd & _). done.
Qed.

(** Rounding a positive value gives a non-negative valid float. *)
Lemma binary_round_good p e : good (binary_round prec emax false p e) = true.
Proof.
  unfold binary_round.
  set (g := fexp prec emax (Zpos (digits2_pos p) + e)).
  destruct (shl_align_spec p e g) as [Hez Hmz].
  destruct (shl_align p e g) as [mz ez]. simpl in Hez, Hmz.
  assert (Hdig : Zdigits2 (Zpos mz) + ez = Zpos (digits2_pos p) + e).
  { rewrite Hmz, digits_mul_pow2 by lia. simpl Zdigits2. lia. }
  pose proof (binary_round_aux_spec (Zpos mz) ez loc_Exact ltac:(lia)) as Haux.
  rewrite Hdig in Haux. fold g in Haux. specialize (Haux ltac:(lia)).
  cbv zeta in Haux.
  destruct (binary_round_aux prec emax false (Zpos mz) ez loc_Exact)
    as [s|s| |s m' e']; simpl; try done.
  - by subst s.
  - destruct Haux as (-> & Hbd & _). done.
Qed.

Lemma round_int_good z : 0 ≤ z → good (round_int z) = true.
Proof.
  intros Hz. unfold round_int, binary_normalize.
  destruct z as [|p|p]; [done| |lia]. apply binary_round_good.
Qed.

(** [1.0 / n] is a non-negative valid float for a positive [n]. *)
Lemma growth_delta_good n growth_delta :
  1 ≤ n → growth_delta_of n = Ok growth_delta → good growth_delta = true.
Proof.
  intros Hn. unfold growth_delta_of, float_of_int, float_truediv.
  pose proof (round_int_good n ltac:(lia)) as Hg.
  destruct (round_int n) as [s|s| |s m e]; simpl; try done.
  intros [= <-]. simpl in Hg. apply andb_true_iff in Hg as [Hs _].
  apply negb_true_iff in Hs as ->. apply fdiv_finite_good.
Qed.

(** *** Rounding an exact value: the full picture *)

Lemma shr_exact_multiple m e n :
  0 ≤ m → 0 ≤ n → m mod 2 ^ n = 0 →
  shr (shr_record_of_loc m loc_Exact) e n
  = ({| shr_m := m / 2 ^ n; shr_r := false; shr_s := false |}, e + n).
Proof.
  intros Hm Hn Hmod.
  destruct n as [|n|n]; [| |lia].
  - simpl. rewrite Z.div_1_r, Z.add_0_r. done.
  - unfold shr, shr_record_of_loc.
    assert (Heq : m = m / 2 ^ Zpos n * 2 ^ Zpos n).
    { rewrite (Z.div_mod m (2 ^ Zpos n)) at 1 by lia. lia. }
    rewrite Heq at 1. rewrite iter_shr_1_exact; [done|].
    apply Z.div_pos; lia.
Qed.

(** What [binary_round_aux] makes of a non-negative mantissa whose
    exponent is not above its target exponent [g]: the mantissa truncated
    to [g], or the next one when bits were lost, renormalised on a carry. *)
Lemma binary_round_aux_cases m e l :
  0 ≤ m →
  let g := fexp prec emax (Zdigits2 m + e) in
  e ≤ g →
  let lo := m / 2 ^ (g - e) in
  ∃ m2,
    lo ≤ m2 ≤ lo + 1 ∧
    (l = loc_Exact → m mod 2 ^ (g - e) = 0 → m2 = lo) ∧
    lo < 2 ^ 53 ∧
    (-1074 < g → 2 ^ 52 ≤ lo) ∧
    binary_round_aux prec emax false m e l
    = if m2 =? 0 then S754_zero false
      else if m2 <? 2 ^ 53 then
        if g <=? 971 then S754_finite false (Z.to_pos m2) g
        else S754_infinity false
      else
        if g + 1 <=? 971 then S754_finite false (2 ^ 52)%positive (g + 1)
        else S754_infinity false.
Proof.
  intros Hm g Hn lo. unfold binary_round_aux, shr_fexp. fold g.
  set (n := g - e) in *. assert (Hn0 : 0 ≤ n) by (unfold n; lia).
  assert (H2n : 0 < 2 ^ n) by (by apply Z.pow_pos_nonneg).
  assert (Hlo0 : 0 ≤ lo) by (by apply Z.div_pos).
  assert (Hex : l = loc_Exact → m mod 2 ^ n = 0 →
            shr (shr_record_of_loc m l) e n
            = ({| shr_m := lo; shr_r := false; shr_s := false |}, e + n))
    by (intros ->; by apply shr_exact_multiple).
  destruct (shr_m_e (shr_record_of_loc m l) e n) as [Hm1 He1];
    [by rewrite shr_record_of_loc_m|].
  rewrite shr_record_of_loc_m, Z.max_l in Hm1 by done.
  rewrite Z.max_l in He1 by done.
  destruct (shr (shr_record_of_loc m l) e n) as [r1 e1].
  simpl in Hm1, He1. fold lo in Hm1. rewrite He1.
  assert (Hex' : l = loc_Exact → m mod 2 ^ n = 0 →
            r1 = {| shr_m := lo; shr_r := false; shr_s := false |}).
  { intros Hl Hmod. apply Hex in Hmod; [|done]. by injection Hmod. }
  clear Hex.
  replace (e + n) with g in * by (unfold n; lia).
  clear He1 e1.
  assert (Hd : Zdigits2 m + e - 53 ≤ g ∧ -1074 ≤ g).
  { unfold g. rewrite fexp_eq. lia. }
  assert (Hlohi : lo < 2 ^ 53).
  { apply Z.div_lt_upper_bound; [done|].
    rewrite <- Z.pow_add_r by lia.
    eapply Z.lt_le_trans; [by apply digits_lt|].
    apply Z.pow_le_mono_r; [lia|]. unfold n. lia. }
  assert (Hlolo : -1074 < g → 2 ^ 52 ≤ lo).
  { intros Hg.
    assert (Hg' : g = Zdigits2 m + e - 53)
      by (unfold g in *; rewrite fexp_eq in *; lia).
    assert (Hmpos : 0 < m).
    { destruct (decide (m = 0)) as [->|]; [|lia]. simpl in Hg'. lia. }
    apply Z.div_le_lower_bound; [done|].
    rewrite <- Z.pow_add_r by lia.
    eapply Z.le_trans; [|apply (digits_pos m Hmpos)].
    apply Z.pow_le_mono_r; [lia|]. unfold n. lia. }
  pose proof (round_nearest_even_bounds (shr_m r1) (loc_of_shr_record r1))
    as Hrne.
  set (m2 := round_nearest_even (shr_m r1) (loc_of_shr_record r1)) in *.
  rewrite Hm1 in Hrne.
  exists m2. split; [done|]. split.
  { intros Hl Hmod. unfold m2. by rewrite (Hex' Hl Hmod). }
  split; [done|]. split; [done|].
  destruct (Z_lt_le_dec m2 (2 ^ 53)) as [Hsmall|Hcarry].
  - assert (Hd2 : Zdigits2 m2 ≤ 53) by (apply digits_le; lia).
    assert (Hn2 : fexp prec emax (Zdigits2 m2 + g) - g ≤ 0)
      by (rewrite fexp_eq; lia).
    destruct (shr_m_e (shr_record_of_loc m2 loc_Exact) g
                (fexp prec emax (Zdigits2 m2 + g) - g)) as [Hm3 He3];
      [simpl; lia|].
    rewrite Z.max_r in Hm3, He3 by done.
    destruct (shr (shr_record_of_loc m2 loc_Exact) g
                (fexp prec emax (Zdigits2 m2 + g) - g)) as [r3 e3].
    simpl in Hm3, He3. rewrite Z.div_1_r in Hm3.
    rewrite Hm3. rewrite Z.add_0_r in He3. subst e3.
    rewrite (proj2 (Z.ltb_lt _ _) Hsmall).
    change (emax - prec) with 971.
    destruct m2 as [|m'|m'] eqn:Hm2; [done| |lia]. done.
  - assert (Hm2 : m2 = 2 ^ 53) by lia.
    assert (Hd2 : Zdigits2 m2 = 54).
    { apply Z.le_antisymm.
      - apply digits_le; [lia|lia|]. rewrite Hm2. done.
      - assert (53 < Zdigits2 m2) by (apply digits_gt; lia). lia. }
    assert (Hn2 : fexp prec emax (Zdigits2 m2 + g) - g = 1)
      by (rewrite fexp_eq; lia).
    rewrite Hn2.
    destruct (shr_m_e (shr_record_of_loc m2 loc_Exact) g 1) as [Hm3 He3];
      [simpl; lia|].
    destruct (shr (shr_record_of_loc m2 loc_Exact) g 1) as [r3 e3].
    change (Z.max 1 0) with 1 in Hm3, He3.
    simpl in Hm3, He3. rewrite Hm3, Hm2.
    change (2 ^ 53 / 2 ^ 1) with (Zpos (2 ^ 52)). subst e3.
    change (emax - prec) with 971. done.
Qed.

(** A valid float has a mantissa below [2^53] and an exponent in range. *)
Lemma bounded_range m e :
  bounded prec emax m e = true → Zpos m < 2 ^ 53 ∧ -1074 ≤ e ≤ 971.
Proof.
  intros Hb. apply andb_true_iff in Hb as [Hcan Hmax].
  unfold canonical_mantissa in Hcan. apply Z.eqb_eq in Hcan.
  change (Zpos (digits2_pos m)) with (Zdigits2 (Zpos m)) in Hcan.
  rewrite fexp_eq in Hcan. apply Z.leb_le in Hmax.
  change (emax - prec) with 971 in Hmax.
  split; [|lia].
  eapply Z.lt_le_trans; [apply digits_lt; lia|].
  apply Z.pow_le_mono_r; lia.
Qed.

(** *** Rounding never goes above a representable upper bound

    [binary_round_aux] of a non-negative mantissa is neither a NaN nor an
    infinity when a valid float [my * 2^ey] is not below the value it
    stands for (the mantissa itself, or more when the location is not
    exact): it is a zero or a valid float not above [my * 2^ey]. *)
Lemma binary_round_aux_le m e l my ey :
  0 ≤ m →
  e ≤ fexp prec emax (Zdigits2 m + e) →
  bounded prec emax my ey = true →
  m * 2 ^ (e - Z.min e ey) ≤ Zpos my * 2 ^ (ey - Z.min e ey) →
  (l ≠ loc_Exact →
   m * 2 ^ (e - Z.min e ey) < Zpos my * 2 ^ (ey - Z.min e ey)) →
  match binary_round_aux prec emax false m e l with
  | S754_zero s => s = false
  | S754_finite s m' e' =>
      s = false ∧ bounded prec emax m' e' = true ∧
      Zpos m' * 2 ^ (e' - Z.min e' ey) ≤ Zpos my * 2 ^ (ey - Z.min e' ey)
  | _ => False
  end.
Proof.
  intros Hm He Hb Hle Hlt0.
  destruct (bounded_range my ey Hb) as [Hmy [Hey1 Hey2]].
  pose proof (binary_round_aux_spec m e l Hm He) as Hspec.
  destruct (binary_round_aux_cases m e l Hm He)
    as (m2 & Hm2 & Hexact & Hlohi & Hlolo & Heq).
  cbv zeta in Hspec.
  set (g := fexp prec emax (Zdigits2 m + e)) in *.
  set (n := g - e) in *. set (lo := m / 2 ^ n) in *.
  set (c0 := Z.min e ey) in *.
  assert (Hn0 : 0 ≤ n) by (unfold n; lia).
  assert (HN : 0 < 2 ^ n) by (by apply Z.pow_pos_nonneg).
  assert (HE : 0 < 2 ^ (e - c0)) by (apply Z.pow_pos_nonneg; lia).
  assert (HQ : 0 < 2 ^ (ey - c0)) by (apply Z.pow_pos_nonneg; lia).
  assert (HP : 2 ^ (g - c0) = 2 ^ n * 2 ^ (e - c0)).
  { rewrite <- Z.pow_add_r by lia. f_equal. unfold n. lia. }
  assert (Hlo0 : 0 ≤ lo) by (apply Z.div_pos; lia).
  assert (Hdiv : m = lo * 2 ^ n + m mod 2 ^ n).
  { unfold lo. rewrite (Z.div_mod m (2 ^ n)) at 1 by lia. lia. }
  pose proof (Z.mod_pos_bound m (2 ^ n) HN) as Hmod.
  (* the rounded mantissa, at the scale of [c0], is not above the bound *)
  assert (HA : m2 * 2 ^ (g - c0) ≤ Zpos my * 2 ^ (ey - c0)).
  { rewrite HP.
    assert (Hcase : (l = loc_Exact ∧ m mod 2 ^ n = 0) ∨
                    lo * (2 ^ n * 2 ^ (e - c0)) < Zpos my * 2 ^ (ey - c0)).
    { destruct (decide (m mod 2 ^ n = 0)) as [Hz|Hnz].
      - destruct l as [|c]; [by left|]. right.
        specialize (Hlt0 ltac:(done)). nia.
      - right. nia. }
    destruct Hcase as [[Hl Hz]|Hlt].
    - rewrite (Hexact Hl Hz). rewrite Hz, Z.add_0_r in Hdiv.
      rewrite Z.mul_assoc, <- Hdiv. done.
    -
      destruct (Z_le_gt_dec g ey) as [Hge|Hlt'].
      + assert (HQ' : 2 ^ (ey - c0) = 2 ^ (ey - g) * (2 ^ n * 2 ^ (e - c0))).
        { rewrite <- HP, <- Z.pow_add_r by lia. f_equal. lia. }
        assert (0 < 2 ^ (ey - g)) by (apply Z.pow_pos_nonneg; lia).
        rewrite HQ' in Hlt |- *.
        assert (lo < Zpos my * 2 ^ (ey - g)) by nia. nia.
      + specialize (Hlolo ltac:(lia)).
        assert (HP' : 2 ^ n * 2 ^ (e - c0) = 2 ^ (g - ey) * 2 ^ (ey - c0)).
        { rewrite <- HP, <- Z.pow_add_r by lia. f_equal. lia. }
        assert (2 ≤ 2 ^ (g - ey)).
        { change 2 with (2 ^ 1) at 1. apply Z.pow_le_mono_r; lia. }
        rewrite HP' in Hlt. nia. }
  assert (HPpos : 0 < 2 ^ (g - c0)) by (apply Z.pow_pos_nonneg; lia).
  (* hence no overflow *)
  assert (HB : 0 < m2 →
            (m2 < 2 ^ 53 → g ≤ 971) ∧ (2 ^ 53 ≤ m2 → g + 1 ≤ 971)).
  { intros Hpos. split.
    - intros Hsmall. destruct (Z_le_gt_dec g (-1074)) as [|Hnor]; [lia|].
      specialize (Hlolo ltac:(lia)).
      destruct (Z_le_gt_dec g ey) as [|Hgt]; [lia|].
      assert (HP' : 2 ^ (g - c0) = 2 ^ (g - ey) * 2 ^ (ey - c0)).
      { rewrite <- Z.pow_add_r by lia. f_equal. lia. }
      assert (2 ≤ 2 ^ (g - ey)).
      { change 2 with (2 ^ 1) at 1. apply Z.pow_le_mono_r; lia. }
      rewrite HP' in HA. nia.
    - intros Hbig. destruct (Z_lt_le_dec g ey) as [|Hge]; [lia|].
      assert (HP' : 2 ^ (g - c0) = 2 ^ (g - ey) * 2 ^ (ey - c0)).
      { rewrite <- Z.pow_add_r by lia. f_equal. lia. }
      assert (1 ≤ 2 ^ (g - ey)).
      { change 1 with (2 ^ 0) at 1. apply Z.pow_le_mono_r; lia. }
      rewrite HP' in HA. nia. }
  rewrite Heq in Hspec |- *. clear Heq.
  destruct (Z.eqb_spec m2 0) as [|Hne]; [done|].
  assert (Hpos : 0 < m2) by lia. destruct (HB Hpos) as [HB1 HB2].
  destruct (Z.ltb_spec m2 (2 ^ 53)) as [Hsmall|Hbig].
  - rewrite (proj2 (Z.leb_le _ _) (HB1 Hsmall)) in Hspec |- *.
    destruct Hspec as (_ & Hbd & _). split_and!; [done..|].
    rewrite Z2Pos.id by done.
    apply (scale_le _ _ g ey (Z.min g ey) c0); [lia..|done].
  - rewrite (proj2 (Z.leb_le _ _) (HB2 Hbig)) in Hspec |- *.
    destruct Hspec as (_ & Hbd & _). split_and!; [done..|].
    apply (scale_le _ _ (g + 1) ey (Z.min (g + 1) ey) c0); [lia..|].
    replace (g + 1 - c0) with (1 + (g - c0)) by lia.
    rewrite Z.pow_add_r by lia. change (2 ^ 1) with 2.
    change (Zpos (2 ^ 52)) with (2 ^ 52). 
    assert (m2 = 2 ^ 53) by lia. subst m2.
    change (2 ^ 53) with (2 ^ 52 * 2) in HA. lia.
Qed.

(** *** Scaling a float of [[0, 1]] *)

(** The product of a float in [[0, 1]] and a normal positive float is a
    zero or a valid positive float not above the latter. *)
Lemma fmul_unit_le r mc ec :
  unit_float r = true →
  bounded prec emax mc ec = true →
  2 ^ 52 ≤ Zpos mc →
  match fmul r (S754_finite false mc ec) with
  | S754_zero s => True
  | S754_finite s m' e' =>
      s = false ∧ bounded prec emax m' e' = true ∧
      Zpos m' * 2 ^ (e' - Z.min e' ec) ≤ Zpos mc * 2 ^ (ec - Z.min e' ec)
  | _ => False
  end.
Proof.
  unfold unit_float. intros [Hg Hle]%andb_true_iff Hb Hnorm.
  destruct r as [s|s| |s m e]; simpl in Hg; try done.
  - apply negb_true_iff in Hg as ->. done.
  - apply andb_true_iff in Hg as [Hs Hbr]. apply negb_true_iff in Hs as ->.
    unfold leb, compare in Hle. cbn [as_float] in Hle.
    rewrite fcompare_finite in Hle.
    assert (Hle' : Zpos m * 2 ^ (e - Z.min e 0) ≤ 1 * 2 ^ (0 - Z.min e 0)).
    { by destruct (Z.compare_spec (Zpos m * 2 ^ (e - Z.min e 0))
                                  (1 * 2 ^ (0 - Z.min e 0))); [lia|lia|]. }
    clear Hle. unfold fmul, SFmul. simpl xorb.
    enough (Hr : match binary_round_aux prec emax false (Zpos (m * mc))
                         (e + ec) loc_Exact with
                 | S754_zero s => s = false
                 | S754_finite s m' e' =>
                     s = false ∧ bounded prec emax m' e' = true ∧
                     Zpos m' * 2 ^ (e' - Z.min e' ec)
                       ≤ Zpos mc * 2 ^ (ec - Z.min e' ec)
                 | _ => False
                 end).
    { by destruct (binary_round_aux prec emax false (Zpos (m * mc))
                     (e + ec) loc_Exact). }
    apply binary_round_aux_le; [lia| |done| |done].
    + assert (52 < Zdigits2 (Zpos (m * mc))).
      { apply digits_gt; [lia|]. rewrite Pos2Z.inj_mul. nia. }
      rewrite fexp_eq. lia.
    + rewrite Pos2Z.inj_mul.
      destruct (Z_le_gt_dec 0 e) as [He|He].
      * replace (Z.min e 0) with 0 in Hle' by lia.
        rewrite Z.sub_0_r, Z.sub_diag in Hle'.
        assert (H2e : 0 < 2 ^ e) by (by apply Z.pow_pos_nonneg).
        assert (e = 0).
        { destruct (decide (e = 0)); [done|].
          assert (2 ^ 1 ≤ 2 ^ e) by (apply Z.pow_le_mono_r; lia).
          change (2 ^ 1) with 2 in *. nia. }
        subst e. change (2 ^ 0) with 1 in Hle'.
        replace (Z.min (0 + ec) ec) with ec by lia.
        rewrite Z.add_0_l, Z.sub_diag. change (2 ^ 0) with 1. nia.
      * replace (Z.min e 0) with e in Hle' by lia.
        rewrite Z.sub_diag in Hle'. change (2 ^ 0) with 1 in Hle'.
        replace (Z.min (e + ec) ec) with (e + ec) by lia.
        rewrite Z.sub_diag. change (2 ^ 0) with 1.
        replace (ec - (e + ec)) with (0 - e) by lia. nia.
Qed.

(** Truncating a non-negative float not above the integer [N]. *)
Lemma int_of_float_le f mc ec N :
  0 ≤ N → ec ≤ 0 → Zpos mc = N * 2 ^ (- ec) →
  match f with
  | S754_zero s => True
  | S754_finite s m' e' =>
      s = false ∧
      Zpos m' * 2 ^ (e' - Z.min e' ec) ≤ Zpos mc * 2 ^ (ec - Z.min e' ec)
  | _ => False
  end →
  ∃ z, int_of_float f = Ok z ∧ 0 ≤ z ≤ N.
Proof.
  intros HN Hec Hmc Hf.
  destruct f as [s| | |s m' e']; try done.
  - exists 0. split; [done|lia].
  - destruct Hf as [-> Hle]. rewrite Hmc in Hle. cbn [int_of_float].
    assert (Hc : 0 < 2 ^ (- ec)) by (apply Z.pow_pos_nonneg; lia).
    destruct e' as [|k|k].
    + eexists. split; [reflexivity|]. rewrite Z.shiftl_mul_pow2 by lia.
      replace (Z.min 0 ec) with ec in Hle by lia.
      rewrite Z.sub_diag, Z.sub_0_l in Hle. change (2 ^ 0) with 1 in *. nia.
    + eexists. split; [reflexivity|]. rewrite Z.shiftl_mul_pow2 by lia.
      replace (Z.min (Zpos k) ec) with ec in Hle by lia.
      rewrite Z.sub_diag in Hle. change (2 ^ 0) with 1 in Hle.
      replace (Zpos k - ec) with (Zpos k + - ec) in Hle by lia.
      rewrite Z.pow_add_r in Hle by lia.
      assert (0 < 2 ^ Zpos k) by (by apply Z.pow_pos_nonneg). nia.
    + eexists. split; [reflexivity|]. rewrite Z.shiftr_div_pow2 by lia.
      assert (Hk : 0 < 2 ^ Zpos k) by (by apply Z.pow_pos_nonneg).
      split; [apply Z.div_pos; lia|].
      assert (Hq : Zpos m' / 2 ^ Zpos k * 2 ^ Zpos k ≤ Zpos m').
      { rewrite Z.mul_comm. apply Z.mul_div_le. done. }
      destruct (Z_le_gt_dec (Zneg k) ec) as [Hlow|Hhigh].
      * replace (Z.min (Zneg k) ec) with (Zneg k) in Hle by lia.
        rewrite Z.sub_diag in Hle. change (2 ^ 0) with 1 in Hle.
        assert (Hsplit : 2 ^ Zpos k = 2 ^ (- ec) * 2 ^ (ec - Zneg k)).
        { rewrite <- Z.pow_add_r by lia. f_equal. lia. }
        assert (0 < 2 ^ (ec - Zneg k)) by (apply Z.pow_pos_nonneg; lia).
        rewrite Z.mul_1_r in Hle.
        assert (Zpos m' ≤ N * 2 ^ Zpos k).
        { rewrite Hsplit. lia. }
        apply Z.div_le_upper_bound; [done|]. lia.
      * replace (Z.min (Zneg k) ec) with ec in Hle by lia.
        rewrite Z.sub_diag in Hle. change (2 ^ 0) with 1 in Hle.
        assert (Hsplit : 2 ^ (- ec) = 2 ^ (Zneg k - ec) * 2 ^ Zpos k).
        { rewrite <- Z.pow_add_r by lia. f_equal. lia. }
        assert (0 < 2 ^ (Zneg k - ec)) by (apply Z.pow_pos_nonneg; lia).
        rewrite Hsplit in Hle.
        assert (Zpos m' ≤ N * 2 ^ Zpos k) by nia.
        apply Z.div_le_upper_bound; [done|]. lia.
Qed.

(** Scaling a draw to degrees: [int(r * 360.0)] is in [[0, 360]] and
    [int(r * 180.0)] in [[0, 180]] for [r] in [[0, 1]]. *)
Lemma degrees_of_unit r :
  unit_float r = true →
  (∃ H, int_of_float (fmul r f360) = Ok H ∧ 0 ≤ H ≤ 360) ∧
  (∃ O, int_of_float (fmul r f180) = Ok O ∧ 0 ≤ O ≤ 180).
Proof.
  intros Hr. split.
  - pose proof (fmul_unit_le r 6333186975989760 (-44) Hr eq_refl ltac:(done))
      as Hm. fold f360 in Hm.
    apply (int_of_float_le _ 6333186975989760 (-44) 360); [lia|lia|done|].
    destruct (fmul r f360); try done. by destruct Hm as (? & _ & ?).
  - pose proof (fmul_unit_le r 6333186975989760 (-45) Hr eq_refl ltac:(done))
      as Hm. fold f180 in Hm.
    apply (int_of_float_le _ 6333186975989760 (-45) 180); [lia|lia|done|].
    destruct (fmul r f180); try done. by destruct Hm as (? & _ & ?).
Qed.

(** *** Converting an integer *)

Lemma binary_round_le p e my ey :
  bounded prec emax my ey = true →
  Zpos p * 2 ^ (e - Z.min e ey) ≤ Zpos my * 2 ^ (ey - Z.min e ey) →
  match binary_round prec emax false p e with
  | S754_zero s => s = false
  | S754_finite s m' e' =>
      s = false ∧ bounded prec emax m' e' = true ∧
      Zpos m' * 2 ^ (e' - Z.min e' ey) ≤ Zpos my * 2 ^ (ey - Z.min e' ey)
  | _ => False
  end.
Proof.
  intros Hb Hle. unfold binary_round.
  set (g := fexp prec emax (Zpos (digits2_pos p) + e)).
  destruct (shl_align_spec p e g) as [Hez Hmz].
  destruct (shl_align p e g) as [mz ez]. simpl in Hez, Hmz.
  assert (Hdig : Zdigits2 (Zpos mz) + ez = Zpos (digits2_pos p) + e).
  { rewrite Hmz, digits_mul_pow2 by lia. simpl Zdigits2. lia. }
  apply binary_round_aux_le; [lia| |done| |done].
  - rewrite Hdig. fold g. lia.
  - rewrite Hmz, <- Z.mul_assoc, <- Z.pow_add_r by lia.
    replace (e - Z.min e g + (ez - Z.min ez ey)) with (e - Z.min ez ey) by lia.
    apply (scale_le _ _ e ey (Z.min e ey) (Z.min ez ey)); [lia..|done].
Qed.

(** [float(n)] is a valid positive float for [1 ≤ n ≤ 2^1023], and raises
    [OverflowError] from [2^1024] on. *)
Lemma float_of_int_range n :
  1 ≤ n ≤ 2 ^ 1023 →
  ∃ m e, float_of_int n = Ok (S754_finite false m e) ∧
         bounded prec emax m e = true.
Proof.
  intros Hn. destruct n as [|p|p]; [lia| |lia].
  unfold float_of_int, round_int, binary_normalize.
  pose proof (binary_round_ge p 0 (2 ^ 52) (-52) eq_refl) as Hlo.
  pose proof (binary_round_le p 0 (2 ^ 52) 971 eq_refl) as Hhi.
  replace (Z.min (-52) 0) with (-52) in Hlo by lia.
  replace (Z.min 0 971) with 0 in Hhi by lia.
  change (Zpos (2 ^ 52) * 2 ^ (-52 - -52)) with (2 ^ 52) in Hlo.
  change (2 ^ (0 - -52)) with (2 ^ 52) in Hlo.
  change (Zpos (2 ^ 52) * 2 ^ (971 - 0)) with (2 ^ 1023) in Hhi.
  change (2 ^ (0 - 0)) with 1 in Hhi.
  specialize (Hlo ltac:(lia)). specialize (Hhi ltac:(lia)).
  destruct (binary_round prec emax false p 0) as [s|s| |s m e]; try done.
  destruct Hhi as (-> & Hbd & _). simpl. eauto.
Qed.

Lemma float_of_int_overflow n :
  2 ^ 1024 ≤ n → float_of_int n = Raise OverflowError.
Proof.
  intros Hn. destruct n as [|p|p]; [lia| |lia].
  unfold float_of_int, round_int, binary_normalize, binary_round.
  set (g := fexp prec emax (Zpos (digits2_pos p) + 0)).
  assert (Hd : 1024 < Zdigits2 (Zpos p)) by (apply digits_gt; lia).
  change (Zdigits2 (Zpos p)) with (Zpos (digits2_pos p)) in Hd.
  assert (Hg : 971 < g) by (unfold g; rewrite fexp_eq; lia).
  destruct (shl_align_spec p 0 g) as [Hez Hmz].
  destruct (shl_align p 0 g) as [mz ez]. simpl in Hez, Hmz.
  assert (Hdig : Zdigits2 (Zpos mz) + ez = Zpos (digits2_pos p) + 0).
  { rewrite Hmz, digits_mul_pow2 by lia. simpl Zdigits2. lia. }
  destruct (binary_round_aux_cases (Zpos mz) ez loc_Exact ltac:(lia))
    as (m2 & Hm2 & _ & _ & Hlolo & Heq).
  { rewrite Hdig. fold g. lia. }
  rewrite Hdig in Hlolo, Heq, Hm2. fold g in Hlolo, Heq, Hm2.
  specialize (Hlolo ltac:(lia)). rewrite Heq.
  destruct (Z.eqb_spec m2 0) as [|_]; [lia|].
  rewrite (proj2 (Z.leb_gt _ _)) by lia.
  rewrite (proj2 (Z.leb_gt (g + 1) 971)) by lia.
  by destruct (m2 <? 2 ^ 53).
Qed.

(** [1.0 / n] evaluates for [1 ≤ n ≤ 2^1023]; from [2^1024] on the
    conversion of [n] raises [OverflowError]. *)
Lemma growth_delta_of_range n :
  1 ≤ n ≤ 2 ^ 1023 →
  ∃ growth_delta, growth_delta_of n = Ok growth_delta.
Proof.
  intros Hn. destruct (float_of_int_range n Hn) as (m & e & Hf & _).
  unfold growth_delta_of. rewrite Hf. unfold float_truediv. simpl. eauto.
Qed.

Lemma growth_delta_of_overflow n :
  2 ^ 1024 ≤ n → growth_delta_of n = Raise OverflowError.
Proof.
  intros Hn. unfold growth_delta_of. by rewrite float_of_int_overflow.
Qed.

(** *** True division in range *)

(** [a / b] evaluates for [0 ≤ a ≤ 2^1023] and [1 ≤ b]. *)
Lemma int_truediv_range a b :
  0 ≤ a ≤ 2 ^ 1023 → 1 ≤ b → ∃ q, int_truediv a b = Ok q.
Proof.
  intros Ha Hb. unfold int_truediv.
  destruct b as [|pb|pb]; [lia| |lia].
  destruct a as [|pa|pa]; [eauto| |lia].
  change (Zpos pa <? 0) with false. change (Zpos pb <? 0) with false.
  simpl Z.abs. simpl Z.to_pos.
  unfold fdiv, SFdiv.
  pose proof (div_core_general pa 0 pb 0) as Hcore.
  unfold SFdiv_core_binary in *.
  set (e' := Z.min (fexp prec emax (Zdigits2 (Zpos pa) + 0
                                    - (Zdigits2 (Zpos pb) + 0))) (0 - 0)) in *.
  set (s := 0 - 0 - e') in *.
  assert (Hs : 0 ≤ s) by (unfold s, e'; lia).
  set (m' := match s with
             | 0 => Zpos pa
             | Zpos _ => Z.shiftl (Zpos pa) s
             | Zneg _ => 0
             end) in *.
  assert (Hm' : m' = Zpos pa * 2 ^ s).
  { unfold m'. destruct s as [|p|p] eqn:Hsp.
    - simpl. lia.
    - by rewrite Z.shiftl_mul_pow2.
    - lia. }
  pose proof (Z_div_mod m' (Zpos pb) ltac:(lia)) as Hdm.
  destruct (Z.div_eucl m' (Zpos pb)) as [q r].
  destruct Hdm as [Hdm Hr]. destruct Hcore as [Hq He].
  assert (H2s : 0 < 2 ^ s) by (by apply Z.pow_pos_nonneg).
  assert (He' : e' ≤ 0) by (unfold e'; lia).
  pose proof (binary_round_aux_le q e' (new_location (Zpos pb) r)
                (2 ^ 52) 971 Hq He eq_refl) as Hle.
  replace (Z.min e' 971) with e' in Hle by lia.
  rewrite Z.sub_diag in Hle. change (2 ^ 0) with 1 in Hle.
  assert (Hpow : Zpos (2 ^ 52) * 2 ^ (971 - e') = 2 ^ 1023 * 2 ^ s).
  { change (Zpos (2 ^ 52)) with (2 ^ 52). rewrite <- !Z.pow_add_r by lia.
    f_equal. unfold s. lia. }
  rewrite Hpow in Hle. simpl xorb.
  assert (Hqm : q ≤ m') by nia.
  destruct (binary_round_aux prec emax false q e'
              (new_location (Zpos pb) r)) as [sg|sg| |sg mq eq];
    cbn [is_inf]; eauto.
  exfalso. apply Hle; [nia|].
  intros Hl. assert (r ≠ 0).
  { intros ->. apply Hl. unfold new_location, new_location_even,
      new_location_odd. by destruct (Z.even (Zpos pb)). }
  nia.
Qed.

End Rounding.

(** ** Interpolation *)

Module Interpolation.
Import Py Script Spec Rounding.

(** At its end points [lerp] returns the bounds themselves, exactly:
    [lerp(0.0, a, b) = a] and [lerp(1.0, a, b) = b] for finite non-zero
    [a] and [b]. *)
Theorem lerp_endpoints a b :
  valid_nonzero a = true → valid_nonzero b = true →
  lerp f0_0 a b = a ∧ lerp f1_0 a b = b.
Proof.
  destruct a as [| | |sa ma ea]; try done.
  destruct b as [| | |sb mb eb]; try done.
  simpl valid_nonzero. intros Ha Hb. unfold lerp. split.
  - change (fsub f1_0 f0_0) with f1_0. by rewrite fmul_one.
  - change (fsub f1_0 f1_0) with (S754_zero false). by rewrite fmul_one.
Qed.

(** With an infinite bound the weight [0.0] of the other end point does
    not cancel it: the result is NaN. *)
Theorem lerp_infinite_bound a s :
  lerp f0_0 a (S754_infinity s) = S754_nan ∧
  lerp f1_0 (S754_infinity s) a = S754_nan.
Proof.
  unfold lerp. split.
  - change (fmul f0_0 (S754_infinity s)) with S754_nan.
    unfold fadd. by destruct (fmul (fsub f1_0 f0_0) a).
  - change (fsub f1_0 f1_0) with (S754_zero false).
    change (fmul (S754_zero false) (S754_infinity s)) with S754_nan.
    done.
Qed.

End Interpolation.

(** ** Collections and registration *)

Module Collections.
Import Py Bpy Script Spec Run Duplicator.
Local Open Scope py_scope.

(** [create_collection_if_not_exists] never raises.  A collection that
    exists is left as it is, with the whole scene; one that does not is
    created empty and put, last, under the scene collection.  In both
    cases a second call changes nothing. *)
Theorem create_collection_once name s :
  ∃ s',
    runs (create_collection_if_not_exists name) s tt s' ∧
    (is_Some (collections s !! name) → s' = s) ∧
    (collections s !! name = None →
       s' = with_scene_children (λ cs, cs ++ [name])
              (with_collections <[name := []]> s)) ∧
    members s' name = members s name ∧
    is_Some (collections s' !! name) ∧
    scene_children s' = children_with s name ∧
    runs (create_collection_if_not_exists name) s' tt s'.
Proof.
  unfold create_collection_if_not_exists, runs, bind, get, modify, ret,
    members, children_with.
  destruct (collections s !! name) as [obs|] eqn:Hn.
  - exists s. rewrite Hn. split_and!; eauto. done.
  - eexists. split_and!; [done|by intros []|done|..].
    + simpl. by rewrite lookup_insert_eq.
    + simpl. rewrite lookup_insert_eq. eauto.
    + done.
    + simpl. by rewrite lookup_insert_eq.
Qed.

Lemma linked_to_link_into s name ob :
  linked_to s (link_into (Some name) ob s) name ob ∧
  scene_children (link_into (Some name) ob s) = children_with s name.
Proof.
  unfold linked_to, link_into, members, children_with.
  destruct (collections s !! name) as [obs|] eqn:Hn; simpl.
  - rewrite lookup_insert_eq. split_and!; eauto.
    intros k Hk. by rewrite lookup_insert_ne.
  - rewrite lookup_insert_eq. split_and!; eauto.
    intros k Hk. by rewrite lookup_insert_ne.
Qed.

(** [add_object_to_collection] links an object that is not yet a member
    of the collection as its last member, creating the collection under
    the scene when it does not exist; no other collection changes. *)
Theorem add_object_to_collection_appends ob name s :
  ob ∉ members s name →
  ∃ s',
    runs (add_object_to_collection ob name) s tt s' ∧
    linked_to s s' name ob ∧
    scene_children s' = children_with s name ∧
    objects s' = objects s ∧ curves s' = curves s.
Proof.
  intros Hnot. exists (link_into (Some name) ob s).
  split; [|split_and!; try apply linked_to_link_into;
           by rewrite ?objects_link_into, ?curves_link_into].
  unfold add_object_to_collection, create_collection_if_not_exists, link_into.
  unfold members in Hnot.
  destruct (collections s !! name) as [obs|] eqn:Hn.
  - eapply runs_bind.
    { eapply runs_bind; [apply runs_get|]. rewrite Hn. apply runs_ret. }
    by apply runs_collection_link.
  - eapply runs_bind.
    { eapply runs_bind; [apply runs_get|]. rewrite Hn.
      eapply runs_bind; apply runs_modify. }
    eapply runs_eq.
    + apply (runs_collection_link _ name ob []);
        [simpl; apply lookup_insert_eq | by apply not_elem_of_nil].
    + unfold with_collections, with_scene_children; simpl. f_equal.
      apply insert_insert_eq.
Qed.

(** Linking an object to a collection it is already a member of raises
    [RuntimeError], and nothing is changed. *)
Theorem add_object_to_collection_again ob name s :
  ob ∈ members s name →
  fails (add_object_to_collection ob name) s RuntimeError s.
Proof.
  unfold members. intros Hin.
  destruct (collections s !! name) as [obs|] eqn:Hn; simpl in Hin;
    [|by apply elem_of_nil in Hin].
  unfold fails, add_object_to_collection, create_collection_if_not_exists,
    collection_link, bind, get, need, ret, raise.
  rewrite Hn. simpl. rewrite Hn. by rewrite bool_decide_eq_true_2.
Qed.

(** [copy_obj] registers the duplicate once: in the named collection,
    created under the scene when it does not exist, or, without a name, in
    the context collection; nothing else is linked or unlinked. *)
Theorem copy_obj_registers s obj o c cn :
  objects s !! obj = Some o →
  curves s !! data o = Some c →
  consistent s →
  ∃ obj_cpy s',
    runs (copy_obj obj cn) s obj_cpy s' ∧
    objects s !! obj_cpy = None ∧
    registered s s' cn obj_cpy.
Proof.
  intros Ho Hc Hs. do 2 eexists. split; [by apply runs_copy_obj|].
  split; [apply fresh_string_fresh|].
  set (ob := fresh_string obj (objects s)).
  unfold registered. destruct cn as [name|].
  - destruct (linked_to_link_into s name ob) as [Hl Hch].
    split; [|exact Hch]. exact Hl.
  - split; [unfold link_into; simpl; by destruct (context_collection s)|].
    destruct Hs as (_ & _ & _ & Hctx).
    unfold linked_to, members, link_into.
    destruct (context_collection s) as [coll|]; simpl; [|done].
    simpl in Hctx. destruct Hctx as [obs Hobs]. rewrite Hobs. simpl.
    rewrite lookup_insert_eq. split_and!; eauto.
    intros k Hk. by rewrite lookup_insert_ne.
Qed.

(** Two successive duplicates of an object are two new objects, each with
    curve data of its own: a copy of the source's, shared neither with the
    source nor with the other duplicate. *)
Theorem copy_obj_siblings s obj o c cn :
  objects s !! obj = Some o →
  curves s !! data o = Some c →
  consistent s →
  ∃ ob1 ob2 d1 d2 s1 s2,
    runs (copy_obj obj cn) s ob1 s1 ∧
    runs (copy_obj obj cn) s1 ob2 s2 ∧
    ob1 ≠ ob2 ∧ ob1 ≠ obj ∧ ob2 ≠ obj ∧
    d1 ≠ d2 ∧ d1 ≠ data o ∧ d2 ≠ data o ∧
    objects s2 !! ob1 = Some (Object d1 None) ∧
    objects s2 !! ob2 = Some (Object d2 None) ∧
    curves s2 !! d1 = Some c ∧
    curves s2 !! d2 = Some c ∧
    objects s2 !! obj = Some o ∧
    curves s2 !! data o = Some c.
Proof.
  intros Ho Hc Hs.
  set (ob1 := fresh_string obj (objects s)).
  set (d1 := fresh_string (data o) (curves s)).
  set (s1 := with_objects <[ob1 := Object d1 None]>
               (with_curves <[d1 := c]> (link_into cn ob1 s))).
  assert (Hne1 : ob1 ≠ obj) by (apply fresh_string_ne; eauto).
  assert (Hnd1 : d1 ≠ data o) by (apply fresh_string_ne; eauto).
  assert (Ho1 : objects s1 !! obj = Some o).
  { simpl. rewrite objects_link_into. by rewrite lookup_insert_ne. }
  assert (Hc1 : curves s1 !! data o = Some c).
  { simpl. rewrite curves_link_into. by rewrite lookup_insert_ne. }
  assert (Hs1 : consistent s1) by (by apply consistent_copy).
  set (ob2 := fresh_string obj (objects s1)).
  set (d2 := fresh_string (data o) (curves s1)).
  assert (Hne2 : ob2 ≠ obj) by (apply fresh_string_ne; eauto).
  assert (Hnd2 : d2 ≠ data o) by (apply fresh_string_ne; eauto).
  assert (Hob : ob2 ≠ ob1).
  { apply fresh_string_ne. simpl. rewrite objects_link_into.
    rewrite lookup_insert_eq. eauto. }
  assert (Hd : d2 ≠ d1).
  { apply fresh_string_ne. simpl. rewrite curves_link_into.
    rewrite lookup_insert_eq. eauto. }
  exists ob1, ob2, d1, d2, s1. eexists.
  split; [by apply runs_copy_obj|].
  split; [by apply runs_copy_obj|].
  fold ob2 d2.
  cbn [objects curves with_objects with_curves].
  rewrite objects_link_into, curves_link_into. unfold s1 at 1 2 3 4 5 6.
  cbn [objects curves with_objects with_curves].
  rewrite objects_link_into, curves_link_into.
  split_and!; try done.
  - rewrite lookup_insert_ne by done. apply lookup_insert_eq.
  - apply lookup_insert_eq.
  - rewrite lookup_insert_ne by done. apply lookup_insert_eq.
  - apply lookup_insert_eq.
  - by rewrite !lookup_insert_ne.
  - by rewrite !lookup_insert_ne.
Qed.

End Collections.

(** ** Keying and shaping *)

Module Keying.
Import Py Bpy Script Spec Run Duplicator Shaping Palette Growth.
Local Open Scope py_scope.

Lemma insert_key_twice f1 f2 v1 v2 :
  insert_key f2 v2 [Keyframe f1 v1 "BEZIER" "AUTO"] = keyed_twice f1 f2 v1 v2.
Proof.
  unfold keyed_twice, insert_key, eqb, ltb. cbn [co_frame interpolation easing].
  by destruct (compare f2 f1) as [[]|].
Qed.

Lemma fcurves_of_lookup s ob o c a act :
  objects s !! ob = Some o →
  curves s !! data o = Some c →
  cu_animation_data c = Some (AnimData (Some a)) →
  actions s !! a = Some act →
  fcurves_of s ob = Some (fcurves act).
Proof.
  intros Ho Hc Had Ha. unfold fcurves_of.
  rewrite Ho. simpl. rewrite Hc. simpl. rewrite Had. simpl. by rewrite Ha.
Qed.

Lemma bevel_of_lookup s ob o c :
  objects s !! ob = Some o →
  curves s !! data o = Some c →
  bevel_of s ob = Some (bevel_factor_start c, bevel_factor_end c,
                        bevel_depth c).
Proof. intros Ho Hc. unfold bevel_of. rewrite Ho. simpl. by rewrite Hc. Qed.

(** On an object whose curve data is not animated yet,
    [animate_curve_growth] leaves the start fraction keyed once, at
    [frame_start], and the end fraction keyed to the start value at
    [frame_start] and to the end value at [frame_end], in frame order (one
    key, of the end value, when the two frames are equal); the settings
    themselves are left at the start and the end value, the depth as it
    was. *)
Theorem animate_curve_growth_keys s ob an d c fs fe gs ge :
  objects s !! ob = Some (Object d an) →
  curves s !! d = Some c →
  cu_animation_data c = None →
  ∃ s',
    runs (animate_curve_growth ob fs fe gs ge) s tt s' ∧
    keys_of s' ob "bevel_factor_start"
      = Some [Keyframe fs gs "BEZIER" "AUTO"] ∧
    keys_of s' ob "bevel_factor_end" = Some (keyed_twice fs fe gs ge) ∧
    keys_of s' ob "bevel_depth" = None ∧
    bevel_of s' ob = Some (gs, ge, bevel_depth c) ∧
    objects s' = objects s.
Proof.
  intros Ho Hc Had. eexists. split.
  { eapply runs_animate_curve_growth; [done..|by apply action_of_none]. }
  unfold keys_of.
  erewrite fcurves_of_lookup, bevel_of_lookup;
    [|exact Ho|scene_lookup|exact Ho|scene_lookup|reflexivity|scene_lookup].
  cbn [fcurves mbind option_bind find data_path keyframe_points String.eqb
       Ascii.eqb Bool.eqb bevel_factor_start bevel_factor_end bevel_depth].
  by rewrite insert_key_twice.
Qed.

(** On an object whose curve data is not animated yet,
    [animate_curve_thickness] draws one random value [r], keys the depth to
    [start_thickness] at [frame_start] and to
    [lerp(r, thickness_min, thickness_max)] at [frame_end] (in frame order;
    one key, of the second value, when the two frames are equal), and
    leaves the depth at the second value; the growth fractions are neither
    keyed nor changed. *)
Theorem animate_curve_thickness_keys s ob an d c fs fe tmin tmax st :
  objects s !! ob = Some (Object d an) →
  curves s !! d = Some c →
  cu_animation_data c = None →
  ∃ s',
    runs (animate_curve_thickness ob fs fe tmin tmax st) s tt s' ∧
    keys_of s' ob "bevel_depth"
      = Some (keyed_twice fs fe st (lerp (noise s (noise_pos s)) tmin tmax)) ∧
    keys_of s' ob "bevel_factor_start" = None ∧
    keys_of s' ob "bevel_factor_end" = None ∧
    bevel_of s' ob
      = Some (bevel_factor_start c, bevel_factor_end c,
              lerp (noise s (noise_pos s)) tmin tmax) ∧
    noise_pos s' = S (noise_pos s) ∧
    objects s' = objects s.
Proof.
  intros Ho Hc Had. unfold animate_curve_thickness.
  set (a := fresh_string (d +:+ "Action") (actions s)).
  set (depth := lerp (noise s (noise_pos s)) tmin tmax).
  exists (with_noise_pos S
            (with_actions
               <[a := Action [FCurve "bevel_depth"
                                (insert_key fe depth
                                   [Keyframe fs st "BEZIER" "AUTO"])]]>
               (with_curves
                  <[d := Curve (splines c) (bevel_factor_start c)
                           (bevel_factor_end c) depth (cu_materials c)
                           (Some (AnimData (Some a)))]> s))).
  split.
  - step runs_data_of. step runs_set_bevel_depth.
    step runs_data_of.
    eapply runs_bind.
    { eapply runs_keyframe_insert_first;
        [scene_lookup|by apply action_of_none|reflexivity]. }
    cbn [actions with_curves]. fold a.
    eapply runs_bind; [apply runs_noise_random|].
    cbn [noise noise_pos with_actions with_curves]. fold depth.
    eapply runs_bind.
    { apply runs_data_of. cbn [objects with_noise_pos with_actions
                                with_curves]. exact Ho. }
    cbn [data].
    eapply runs_bind.
    { apply runs_set_bevel_depth.
      cbn [curves with_noise_pos with_actions with_curves].
      apply lookup_insert_eq. }
    eapply runs_bind.
    { apply runs_data_of. cbn [objects with_noise_pos with_actions
                                with_curves]. exact Ho. }
    cbn [data].
    eapply runs_eq.
    { eapply runs_keyframe_insert_next.
      - cbn [curves with_noise_pos with_actions with_curves].
        apply lookup_insert_eq.
      - reflexivity.
      - cbn [actions with_noise_pos with_actions with_curves].
        apply lookup_insert_eq.
      - reflexivity. }
    unfold with_noise_pos, with_actions, with_curves; cbn.
    by rewrite !insert_insert_eq.
  - unfold keys_of.
    erewrite fcurves_of_lookup, bevel_of_lookup;
      [|exact Ho|apply lookup_insert_eq|exact Ho
       |apply lookup_insert_eq|reflexivity|apply lookup_insert_eq].
    cbn [fcurves mbind option_bind find data_path keyframe_points String.eqb
         Ascii.eqb Bool.eqb bevel_factor_start bevel_factor_end bevel_depth].
    rewrite insert_key_twice. split_and!; reflexivity.
Qed.

(** Shaping the keys of an object twice is shaping them with the second
    option only: the last option wins, and shaping with the same option
    again changes nothing. *)
Theorem set_animation_fcurve_last_wins s ob o c a act option1 option2 :
  objects s !! ob = Some o →
  curves s !! data o = Some c →
  cu_animation_data c = Some (AnimData (Some a)) →
  actions s !! a = Some act →
  ∃ s1 s2,
    runs (set_animation_fcurve ob option1) s tt s1 ∧
    runs (set_animation_fcurve ob option2) s1 tt s2 ∧
    runs (set_animation_fcurve ob option2) s tt s2 ∧
    runs (set_animation_fcurve ob option2) s2 tt s2.
Proof.
  intros Ho Hc Had Ha.
  assert (Hshape : ∀ o1 o2 (fcs : list fcurve),
            shape_fcurve o2 <$> (shape_fcurve o1 <$> fcs)
            = shape_fcurve o2 <$> fcs).
  { intros o1 o2 fcs. rewrite <- list_fmap_compose.
    apply list_fmap_ext. intros _ [path kfs] _. unfold shape_fcurve. simpl.
    f_equal. rewrite <- list_fmap_compose. by apply list_fmap_ext. }
  exists
    (with_actions <[a := Action (shape_fcurve option1 <$> fcurves act)]> s),
    (with_actions <[a := Action (shape_fcurve option2 <$> fcurves act)]> s).
  split_and!.
  - by eapply runs_set_animation_fcurve.
  - eapply runs_eq.
    + eapply runs_set_animation_fcurve; [exact Ho|exact Hc|exact Had|].
      simpl. apply lookup_insert_eq.
    + cbn [fcurves]. rewrite Hshape. apply with_actions_insert_insert.
  - by eapply runs_set_animation_fcurve.
  - eapply runs_eq.
    + eapply runs_set_animation_fcurve; [exact Ho|exact Hc|exact Had|].
      simpl. apply lookup_insert_eq.
    + cbn [fcurves]. rewrite Hshape. apply with_actions_insert_insert.
Qed.

End Keying.

(** ** The shaders of the material builder *)

Module Shaders.
Import Py Bpy Script Spec Run Materials.
Local Open Scope py_scope.

Lemma fails_rebuild_unknown s mat x mat_type color ei gr :
  materials s !! mat = Some x →
  shader_type mat_type = None →
  fails (rebuild mat mat_type color ei gr) s UnboundLocalError
        (with_materials <[mat := output_only]> s).
Proof.
  intros Hm Hk. unfold rebuild.
  eapply fails_bind_later.
  { unfold set_use_nodes. eapply runs_bind; [by apply runs_get_material|].
    apply runs_put_material. }
  eapply fails_bind_later;
    [apply runs_get_material, lookup_with_materials_insert|].
  cbn [mat_node_tree].
  eapply fails_bind_later.
  { eapply runs_bind.
    - unfold links_clear.
      eapply runs_bind;
        [by eapply runs_get_node_tree; [apply lookup_with_materials_insert|]|].
      eapply runs_tree_step. intros s1 H1. by apply (runs_put_node_tree s1).
    - unfold nodes_clear. cbn [use_nodes].
      eapply runs_bind;
        [by eapply runs_get_node_tree; [apply lookup_with_materials_insert|]|].
      eapply runs_tree_step. intros s1 H1. by apply (runs_put_node_tree s1). }
  cbn [use_nodes].
  eapply fails_bind_later.
  { eapply runs_tree_step. intros s1 H1. by eapply (runs_nodes_new s1). }
  cbn [use_nodes nodes links fmap list_fmap app node_name].
  change (fresh_string_of_set "Material Output" (list_to_set []))
    with "Material Output".
  unfold shader_type in Hk.
  destruct (String.eqb mat_type "diffuse"); [done|].
  destruct (String.eqb mat_type "emission"); [done|].
  destruct (String.eqb mat_type "glossy"); [done|].
  eapply fails_bind_later; [apply runs_ret|].
  apply fails_bind_now. apply fails_need.
Qed.

(** With a shader kind that is none of ["diffuse"], ["emission"] and
    ["glossy"], [create_material] raises [UnboundLocalError] when it comes
    to linking the shader; by then the material exists, with nodes enabled
    and the output node alone in its graph. *)
Theorem create_material_unknown_kind s mat_id mat_type color ei gr :
  shader_type mat_type = None →
  fails (create_material mat_id mat_type color ei gr) s UnboundLocalError
        (with_materials <[mat_id := output_only]> s).
Proof.
  intros Hk. rewrite create_material_unfold.
  eapply fails_bind_later; [apply runs_get|].
  destruct (materials s !! mat_id) as [x|] eqn:Hm.
  - eapply fails_bind_later; [apply runs_ret|]. by eapply fails_rebuild_unknown.
  - eapply fails_bind_later.
    { unfold materials_new. eapply runs_bind; [apply runs_get|].
      unfold fresh_string. rewrite Hm.
      eapply runs_bind; [apply runs_put_material|]. apply runs_ret. }
    unfold fails.
    erewrite fails_rebuild_unknown;
      [|apply lookup_with_materials_insert|done].
    by rewrite with_materials_insert_insert.
Qed.

(** For each of the three shader kinds [create_material] returns the
    identifier it was given and leaves under it a shader whose first input
    is the colour with alpha [1.0] and whose second input is the emission
    strength (emission), the roughness (glossy) or not set (diffuse); at
    most the material of that identifier is new, and nothing but it
    changes. *)
Theorem create_material_inputs s mat_id mat_type color ei gr type :
  shader_type mat_type = Some type →
  ∃ s',
    runs (create_material mat_id mat_type color ei gr) s mat_id s' ∧
    shader_input s' mat_id 0 = Some (RGBA color f1_0) ∧
    shader_input s' mat_id 1 = second_input mat_type ei gr ∧
    shader_input s' mat_id 2 = None ∧
    dom (materials s') = dom (materials s) ∪ {[mat_id]} ∧
    (∀ m, m ≠ mat_id → materials s' !! m = materials s !! m) ∧
    objects s' = objects s ∧ curves s' = curves s ∧
    actions s' = actions s ∧ collections s' = collections s.
Proof.
  intros Hk.
  destruct (shader_graph_kind mat_type color ei gr type Hk) as (t & Hg & _).
  eexists. split; [by apply runs_create_material|].
  unfold shader_input, second_input.
  cbn [materials objects curves actions collections with_materials].
  rewrite lookup_insert_eq. cbn [mbind option_bind mat_node_tree].
  unfold shader_graph in Hg. unfold shader_type in Hk.
  split_and!; try done.
  - destruct (String.eqb mat_type "diffuse");
      [|destruct (String.eqb mat_type "emission");
        [|destruct (String.eqb mat_type "glossy"); [|done]]];
      by injection Hg as <-.
  - destruct (String.eqb mat_type "diffuse") eqn:Hd.
    + apply String.eqb_eq in Hd as ->. by injection Hg as <-.
    + destruct (String.eqb mat_type "emission");
        [|destruct (String.eqb mat_type "glossy"); [|done]];
        by injection Hg as <-.
  - destruct (String.eqb mat_type "diffuse");
      [|destruct (String.eqb mat_type "emission");
        [|destruct (String.eqb mat_type "glossy"); [|done]]];
      by injection Hg as <-.
  - by rewrite dom_insert_L, (comm_L (∪)).
  - intros m Hm. by rewrite lookup_insert_ne.
Qed.

End Shaders.

(** ** The palette: draws and hues *)

Module Hues.
Import Py Bpy Script Spec Run Rounding Palette Growth.
Local Open Scope py_scope.

(** Whenever the palette generator returns, it has drawn exactly twelve
    random values and changed nothing else; the first two draws gave the
    hue and the offset, and the saturation and value of colour [i] are the
    draws number [2 i + 2] and [2 i + 3]. *)
Theorem palette_draws_twelve s cols s' :
  runs generate_5_random_colors_that_fit s cols s' →
  s' = with_noise_pos (λ p, 12 + p)%nat s ∧
  (∃ H O,
     int_of_float (fmul (noise s (noise_pos s)) f360) = Ok H ∧
     int_of_float (fmul (noise s (1 + noise_pos s)%nat) f180) = Ok O) ∧
  color_sv <$> cols
    = (λ i, Some (noise s (2 * i + 2 + noise_pos s)%nat,
                  noise s (2 * i + 3 + noise_pos s)%nat)) <$> seq 0 5.
Proof.
  intros H. unfold generate_5_random_colors_that_fit in H.
  do 4 invert_run H. cbn [for_range] in H.
  do 5 (apply runs_bind_inv in H as (? & ? & H' & H); do 5 invert_run H';
        apply runs_ret_inv in H' as [-> ->]).
  apply runs_ret_inv in H as [-> ->].
  split; [done|]. split; [eauto|]. reflexivity.
Qed.

Lemma hue_fraction_sides z :
  -360 ≤ z ≤ 720 →
  ltb (Float (hue_fraction z)) (Int 0) = (z <? 0) ∧
  ltb (Int 1) (Float (hue_fraction z)) = (360 <? z) ∧
  leb (Int 0) (Float (hue_fraction z)) = (0 <=? z) ∧
  leb (Float (hue_fraction z)) (Int 1) = (z <=? 360).
Proof.
  intros Hz.
  assert (Hall : forallb (λ k, let z := Z.of_nat k - 360 in
                           let h := Float (hue_fraction z) in
                           Bool.eqb (ltb h (Int 0)) (z <? 0) &&
                           Bool.eqb (ltb (Int 1) h) (360 <? z) &&
                           Bool.eqb (leb (Int 0) h) (0 <=? z) &&
                           Bool.eqb (leb h (Int 1)) (z <=? 360))
                         (seq 0 1081) = true) by (vm_compute; reflexivity).
  rewrite forallb_forall in Hall.
  specialize (Hall (Z.to_nat (z + 360))). cbv zeta in Hall.
  replace (Z.of_nat (Z.to_nat (z + 360)) - 360) with z in Hall by lia.
  specialize (Hall ltac:(apply in_seq; lia)).
  rewrite !andb_true_iff, !Bool.eqb_true_iff in Hall. tauto.
Qed.

(** The generator does not bring a hue back into the range of hues: for a
    seed hue [H] in [[0, 360]] and an offset [O] in [[0, 180]], a hue
    [H - O] or [H - 2 O] below zero is passed on as a negative fraction,
    and a hue [H + O] or [H + 2 O] above [360] as a fraction above [1];
    the fraction of a hue within [[0, 360]] is within [[0, 1]]. *)
Theorem palette_hues_not_wrapped s H O :
  int_of_float (fmul (noise s (noise_pos s)) f360) = Ok H →
  int_of_float (fmul (noise s (S (noise_pos s))) f180) = Ok O →
  0 ≤ H ≤ 360 → 0 ≤ O ≤ 180 →
  ∃ cols s',
    runs generate_5_random_colors_that_fit s cols s' ∧
    ∀ i z, palette_hues H O !! i = Some z →
      ∃ h, color_hue <$> cols !! i = Some (Some h) ∧
           (z < 0 → ltb (Float h) (Int 0) = true) ∧
           (360 < z → ltb (Int 1) (Float h) = true) ∧
           (0 ≤ z ≤ 360 →
              leb (Int 0) (Float h) = true ∧ leb (Float h) (Int 1) = true).
Proof.
  intros Hh Ho HH HO. eexists _, _. split.
  - apply runs_generate; [done..|].
    unfold palette_hues.
    repeat (constructor; [apply float_of_int_small; lia|]). constructor.
  - intros i z Hi. unfold palette_hues in Hi.
    assert (Hz : -360 ≤ z ≤ 720).
    { do 5 (destruct i as [|i]; [injection Hi as <-; lia|]). done. }
    destruct (hue_fraction_sides z Hz) as (H1 & H2 & H3 & H4).
    exists (hue_fraction z). split.
    + do 5 (destruct i as [|i]; [by injection Hi as <-|]). done.
    + rewrite H1, H2, H3, H4. split_and!; intros; lia.
Qed.

(** *** The palette on draws in [[0, 1]] *)

Lemma runs_generate_unit s :
  unit_float (noise s (noise_pos s)) = true →
  unit_float (noise s (S (noise_pos s))) = true →
  ∃ H O,
    int_of_float (fmul (noise s (noise_pos s)) f360) = Ok H ∧
    int_of_float (fmul (noise s (S (noise_pos s))) f180) = Ok O ∧
    0 ≤ H ≤ 360 ∧ 0 ≤ O ≤ 180 ∧
    runs generate_5_random_colors_that_fit s
         (palette_from s H O) (with_noise_pos (λ p, 12 + p)%nat s).
Proof.
  intros H0 H1.
  destruct (degrees_of_unit _ H0) as [(H & HH & HHr) _].
  destruct (degrees_of_unit _ H1) as [_ (O & HO & HOr)].
  exists H, O. do 4 (split; [done|]).
  apply runs_generate; [done..|].
  unfold palette_hues.
  repeat (constructor; [apply float_of_int_small; lia|]). constructor.
Qed.

(** On a random source that draws in [[0, 1]] the generator never raises:
    it returns five colours, made from a seed hue in [[0, 360]] and an
    offset in [[0, 180]]. *)
Theorem palette_total s :
  unit_float (noise s (noise_pos s)) = true →
  unit_float (noise s (S (noise_pos s))) = true →
  ∃ cols H O,
    runs generate_5_random_colors_that_fit s cols
         (with_noise_pos (λ p, 12 + p)%nat s) ∧
    int_of_float (fmul (noise s (noise_pos s)) f360) = Ok H ∧
    int_of_float (fmul (noise s (S (noise_pos s))) f180) = Ok O ∧
    0 ≤ H ≤ 360 ∧ 0 ≤ O ≤ 180 ∧
    length cols = 5%nat ∧
    color_hue <$> cols = (λ h, Some (hue_fraction h)) <$> palette_hues H O.
Proof.
  intros H0 H1.
  destruct (degrees_of_unit _ H0) as [(H & HH & HHr) _].
  destruct (degrees_of_unit _ H1) as [_ (O & HO & HOr)].
  exists (palette_from s H O), H, O. split.
  - apply runs_generate; [done..|].
    unfold palette_hues.
    repeat (constructor; [apply float_of_int_small; lia|]). constructor.
  - do 4 (split; [done|]). split; reflexivity.
Qed.

End Hues.

(** ** The strategies: when they return and what they keep *)

Module Strategies.
Import Py Bpy Script Spec Run Binary64 Rounding.
Import Duplicator Palette Growth Hues.
Local Open Scope py_scope.

(** *** What the loops leave alone *)

Lemma add_instance_frame curve collection option o0 c0 p s :
  let s' := add_instance curve collection option o0 c0 p s in
  (∀ k, k ≠ collection → collections s' !! k = collections s !! k) ∧
  scene_objects s' = scene_objects s ∧
  context_collection s' = context_collection s ∧
  noise s' = noise s ∧
  noise_pos s' = noise_pos s.
Proof.
  unfold add_instance, link_into.
  cbn [collections scene_objects context_collection noise noise_pos
       with_materials with_actions with_curves with_objects].
  destruct (collections s !! collection); simpl; split_and!; try done;
    intros k Hk; by rewrite lookup_insert_ne.
Qed.

Lemma add_instances_frame curve collection option o0 c0 plan n i s :
  let s' := add_instances curve collection option o0 c0 plan i n s in
  (∀ k, k ≠ collection → collections s' !! k = collections s !! k) ∧
  scene_objects s' = scene_objects s ∧
  context_collection s' = context_collection s ∧
  noise s' = noise s ∧
  noise_pos s' = noise_pos s.
Proof.
  revert i s. induction n as [|n IH]; intros i s; cbn zeta; [done|].
  cbn [add_instances].
  destruct (IH (S i) (add_instance curve collection option o0 c0 (plan i) s))
    as (H1 & H2 & H3 & H4 & H5).
  destruct (add_instance_frame curve collection option o0 c0 (plan i) s)
    as (G1 & G2 & G3 & G4 & G5).
  split_and!; try congruence.
  intros k Hk. by rewrite H1, G1.
Qed.

Lemma ready_add_instances curve collection option o0 c0 plan n i s :
  ready curve o0 c0 s →
  ready curve o0 c0 (add_instances curve collection option o0 c0 plan i n s).
Proof.
  revert i s. induction n as [|n IH]; intros i s Hr; [done|].
  cbn [add_instances]. by apply IH, ready_add_instance.
Qed.

(** With a negative number of instances neither strategy makes a turn of
    its loop: when the divisions evaluate and the palette is drawn, the
    run returns having made no duplicate, its only effect being the twelve
    random values drawn for the palette.  The source object is not even
    looked at. *)
Theorem grow_negative_instances st s curve n_instances n_frames plan palette
    sp :
  n_instances < 0 →
  plan_of st n_instances n_frames palette = Ok plan →
  runs generate_5_random_colors_that_fit s palette sp →
  runs (grow st curve n_instances n_frames) s tt
       (with_noise_pos (λ p, 12 + p)%nat s).
Proof.
  intros Hn Hplan Hpal.
  destruct (generate_inv _ _ _ Hpal) as [_ ->].
  assert (Hz : Z.to_nat n_instances = 0%nat) by lia.
  destruct st; simpl in Hplan |- *.
  - destruct (growth_delta_of n_instances) as [gd|] eqn:Hgd; [|done].
    unfold grow_from_thicker_to_thinner.
    eapply runs_bind; [by apply runs_lift|].
    eapply runs_bind; [exact Hpal|].
    rewrite Hz. eapply runs_bind; apply runs_ret.
  - destruct (int_truediv n_frames n_instances) as [df|] eqn:Hdf; [|done].
    destruct (growth_delta_of n_instances) as [gd|] eqn:Hgd; [|done].
    unfold grow_from_thinner_to_thicker.
    eapply runs_bind; [by apply runs_lift|].
    eapply runs_bind; [by apply runs_lift|].
    eapply runs_bind; [exact Hpal|].
    rewrite Hz. eapply runs_bind; apply runs_ret.
Qed.

Lemma start_growth_le growth_delta i :
  good growth_delta = true →
  good (start_growth growth_delta i) = true ∧
  leb (Float (start_growth growth_delta i))
      (Float (start_growth growth_delta (S i))) = true.
Proof.
  intros Hd.
  assert (Hg : good (start_growth growth_delta i) = true).
  { induction i as [|i IH]; [done|].
    change (start_growth growth_delta (S i))
      with (fadd (start_growth growth_delta i) growth_delta).
    by apply fadd_ge. }
  split; [done|].
  change (start_growth growth_delta (S i))
    with (fadd (start_growth growth_delta i) growth_delta).
  by apply fadd_ge.
Qed.

Lemma bevel_of_instance s ob c0 option p :
  is_instance s ob c0 option p →
  bevel_of s ob = Some (ip_growth_start p, ip_growth_end p, ip_thickness p).
Proof.
  intros (d & a & Ho & Hc & _). unfold bevel_of.
  rewrite Ho. simpl. by rewrite Hc.
Qed.

(** Thin-to-thick leaves every duplicate with a start fraction that is
    not negative and an end fraction that is not below it; the first
    duplicate starts at [0.0] and each next one starts at the end fraction
    of the one before. *)
Theorem thin_to_thick_fractions_ordered s curve o0 c0 n_instances n_frames
    delta_frame growth_delta palette sp :
  source s curve o0 c0 →
  1 ≤ n_instances →
  int_truediv n_frames n_instances = Ok delta_frame →
  growth_delta_of n_instances = Ok growth_delta →
  runs generate_5_random_colors_that_fit s palette sp →
  ∃ s' names,
    runs (grow_from_thinner_to_thicker curve n_instances n_frames) s tt s' ∧
    members s' "curve_cpy_thinner_to_thicker_collection"
      = members s "curve_cpy_thinner_to_thicker_collection" ++ names ∧
    Z.of_nat (length names) = n_instances ∧
    ∀ i ob, names !! i = Some ob →
      ∃ gs ge,
        bevel_of s' ob = Some (gs, ge, thickness i) ∧
        leb (Int 0) (Float gs) = true ∧
        leb (Float gs) (Float ge) = true ∧
        (i = 0%nat → gs = f0_0) ∧
        (∀ ob', names !! S i = Some ob' →
           ∃ ge', bevel_of s' ob' = Some (ge, ge', thickness (S i))).
Proof.
  intros [Hr Had] Hn Hdf Hgd Hpal.
  assert (Hplan : plan_of ThinnerToThicker n_instances n_frames palette
                  = Ok (thin_plan delta_frame growth_delta palette)).
  { simpl. by rewrite Hdf, Hgd. }
  destruct (grow_spec ThinnerToThicker s curve o0 c0 n_instances n_frames _
              palette sp Hr (action_of_none _ Had) ltac:(lia) Hplan Hpal)
    as (s' & names & Hrun & Hlen & _ & _ & _ & Hmem & Hinst & _).
  exists s', names. split_and!; [done..|].
  intros i ob Hi.
  pose proof (growth_delta_good _ _ Hn Hgd) as Hgood.
  destruct (start_growth_le growth_delta i Hgood) as [Hg Hle].
  exists (start_growth growth_delta i), (start_growth growth_delta (S i)).
  split_and!.
  - by rewrite (bevel_of_instance _ _ _ _ _ (Hinst i ob Hi)).
  - by apply (good_frame_nonneg (Float _)).
  - done.
  - by intros ->.
  - intros ob' Hi'. eexists.
    by rewrite (bevel_of_instance _ _ _ _ _ (Hinst (S i) ob' Hi')).
Qed.

(** A run of a strategy whose divisions evaluate, on a curve that is not
    animated and a random source that draws in [[0, 1]]. *)
Lemma grow_step st s curve n_instances n_frames :
  consistent s → unanimated s curve → unit_noise s →
  (∀ palette, ∃ plan, plan_of st n_instances n_frames palette = Ok plan) →
  ∃ s' names,
    runs (grow st curve n_instances n_frames) s tt s' ∧
    consistent s' ∧
    length names = Z.to_nat n_instances ∧
    grown st s s' names ∧
    extends [collection_of st] s s' 12 ∧
    paints_only names s s'.
Proof.
  intros Hs (o0 & c0 & Ho & Hc & Had) Hnz Hplans.
  destruct (runs_generate_unit s (Hnz _) (Hnz _))
    as (H & O & _ & _ & _ & _ & Hpal).
  destruct (Hplans (palette_from s H O)) as [plan Hplan].
  set (sp := with_noise_pos (λ p, 12 + p)%nat s) in *.
  assert (Hr : ready curve o0 c0 sp) by done.
  destruct (add_instances_spec curve (collection_of st) (option_of st) o0 c0
              plan (Z.to_nat n_instances) 0 sp Hr)
    as (names & Hlen & Hnd & Hfresh & Hmem & Hdom & _ & Hfo & Hfc & Hfa
        & Hpa).
  destruct (add_instances_frame curve (collection_of st) (option_of st) o0 c0
              plan (Z.to_nat n_instances) 0 sp) as (G1 & G2 & _ & G4 & G5).
  destruct (ready_add_instances curve (collection_of st) (option_of st) o0 c0
              plan (Z.to_nat n_instances) 0 sp Hr) as (_ & _ & R3).
  eexists _, names. split.
  { eapply runs_grow; [done|by apply action_of_none|done..]. }
  split_and!; try done.
  unfold extends. split_and!; try done.
  intros k Hk. apply G1. intros ->. apply Hk. by left.
Qed.

(** *** Chaining runs *)

Lemma extends_unanimated t s s' d curve :
  extends t s s' d → unanimated s curve → unanimated s' curve.
Proof.
  intros (Hfo & Hfc & _) (o0 & c0 & Ho & Hc & Had).
  exists o0, c0. split_and!; [by apply Hfo|by apply Hfc|done].
Qed.

Lemma extends_trans t1 t2 t s s1 s2 d1 d2 :
  t1 ⊆ t → t2 ⊆ t →
  extends t1 s s1 d1 → extends t2 s1 s2 d2 → extends t s s2 (d1 + d2).
Proof.
  intros Ht1 Ht2 (A1 & A2 & A3 & A4 & A5 & A6 & A7)
    (B1 & B2 & B3 & B4 & B5 & B6 & B7).
  unfold extends. split_and!.
  - intros k o Hk. by apply B1, A1.
  - intros k c Hk. by apply B2, A2.
  - intros k a Hk. by apply B3, A3.
  - intros k Hk. rewrite B4, A4; [done|..]; intros Hin; apply Hk; auto.
  - congruence.
  - congruence.
  - lia.
Qed.

Lemma grown_app st t s s1 s2 d names1 names2 :
  grown st s s1 names1 → extends t s s1 d → grown st s1 s2 names2 →
  grown st s s2 (names1 ++ names2).
Proof.
  intros (N1 & F1 & D1 & M1) (Hfo & _) (N2 & F2 & D2 & M2).
  unfold grown. split_and!.
  - apply NoDup_app. split_and!; [done| |done].
    intros x Hx1 Hx2. apply F2 in Hx2.
    assert (Hin : x ∈ dom (objects s1)).
    { rewrite D1. apply elem_of_union_r. by apply elem_of_list_to_set. }
    apply elem_of_dom in Hin as [o Ho]. congruence.
  - intros ob [Hin|Hin]%elem_of_app; [by apply F1|].
    apply F2 in Hin. destruct (objects s !! ob) as [o|] eqn:Ho; [|done].
    apply Hfo in Ho. congruence.
  - by rewrite D2, D1, list_to_set_app_L, (assoc_L (∪)).
  - by rewrite M2, M1, app_assoc.
Qed.

Lemma paints_only_app names1 names2 s s1 s2 :
  paints_only names1 s s1 → paints_only names2 s1 s2 →
  paints_only (names1 ++ names2) s s2.
Proof.
  intros H1 H2 m Hm.
  rewrite H2, H1; [done|..]; intros ob Hob; apply Hm, elem_of_app; auto.
Qed.

(** The divisions at the head of a strategy evaluate for a number of
    instances and a number of frames in range. *)
Lemma plan_of_range st n_instances n_frames palette :
  1 ≤ n_instances ≤ 2 ^ 1023 → 0 ≤ n_frames ≤ 2 ^ 1023 →
  ∃ plan, plan_of st n_instances n_frames palette = Ok plan.
Proof.
  intros Hn HF.
  destruct (growth_delta_of_range n_instances Hn) as [gd Hgd].
  destruct (int_truediv_range n_frames n_instances HF ltac:(lia)) as [df Hdf].
  destruct st; simpl; rewrite ?Hdf, Hgd; eauto.
Qed.

(** Both strategies return, for every number of instances from [1] to
    [2^1023] and every number of frames from [0] to [2^1023], on a curve
    whose data is not animated and a random source that draws in
    [[0, 1]]: no division, conversion, lookup or link raises.  As many new
    objects as there are instances are made and linked, in order, to the
    collection of the strategy, and no object, curve data or action that
    was in the scene is changed, nor any other collection. *)
Theorem grow_returns_in_range st s curve o0 c0 n_instances n_frames :
  source s curve o0 c0 →
  unit_noise s →
  1 ≤ n_instances ≤ 2 ^ 1023 →
  0 ≤ n_frames ≤ 2 ^ 1023 →
  ∃ s' names,
    runs (grow st curve n_instances n_frames) s tt s' ∧
    Z.of_nat (length names) = n_instances ∧
    grown st s s' names ∧
    extends [collection_of st] s s' 12 ∧
    consistent s'.
Proof.
  intros [(Ho & Hc & Hs) Had] Hnz Hn HF.
  assert (Hun : unanimated s curve) by (exists o0, c0; done).
  destruct (grow_step st s curve n_instances n_frames Hs Hun Hnz)
    as (s' & names & Hrun & Hs' & Hlen & Hg & He & _).
  { intros palette. by apply plan_of_range. }
  exists s', names. split_and!; try done. lia.
Qed.

(** A number of instances of [2^1024] or more cannot be converted to a
    float: both strategies raise [OverflowError] at [1.0 / n_instances],
    before anything is drawn or made. *)
Theorem grow_overflow st s curve n_instances n_frames :
  2 ^ 1024 ≤ n_instances →
  0 ≤ n_frames ≤ 2 ^ 1023 →
  fails (grow st curve n_instances n_frames) s OverflowError s.
Proof.
  intros Hn HF. pose proof (growth_delta_of_overflow n_instances Hn) as Hgd.
  destruct st; simpl.
  - unfold fails, grow_from_thicker_to_thinner, bind, lift. by rewrite Hgd.
  - destruct (int_truediv_range n_frames n_instances HF ltac:(lia))
      as [df Hdf].
    unfold fails, grow_from_thinner_to_thicker, bind, lift.
    by rewrite Hdf, Hgd.
Qed.

(** Running a strategy again on the same curve adds as many duplicates
    again: the second run makes new objects, distinct from those of the
    first, and links them to the same collection after them.  Each run
    draws twelve random values. *)
Theorem grow_again_accumulates st s curve o0 c0 n_instances n_frames :
  source s curve o0 c0 →
  unit_noise s →
  1 ≤ n_instances ≤ 2 ^ 1023 →
  0 ≤ n_frames ≤ 2 ^ 1023 →
  ∃ s1 s2 names1 names2,
    runs (grow st curve n_instances n_frames) s tt s1 ∧
    runs (grow st curve n_instances n_frames) s1 tt s2 ∧
    Z.of_nat (length names1) = n_instances ∧
    Z.of_nat (length names2) = n_instances ∧
    NoDup (names1 ++ names2) ∧
    (∀ ob, ob ∈ names1 ++ names2 → objects s !! ob = None) ∧
    members s1 (collection_of st) = members s (collection_of st) ++ names1 ∧
    members s2 (collection_of st)
      = members s (collection_of st) ++ names1 ++ names2 ∧
    noise_pos s2 = (24 + noise_pos s)%nat.
Proof.
  intros [(Ho & Hc & Hs) Had] Hnz Hn HF.
  assert (Hplans : ∀ palette,
            ∃ plan, plan_of st n_instances n_frames palette = Ok plan)
    by (intros palette; by apply plan_of_range).
  assert (Hun : unanimated s curve) by (exists o0, c0; done).
  destruct (grow_step st s curve n_instances n_frames Hs Hun Hnz Hplans)
    as (s1 & names1 & Hrun1 & Hs1 & Hlen1 & Hg1 & He1 & _).
  assert (Hun1 : unanimated s1 curve) by (by eapply extends_unanimated).
  assert (Hnz1 : unit_noise s1).
  { intros k. destruct He1 as (_ & _ & _ & _ & _ & -> & _). apply Hnz. }
  destruct (grow_step st s1 curve n_instances n_frames Hs1 Hun1 Hnz1 Hplans)
    as (s2 & names2 & Hrun2 & Hs2 & Hlen2 & Hg2 & He2 & _).
  destruct (grown_app st _ s s1 s2 _ names1 names2 Hg1 He1 Hg2)
    as (N & F & D & M).
  exists s1, s2, names1, names2. split_and!; try done; try lia.
  - by destruct Hg1 as (_ & _ & _ & ?).
  - destruct He1 as (_ & _ & _ & _ & _ & _ & E1).
    destruct He2 as (_ & _ & _ & _ & _ & _ & E2). lia.
Qed.

End Strategies.

(** ** Growth from an animated source *)

Module SharedAction.
Import Py Bpy Script Spec Run.
Import Duplicator Materials Shaping Palette Growth Keying.
Local Open Scope py_scope.
#[local] Hint Rewrite with_curves_with_actions with_curves_with_materials
  with_actions_with_materials with_curves_insert_insert
  with_actions_insert_insert with_materials_insert_insert
  with_objects_insert_insert with_objects_with_curves : scene_nf.

(** *** Growth from an animated source *)

Lemma runs_animate_curve_growth_next s ob an d c a fcs fs fe gs ge :
  objects s !! ob = Some (Object d an) →
  curves s !! d = Some c →
  cu_animation_data c = Some (AnimData (Some a)) →
  actions s !! a = Some (Action fcs) →
  runs (animate_curve_growth ob fs fe gs ge) s tt
    (with_actions
       <[a := Action
                (insert_fcurve_key "bevel_factor_end" fe ge
                   (insert_fcurve_key "bevel_factor_end" fs gs
                      (insert_fcurve_key "bevel_factor_start" fs gs fcs)))]>
       (with_curves
          <[d := Curve (splines c) gs ge (bevel_depth c) (cu_materials c)
                   (Some (AnimData (Some a)))]>
          s)).
Proof.
  intros Ho Hc Had Ha. unfold animate_curve_growth.
  step runs_data_of. step runs_set_bevel_factor_end.
  step runs_data_of. step runs_set_bevel_factor_start.
  step runs_data_of.
  eapply runs_bind.
  { eapply runs_keyframe_insert_next;
      [scene_lookup|exact Had|scene_lookup|reflexivity]. }
  step runs_data_of.
  eapply runs_bind.
  { eapply runs_keyframe_insert_next;
      [scene_lookup|exact Had|scene_lookup|reflexivity]. }
  step runs_data_of. step runs_set_bevel_factor_end.
  step runs_data_of.
  eapply runs_eq.
  { eapply runs_keyframe_insert_next;
      [scene_lookup|exact Had|scene_lookup|reflexivity]. }
  cbn. rewrite Had. autorewrite with scene_nf. reflexivity.
Qed.

Lemma runs_thicker_to_thinner_body_shared s curve n_frames growth_delta
    rand_5_colors instance_i curr_end_growth curr_thickness o0 c0 a0 fcs col :
  animated_source s curve o0 c0 a0 fcs →
  rand_5_colors !! Z.to_nat (instance_i mod 2) = Some col →
  runs (thicker_to_thinner_body curve n_frames growth_delta f0_0
          rand_5_colors instance_i (curr_end_growth, curr_thickness)) s
       (fsub curr_end_growth growth_delta,
        fadd curr_thickness thickness_delta)
       (add_shared_instance curve "curve_cpy_thicker_to_thinner_collection"
          "CUBIC" o0 c0 a0 fcs
          (InstanceParams (Int 0) (Int n_frames) f0_0 curr_end_growth
             curr_thickness col) s).
Proof.
  intros ((Ho & Hc & Hs) & Had & Ha) Hcol. unfold thicker_to_thinner_body.
  eapply runs_bind; [by eapply runs_copy_obj|].
  set (ob := fresh_string curve (objects s)).
  set (d := fresh_string (data o0) (curves s)).
  eapply runs_bind.
  { eapply runs_animate_curve_growth_next;
      [scene_lookup|scene_lookup|exact Had|].
    cbn [actions with_objects with_curves]. rewrite actions_link_into.
    exact Ha. }
  eapply runs_bind.
  { eapply runs_set_animation_fcurve;
      [scene_lookup|scene_lookup|reflexivity|scene_lookup]. }
  step runs_data_of. step runs_set_bevel_depth.
  step runs_data_of.
  eapply runs_bind.
  { eapply runs_keyframe_insert_next;
      [scene_lookup|reflexivity|scene_lookup|reflexivity]. }
  eapply runs_bind; [by apply runs_need|].
  eapply runs_bind; [by apply runs_create_material|].
  step runs_data_of.
  eapply runs_bind; [eapply runs_materials_append; scene_lookup|].
  eapply runs_eq; [apply runs_ret|].
  unfold add_shared_instance, shared_fcurves, instance_curve.
  fold ob d. cbn [fcurves ip_frame_start ip_frame_end ip_growth_start
                   ip_growth_end ip_thickness ip_color splines
                   bevel_factor_start bevel_factor_end bevel_depth
                   cu_materials cu_animation_data].
  autorewrite with scene_nf. reflexivity.
Qed.

Lemma runs_thinner_to_thicker_body_shared s curve delta_frame growth_delta
    rand_5_colors instance_i curr_frame frame_end curr_start_growth
    curr_thickness o0 c0 a0 fcs col :
  animated_source s curve o0 c0 a0 fcs →
  rand_5_colors !! Z.to_nat (instance_i mod 2) = Some col →
  add curr_frame (Float delta_frame) = Ok frame_end →
  runs (thinner_to_thicker_body curve delta_frame growth_delta
          rand_5_colors instance_i
          (curr_frame, curr_start_growth, curr_thickness)) s
       (frame_end, fadd curr_start_growth growth_delta,
        fadd curr_thickness thickness_delta)
       (add_shared_instance curve "curve_cpy_thinner_to_thicker_collection"
          "LINEAR" o0 c0 a0 fcs
          (InstanceParams curr_frame frame_end curr_start_growth
             (fadd curr_start_growth growth_delta) curr_thickness col) s).
Proof.
  intros ((Ho & Hc & Hs) & Had & Ha) Hcol Hadd.
  unfold thinner_to_thicker_body.
  eapply runs_bind; [by eapply runs_copy_obj|].
  set (ob := fresh_string curve (objects s)).
  set (d := fresh_string (data o0) (curves s)).
  eapply runs_bind; [by apply runs_lift|].
  eapply runs_bind.
  { eapply runs_animate_curve_growth_next;
      [scene_lookup|scene_lookup|exact Had|].
    cbn [actions with_objects with_curves]. rewrite actions_link_into.
    exact Ha. }
  eapply runs_bind.
  { eapply runs_set_animation_fcurve;
      [scene_lookup|scene_lookup|reflexivity|scene_lookup]. }
  eapply runs_bind; [by apply runs_lift|].
  step runs_data_of. step runs_set_bevel_depth.
  step runs_data_of.
  eapply runs_bind.
  { eapply runs_keyframe_insert_next;
      [scene_lookup|reflexivity|scene_lookup|reflexivity]. }
  eapply runs_bind; [by apply runs_need|].
  eapply runs_bind; [by apply runs_create_material|].
  step runs_data_of.
  eapply runs_bind; [eapply runs_materials_append; scene_lookup|].
  eapply runs_eq; [apply runs_ret|].
  unfold add_shared_instance, shared_fcurves, instance_curve.
  fold ob d. cbn [fcurves ip_frame_start ip_frame_end ip_growth_start
                   ip_growth_end ip_thickness ip_color splines
                   bevel_factor_start bevel_factor_end bevel_depth
                   cu_materials cu_animation_data].
  autorewrite with scene_nf. reflexivity.
Qed.

Lemma animated_source_add curve collection option o0 c0 a0 fcs p s :
  animated_source s curve o0 c0 a0 fcs →
  animated_source
    (add_shared_instance curve collection option o0 c0 a0 fcs p s)
    curve o0 c0 a0 (shared_fcurves option p fcs).
Proof.
  intros ((Ho & Hc & Hs) & Had & Ha). unfold animated_source, ready.
  split_and!.
  - unfold add_shared_instance.
    cbn [objects with_materials with_actions with_curves with_objects].
    rewrite objects_link_into, lookup_insert_ne; [done|].
    apply fresh_string_ne; eauto.
  - unfold add_shared_instance.
    cbn [curves with_materials with_actions with_curves with_objects].
    rewrite curves_link_into, lookup_insert_ne; [done|].
    apply fresh_string_ne; eauto.
  - set (ob := fresh_string curve (objects s)).
    set (d := fresh_string (data o0) (curves s)).
    apply (consistent_copy s ob d (instance_curve c0 a0 (ob +:+ "_mat") p)
             (Some collection)) in Hs.
    exact Hs.
  - done.
  - unfold add_shared_instance.
    cbn [actions with_materials with_actions]. apply lookup_insert_eq.
Qed.

Lemma runs_thicker_to_thinner_loop_shared curve n_frames growth_delta palette
    o0 c0 a0 n i fcs s :
  animated_source s curve o0 c0 a0 fcs →
  length palette = 5%nat →
  runs (for_range
          (thicker_to_thinner_body curve n_frames growth_delta f0_0 palette)
          (Z.of_nat i) n (end_growth growth_delta i, thickness i)) s
       (end_growth growth_delta (i + n), thickness (i + n))
       (add_shared_instances curve "curve_cpy_thicker_to_thinner_collection"
          "CUBIC" o0 c0 a0 fcs (thick_plan n_frames growth_delta palette)
          i n s).
Proof.
  intros Hsrc Hlen. revert i fcs s Hsrc.
  induction n as [|n IH]; intros i fcs s Hsrc.
  - rewrite Nat.add_0_r. apply runs_ret.
  - cbn [for_range add_shared_instances].
    eapply runs_bind.
    { eapply runs_thicker_to_thinner_body_shared; [done|].
      by apply palette_index. }
    replace (Z.of_nat i + 1) with (Z.of_nat (S i)) by lia.
    replace (i + S n)%nat with (S i + n)%nat by lia.
    apply (IH (S i)).
    by apply (animated_source_add _ _ _ _ _ _ _
                (thick_plan n_frames growth_delta palette i)).
Qed.

Lemma runs_thinner_to_thicker_loop_shared curve delta_frame growth_delta
    palette o0 c0 a0 n i fcs s :
  animated_source s curve o0 c0 a0 fcs →
  length palette = 5%nat →
  runs (for_range
          (thinner_to_thicker_body curve delta_frame growth_delta palette)
          (Z.of_nat i) n
          (frame_start delta_frame i, start_growth growth_delta i,
           thickness i)) s
       (frame_start delta_frame (i + n), start_growth growth_delta (i + n),
        thickness (i + n))
       (add_shared_instances curve "curve_cpy_thinner_to_thicker_collection"
          "LINEAR" o0 c0 a0 fcs (thin_plan delta_frame growth_delta palette)
          i n s).
Proof.
  intros Hsrc Hlen. revert i fcs s Hsrc.
  induction n as [|n IH]; intros i fcs s Hsrc.
  - rewrite Nat.add_0_r. apply runs_ret.
  - cbn [for_range add_shared_instances].
    eapply runs_bind.
    { eapply runs_thinner_to_thicker_body_shared; [done| |].
      - by apply palette_index.
      - apply add_frame_start. }
    replace (Z.of_nat i + 1) with (Z.of_nat (S i)) by lia.
    replace (i + S n)%nat with (S i + n)%nat by lia.
    apply (IH (S i)).
    by apply (animated_source_add _ _ _ _ _ _ _
                (thin_plan delta_frame growth_delta palette i)).
Qed.

Lemma animated_source_with_noise_pos curve o0 c0 a0 fcs f s :
  animated_source s curve o0 c0 a0 fcs →
  animated_source (with_noise_pos f s) curve o0 c0 a0 fcs.
Proof. done. Qed.

Lemma runs_grow_shared st s curve o0 c0 a0 fcs n_instances n_frames plan
    palette sp :
  animated_source s curve o0 c0 a0 fcs →
  plan_of st n_instances n_frames palette = Ok plan →
  runs generate_5_random_colors_that_fit s palette sp →
  runs (grow st curve n_instances n_frames) s tt
       (add_shared_instances curve (collection_of st) (option_of st) o0 c0 a0
          fcs plan 0 (Z.to_nat n_instances) sp).
Proof.
  intros Hsrc Hplan Hpal.
  destruct (generate_inv _ _ _ Hpal) as [Hlen Hsp].
  assert (Hsrc' : animated_source sp curve o0 c0 a0 fcs)
    by (subst sp; exact Hsrc).
  destruct st; simpl in Hplan |- *.
  - destruct (growth_delta_of n_instances) as [gd|] eqn:Hgd; [|done].
    injection Hplan as <-. unfold grow_from_thicker_to_thinner.
    eapply runs_bind; [by apply runs_lift|].
    eapply runs_bind; [exact Hpal|].
    eapply runs_bind; [|apply runs_ret].
    by apply (runs_thicker_to_thinner_loop_shared _ _ _ _ o0 c0 a0 _ 0%nat).
  - destruct (int_truediv n_frames n_instances) as [df|] eqn:Hdf; [|done].
    destruct (growth_delta_of n_instances) as [gd|] eqn:Hgd; [|done].
    injection Hplan as <-. unfold grow_from_thinner_to_thicker.
    eapply runs_bind; [by apply runs_lift|].
    eapply runs_bind; [by apply runs_lift|].
    eapply runs_bind; [exact Hpal|].
    eapply runs_bind; [|apply runs_ret].
    by apply (runs_thinner_to_thicker_loop_shared _ _ _ _ o0 c0 a0 _ 0%nat).
Qed.

(** *** What the loops leave *)

Lemma elem_of_insert_fcurve_key path frame v fcs fc :
  fc ∈ insert_fcurve_key path frame v fcs → data_path fc ≠ path →
  fc ∈ fcs.
Proof.
  induction fcs as [|fc' fcs IH]; simpl.
  - intros ->%list_elem_of_singleton. done.
  - destruct (String.eqb (data_path fc') path) eqn:Heq.
    + intros [->|Hin]%elem_of_cons Hne; [done|by right].
    + intros [->|Hin]%elem_of_cons Hne; [by left|right; by apply IH].
Qed.

Lemma shared_fcurves_shaped option p fcs :
  all_shaped option (shared_fcurves option p fcs).
Proof.
  intros fc kf Hfc Hne Hkf. unfold shared_fcurves in Hfc.
  apply elem_of_insert_fcurve_key in Hfc; [|done].
  apply list_elem_of_fmap in Hfc as (fc0 & -> & _).
  by eapply shape_fcurve_keys.
Qed.

Lemma shared_fcurves_after_shaped option plan i n fcs :
  (0 < n)%nat → all_shaped option (shared_fcurves_after option plan i n fcs).
Proof.
  revert i fcs. induction n as [|n IH]; intros i fcs Hn; [lia|].
  cbn [shared_fcurves_after]. destruct n as [|n].
  - apply shared_fcurves_shaped.
  - apply IH. lia.
Qed.

Lemma add_shared_instances_spec curve collection option o0 c0 a0 plan n i fcs
    s :
  animated_source s curve o0 c0 a0 fcs →
  let s' := add_shared_instances curve collection option o0 c0 a0 fcs plan
              i n s in
  ∃ names,
    length names = n ∧
    NoDup names ∧
    (∀ ob, ob ∈ names → objects s !! ob = None) ∧
    members s' collection = members s collection ++ names ∧
    animated_source s' curve o0 c0 a0
      (shared_fcurves_after option plan i n fcs) ∧
    dom (actions s') = dom (actions s) ∧
    (∀ ob, ob ∈ names →
       ∃ d c, objects s' !! ob = Some (Object d None) ∧
              curves s' !! d = Some c ∧
              cu_animation_data c = Some (AnimData (Some a0))) ∧
    (∀ k o, objects s !! k = Some o → objects s' !! k = Some o) ∧
    (∀ k c, curves s !! k = Some c → curves s' !! k = Some c) ∧
    dom (objects s') = dom (objects s) ∪ list_to_set names ∧
    (∀ j ob, names !! j = Some ob →
       ∃ d,
         objects s' !! ob = Some (Object d None) ∧
         curves s' !! d
           = Some (instance_curve c0 a0 (ob +:+ "_mat") (plan (i + j)%nat)) ∧
         materials s' !! (ob +:+ "_mat")
           = Some (diffuse_material (ip_color (plan (i + j)%nat)))) ∧
    paints_only names s s'.
Proof.
  revert i fcs s. induction n as [|n IH]; intros i fcs s Hsrc; cbn zeta.
  - exists []. cbn [add_shared_instances shared_fcurves_after].
    split_and!; try done.
    + apply NoDup_nil_2.
    + intros ob Hob. by apply elem_of_nil in Hob.
    + by rewrite app_nil_r.
    + intros ob Hob. by apply elem_of_nil in Hob.
    + simpl. by rewrite union_empty_r_L.
  - cbn [add_shared_instances shared_fcurves_after].
    set (s1 := add_shared_instance curve collection option o0 c0 a0 fcs
                 (plan i) s).
    set (ob1 := fresh_string curve (objects s)).
    set (d1 := fresh_string (data o0) (curves s)).
    assert (Hnew : objects s !! ob1 = None) by apply fresh_string_fresh.
    assert (Hobj1 : objects s1 = <[ob1 := Object d1 None]> (objects s)).
    { unfold s1, add_shared_instance.
      cbn [objects with_materials with_actions with_curves with_objects].
      by rewrite objects_link_into. }
    assert (Hcur1 : curves s1
              = <[d1 := instance_curve c0 a0 (ob1 +:+ "_mat") (plan i)]>
                  (curves s)).
    { unfold s1, add_shared_instance.
      cbn [curves with_materials with_actions with_curves with_objects].
      by rewrite curves_link_into. }
    assert (Hmat1 : materials s1
              = <[ob1 +:+ "_mat" := diffuse_material (ip_color (plan i))]>
                  (materials s)).
    { unfold s1, add_shared_instance.
      cbn [materials with_materials with_actions with_curves with_objects].
      by rewrite materials_link_into. }
    assert (Hact1 : dom (actions s1) = dom (actions s)).
    { unfold s1, add_shared_instance.
      cbn [actions with_materials with_actions with_curves with_objects].
      rewrite actions_link_into. apply dom_insert_lookup_L.
      destruct Hsrc as (_ & _ & Ha). eauto. }
    pose proof (animated_source_add curve collection option o0 c0 a0 fcs
                  (plan i) s Hsrc) as Hsrc1. fold s1 in Hsrc1.
    destruct (IH (S i) _ s1 Hsrc1)
      as (names & Hlen & Hnd & Hfresh & Hmem & Hsrc' & Hdom & Hinst & Hfo
          & Hfc & Hdomo & Hpaint & Hpa).
    assert (Hnotin : ob1 ∉ names).
    { intros Hin. apply Hfresh in Hin. rewrite Hobj1, lookup_insert_eq in Hin.
      discriminate. }
    destruct Hsrc as ((Ho & Hc & Hs) & Had & Ha).
    exists (ob1 :: names). split_and!.
    + simpl. by rewrite Hlen.
    + by apply NoDup_cons_2.
    + intros ob [->|Hin]%elem_of_cons; [done|].
      apply Hfresh in Hin. rewrite Hobj1 in Hin.
      apply lookup_insert_None in Hin as [? _]. done.
    + rewrite Hmem. unfold s1, members, add_shared_instance, link_into.
      cbn [collections with_materials with_actions with_curves with_objects].
      destruct (collections s !! collection) as [obs|] eqn:Hcl; simpl;
        rewrite lookup_insert_eq; simpl; by rewrite <- ?app_assoc.
    + done.
    + by rewrite Hdom.
    + intros ob [->|Hin]%elem_of_cons; [|by apply Hinst].
      exists d1, (instance_curve c0 a0 (ob1 +:+ "_mat") (plan i)).
      split_and!; [| |done].
      * apply Hfo. rewrite Hobj1. apply lookup_insert_eq.
      * apply Hfc. rewrite Hcur1. apply lookup_insert_eq.
    + intros k o Hk. apply Hfo. rewrite Hobj1.
      rewrite lookup_insert_ne; [done|]. congruence.
    + intros k c Hk. apply Hfc. rewrite Hcur1.
      rewrite lookup_insert_ne; [done|].
      apply fresh_string_ne; eauto.
    + rewrite Hdomo, Hobj1, dom_insert_L. simpl.
      by rewrite (comm_L (∪) {[ob1]}), <- (assoc_L (∪)).
    + intros [|j] ob Hj; simpl in Hj.
      * injection Hj as <-. rewrite Nat.add_0_r. exists d1. split_and!.
        -- apply Hfo. rewrite Hobj1. apply lookup_insert_eq.
        -- apply Hfc. rewrite Hcur1. apply lookup_insert_eq.
        -- rewrite Hpa; [by rewrite Hmat1, lookup_insert_eq|].
           intros ob Hob Heq. apply string_app_inj_r in Heq as ->. done.
      * replace (i + S j)%nat with (S i + j)%nat by lia. by apply Hpaint.
    + intros m Hne. rewrite Hpa.
      * rewrite Hmat1, lookup_insert_ne; [done|].
        intros Heq. apply (Hne ob1); [by left|done].
      * intros ob Hob. apply Hne. by right.
Qed.

(** Growth from a source whose curve data is animated: the duplicates'
    curve data refers to the action of the source, so no action is made;
    every duplicate and the source itself end up animated by the same
    F-curves, in which the growth and depth keys of all the duplicates are
    merged and every key, those the source had before included, has been
    given the interpolation of the strategy and made to ease out (the keys
    of the depth apart). *)
Theorem animated_source_shares_action st s curve o0 c0 a0 fcs n_instances
    n_frames plan palette sp :
  animated_source s curve o0 c0 a0 fcs →
  1 ≤ n_instances →
  plan_of st n_instances n_frames palette = Ok plan →
  runs generate_5_random_colors_that_fit s palette sp →
  ∃ s' names fcs',
    runs (grow st curve n_instances n_frames) s tt s' ∧
    Z.of_nat (length names) = n_instances ∧
    members s' (collection_of st) = members s (collection_of st) ++ names ∧
    dom (actions s') = dom (actions s) ∧
    fcs' = shared_fcurves_after (option_of st) plan 0 (Z.to_nat n_instances)
             fcs ∧
    fcurves_of s' curve = Some fcs' ∧
    (∀ ob, ob ∈ names → fcurves_of s' ob = Some fcs') ∧
    all_shaped (option_of st) fcs'.
Proof.
  intros Hsrc Hn Hplan Hpal.
  destruct (generate_inv _ _ _ Hpal) as [Hlen Hsp].
  assert (Hsrc' : animated_source sp curve o0 c0 a0 fcs)
    by (subst sp; exact Hsrc).
  destruct (add_shared_instances_spec curve (collection_of st) (option_of st)
              o0 c0 a0 plan (Z.to_nat n_instances) 0 fcs sp Hsrc')
    as (names & Hl & _ & _ & Hmem & ((Ho & Hc & _) & Had & Ha) & Hdom & Hinst
        & _).
  eexists _, names, _. split; [by eapply runs_grow_shared|].
  subst sp. split_and!; try done.
  - lia.
  - by rewrite (fcurves_of_lookup _ _ _ _ _ _ Ho Hc Had Ha).
  - intros ob Hob. destruct (Hinst ob Hob) as (d & c & Hob' & Hc' & Had').
    by rewrite (fcurves_of_lookup _ _ (Object d None) _ _ _ Hob' Hc' Had' Ha).
  - apply shared_fcurves_after_shaped. lia.
Qed.

End SharedAction.

(** ** The materials of the instances *)

Module Painting.
Import Py Bpy Script Spec Run.
Import Palette Growth SharedAction.
Local Open Scope py_scope.

(** The materials of an object whose curve data is that of an instance. *)
Lemma painted_lookup s ob d c0 a p :
  objects s !! ob = Some (Object d None) →
  curves s !! d = Some (instance_curve c0 a (ob +:+ "_mat") p) →
  materials s !! (ob +:+ "_mat") = Some (diffuse_material (ip_color p)) →
  materials_of s ob = Some (cu_materials c0 ++ [ob +:+ "_mat"]) ∧
  material_color s (ob +:+ "_mat") = Some (RGBA (ip_color p) f1_0).
Proof.
  intros Ho Hc Hm. unfold materials_of, material_color.
  rewrite Ho. simpl. rewrite Hc, Hm. done.
Qed.

(** The colour an instance is planned with is one of the first two of the
    palette. *)
Lemma plan_color st n_instances n_frames (palette : list color) plan i :
  length palette = 5%nat →
  plan_of st n_instances n_frames palette = Ok plan →
  palette !! (i mod 2)%nat = Some (ip_color (plan i)).
Proof.
  intros Hlen Hplan.
  rewrite (proj2 (plan_thickness _ _ _ _ _ i Hplan)). unfold instance_color.
  destruct (palette !! (i mod 2)%nat) as [col|] eqn:Hcol; [done|].
  apply lookup_ge_None in Hcol.
  pose proof (Nat.mod_upper_bound i 2 ltac:(lia)). lia.
Qed.

(** A source whose curve data has an action is animated by it. *)
Lemma action_of_some c a :
  action_of c = Some a → cu_animation_data c = Some (AnimData (Some a)).
Proof.
  unfold action_of. destruct (cu_animation_data c) as [[[a'|]]|]; simpl;
    by intros [= ->].
Qed.

(** C10: in both strategies and whatever animation the source's curve
    data has, the material of instance [i] is built with the colour at
    index [i mod 2] of the five colours of the palette, so only the colours
    at indices [0] and [1] are used; exactly one material, named after the
    instance, is appended to the materials the duplicate's curve data has
    from the source, and no other material is made or changed. *)
Theorem instance_painted_with_two_colors st s curve o0 c0 n_instances
    n_frames plan palette sp :
  ready curve o0 c0 s →
  action_known s c0 →
  1 ≤ n_instances →
  plan_of st n_instances n_frames palette = Ok plan →
  runs generate_5_random_colors_that_fit s palette sp →
  paint_outcome st s curve c0 n_instances n_frames palette.
Proof.
  intros Hr Hk Hn Hplan Hpal.
  destruct (generate_inv _ _ _ Hpal) as [Hlen Hsp].
  assert (Hr' : ready curve o0 c0 sp) by (subst sp; exact Hr).
  destruct (action_of c0) as [a0|] eqn:Hact.
  - (* the source's curve data is animated by [a0] *)
    destruct (Hk a0 Hact) as [[fcs] Ha].
    pose proof (action_of_some _ _ Hact) as Had.
    assert (Hsrc : animated_source s curve o0 c0 a0 fcs) by done.
    assert (Hsrc' : animated_source sp curve o0 c0 a0 fcs)
      by (subst sp; exact Hsrc).
    destruct (add_shared_instances_spec curve (collection_of st)
                (option_of st) o0 c0 a0 plan (Z.to_nat n_instances) 0 fcs sp
                Hsrc')
      as (names & Hl & Hnd & Hfresh & Hmem & _ & _ & _ & _ & _ & Hdom
          & Hpaint & Hpa).
    eexists _, names. split; [by eapply runs_grow_shared|].
    subst sp. split; [unfold duplicates; split_and!; [lia|done..]|].
    split; [done|]. split; [|done].
    intros i ob Hi. destruct (Hpaint i ob Hi) as (d & Ho & Hc & Hm).
    exists (ip_color (plan i)). split; [by eapply plan_color|].
    by eapply painted_lookup.
  - (* it has none *)
    destruct (add_instances_spec curve (collection_of st) (option_of st)
                o0 c0 plan (Z.to_nat n_instances) 0 sp Hr')
      as (names & Hl & Hnd & Hfresh & Hmem & Hdom & Hinst & _ & _ & _ & Hpa).
    eexists _, names. split; [by eapply runs_grow|].
    subst sp. split; [unfold duplicates; split_and!; [lia|done..]|].
    split; [done|]. split; [|done].
    intros i ob Hi.
    exists (ip_color (plan i)). split; [by eapply plan_color|].
    by apply (materials_of_instance _ _ _ _ _ (Hinst i ob Hi)).
Qed.

End Painting.

(** ** The script *)

Module Program.
Import Py Bpy Script Spec Run Strategies.
Local Open Scope py_scope.

(** *** One run of a strategy with the parameters of [main] *)

Lemma plan_of_main st palette :
  ∃ plan, plan_of st 10 300 palette = Ok plan.
Proof. destruct st; eexists; reflexivity. Qed.

Lemma grow_main st s curve :
  consistent s → unanimated s curve → unit_noise s →
  ∃ s' names,
    runs (grow st curve 10 300) s tt s' ∧
    consistent s' ∧
    length names = 10%nat ∧
    grown st s s' names ∧
    extends [collection_of st] s s' 12 ∧
    paints_only names s s'.
Proof.
  intros Hs Hc Hnz.
  apply (grow_step st s curve 10 300); [done..|]. apply plan_of_main.
Qed.

Lemma for_each_grow st obs s :
  consistent s → Forall (unanimated s) obs → unit_noise s →
  ∃ s' names,
    runs (for_each (λ curve, grow st curve 10 300) obs) s tt s' ∧
    consistent s' ∧
    length names = (10 * length obs)%nat ∧
    grown st s s' names ∧
    extends [collection_of st] s s' (12 * length obs) ∧
    paints_only names s s'.
Proof.
  revert s. induction obs as [|curve obs IH]; intros s Hs Hall Hnz.
  - exists s, []. split_and!; try done.
    unfold grown. split_and!.
    + apply NoDup_nil_2.
    + intros ob Hob. by apply elem_of_nil in Hob.
    + simpl. by rewrite union_empty_r_L.
    + by rewrite app_nil_r.
  - apply Forall_cons in Hall as [Hc Hall].
    destruct (grow_main st s curve Hs Hc Hnz)
      as (s1 & names1 & Hrun1 & Hs1 & Hlen1 & Hg1 & He1 & Hp1).
    assert (Hall1 : Forall (unanimated s1) obs).
    { eapply Forall_impl; [exact Hall|]. intros x.
      by eapply extends_unanimated. }
    assert (Hnz1 : unit_noise s1).
    { intros k. destruct He1 as (_ & _ & _ & _ & _ & -> & _). apply Hnz. }
    destruct (IH s1 Hs1 Hall1 Hnz1)
      as (s2 & names2 & Hrun2 & Hs2 & Hlen2 & Hg2 & He2 & Hp2).
    exists s2, (names1 ++ names2). split_and!.
    + cbn [for_each]. by eapply runs_bind.
    + done.
    + rewrite length_app, Hlen1, Hlen2. simpl. lia.
    + by eapply grown_app.
    + replace (12 * length (curve :: obs))%nat
        with (12 + 12 * length obs)%nat by (simpl; lia).
      by eapply extends_trans; [| |exact He1|exact He2].
    + by eapply paints_only_app.
Qed.

(** *** The script *)

Lemma runs_all_objects s name obs :
  collections s !! name = Some obs → runs (all_objects name) s obs s.
Proof.
  intros H. unfold all_objects. eapply runs_bind; [apply runs_get|].
  by apply runs_need.
Qed.

(** When each of the two start collections exists and holds curve
    objects whose data is not animated, and the random source draws in
    [[0, 1]], [main] returns: it has made ten duplicates of every curve of
    the first collection, linked in order to the collection of
    thick-to-thin, and then ten of every curve of the second, linked to
    the collection of thin-to-thick.  All the duplicates are new, distinct
    objects.  No object, curve data or action that was in the scene has
    changed, nor any collection but the two the duplicates are linked to
    (the start collections are as they were), nor the scene's own list of
    objects; the only materials made or changed are those named after the
    duplicates, ["<duplicate>_mat"], so that a material of such a name
    that was there is rebuilt; twelve random values were drawn per
    curve. *)
Theorem main_duplicates_every_curve s obs1 obs2 :
  consistent s →
  collections s !! "start_thicker_to_thinner_collection" = Some obs1 →
  collections s !! "start_thinner_to_thicker_collection" = Some obs2 →
  Forall (unanimated s) obs1 →
  Forall (unanimated s) obs2 →
  unit_noise s →
  ∃ s' names1 names2,
    runs main s tt s' ∧
    length names1 = (10 * length obs1)%nat ∧
    length names2 = (10 * length obs2)%nat ∧
    NoDup (names1 ++ names2) ∧
    (∀ ob, ob ∈ names1 ++ names2 → objects s !! ob = None) ∧
    dom (objects s') = dom (objects s) ∪ list_to_set (names1 ++ names2) ∧
    members s' "curve_cpy_thicker_to_thinner_collection"
      = members s "curve_cpy_thicker_to_thinner_collection" ++ names1 ∧
    members s' "curve_cpy_thinner_to_thicker_collection"
      = members s "curve_cpy_thinner_to_thicker_collection" ++ names2 ∧
    extends ["curve_cpy_thicker_to_thinner_collection";
             "curve_cpy_thinner_to_thicker_collection"] s s'
            (12 * (length obs1 + length obs2)) ∧
    paints_only (names1 ++ names2) s s' ∧
    consistent s'.
Proof.
  intros Hs Hc1 Hc2 Hall1 Hall2 Hnz.
  destruct (for_each_grow ThickerToThinner obs1 s Hs Hall1 Hnz)
    as (s1 & names1 & Hrun1 & Hs1 & Hlen1 & Hg1 & He1 & Hp1).
  assert (Hc2' : collections s1 !! "start_thinner_to_thicker_collection"
                 = Some obs2).
  { destruct He1 as (_ & _ & _ & -> & _); [done|].
    by intros [?|[]%elem_of_nil]%elem_of_cons. }
  assert (Hall2' : Forall (unanimated s1) obs2).
  { eapply Forall_impl; [exact Hall2|]. intros x.
    by eapply extends_unanimated. }
  assert (Hnz1 : unit_noise s1).
  { intros k. destruct He1 as (_ & _ & _ & _ & _ & -> & _). apply Hnz. }
  destruct (for_each_grow ThinnerToThicker obs2 s1 Hs1 Hall2' Hnz1)
    as (s2 & names2 & Hrun2 & Hs2 & Hlen2 & Hg2 & He2 & Hp2).
  pose proof (paints_only_app _ _ _ _ _ Hp1 Hp2) as Hp.
  assert (Hext : extends ["curve_cpy_thicker_to_thinner_collection";
                          "curve_cpy_thinner_to_thicker_collection"] s s2
                   (12 * (length obs1 + length obs2))).
  { replace (12 * (length obs1 + length obs2))%nat
      with (12 * length obs1 + 12 * length obs2)%nat by lia.
    eapply extends_trans; [| |exact He1|exact He2]; simpl.
    - intros x [->|[]%elem_of_nil]%elem_of_cons. by left.
    - intros x [->|[]%elem_of_nil]%elem_of_cons. right. by left. }
  destruct Hg1 as (N1 & F1 & D1 & M1). destruct Hg2 as (N2 & F2 & D2 & M2).
  exists s2, names1, names2. split_and!; try done.
  - unfold main. eapply runs_bind; [by apply runs_all_objects|].
    eapply runs_bind; [exact Hrun1|].
    eapply runs_bind; [by apply runs_all_objects|]. exact Hrun2.
  - apply NoDup_app. split_and!; [done| |done].
    intros x Hx1 Hx2. apply F2 in Hx2.
    assert (Hin : x ∈ dom (objects s1)).
    { rewrite D1. apply elem_of_union_r. by apply elem_of_list_to_set. }
    apply elem_of_dom in Hin as [o Ho]. congruence.
  - intros ob [Hin|Hin]%elem_of_app; [by apply F1|].
    apply F2 in Hin. destruct (objects s !! ob) as [o|] eqn:Ho; [|done].
    destruct He1 as (Hfo & _). apply Hfo in Ho. congruence.
  - by rewrite D2, D1, list_to_set_app_L, (assoc_L (∪)).
  - simpl in M1. rewrite <- M1. unfold members.
    destruct He2 as (_ & _ & _ & -> & _); [done|].
    by intros [?|[]%elem_of_nil]%elem_of_cons.
  - simpl in M2. rewrite M2. f_equal. unfold members.
    destruct He1 as (_ & _ & _ & -> & _); [done|].
    by intros [?|[]%elem_of_nil]%elem_of_cons.
Qed.

(** [main] looks each start collection up when it comes to it.  Without
    the first it raises [KeyError] with the scene untouched; without the
    second it raises [KeyError] only after the duplicates of the curves of
    the first have been made, and these stay. *)
Theorem main_missing_collection s :
  (collections s !! "start_thicker_to_thinner_collection" = None →
   fails main s KeyError s) ∧
  (∀ obs1,
     consistent s →
     collections s !! "start_thicker_to_thinner_collection" = Some obs1 →
     collections s !! "start_thinner_to_thicker_collection" = None →
     Forall (unanimated s) obs1 →
     unit_noise s →
     ∃ s' names1,
       fails main s KeyError s' ∧
       length names1 = (10 * length obs1)%nat ∧
       grown ThickerToThinner s s' names1 ∧
       extends ["curve_cpy_thicker_to_thinner_collection"] s s'
               (12 * length obs1)).
Proof.
  split.
  - intros Hc. unfold fails, main, all_objects, bind, get. by rewrite Hc.
  - intros obs1 Hs Hc1 Hc2 Hall1 Hnz.
    destruct (for_each_grow ThickerToThinner obs1 s Hs Hall1 Hnz)
      as (s1 & names1 & Hrun1 & Hs1 & Hlen1 & Hg1 & He1 & _).
    assert (Hc2' : collections s1 !! "start_thinner_to_thicker_collection"
                   = None).
    { destruct He1 as (_ & _ & _ & -> & _); [done|].
      by intros [?|[]%elem_of_nil]%elem_of_cons. }
    exists s1, names1. split_and!; try done.
    unfold main. eapply fails_bind_later; [by apply runs_all_objects|].
    eapply fails_bind_later; [exact Hrun1|].
    apply fails_bind_now. unfold fails, all_objects, bind, get.
    by rewrite Hc2'.
Qed.

End Program.

(** ** The claims on sample scenes *)

Module Instances.
Import Py Bpy Script Spec Samples Run.

Lemma consistent_one_curve : consistent one_curve.
Proof.
  unfold consistent. split_and!.
  - apply map_Forall_singleton. simpl. by eexists.
  - apply map_Forall_empty.
  - apply Forall_singleton. by eexists.
  - exact I.
Defined.

Lemma source_one_curve :
  source one_curve "Curve" (Object "CurveData" None) plain_curve.
Proof.
  split; [|reflexivity]. split_and!; [reflexivity..|].
  exact consistent_one_curve.
Defined.

Lemma palette_one_curve :
  runs generate_5_random_colors_that_fit one_curve
       (palette_from one_curve 180 18)
       (with_noise_pos (λ p, 12 + p)%nat one_curve).
Proof. vm_compute. reflexivity. Defined.

(** *** C1 *)

Lemma thicker_to_thinner_end_fractions_witness :
  source one_curve "Curve" (Object "CurveData" None) plain_curve ∧
  1 ≤ 2 ∧
  growth_delta_of 2 = Ok f0_5 ∧
  runs generate_5_random_colors_that_fit one_curve
       (palette_from one_curve 180 18)
       (with_noise_pos (λ p, 12 + p)%nat one_curve) ∧
  thick_to_thin_outcome one_curve "Curve" 2 300 f0_5.
Proof.
  assert (H1 : 1 ≤ 2) by lia.
  assert (H2 : growth_delta_of 2 = Ok f0_5) by reflexivity.
  exact (conj source_one_curve (conj H1 (conj H2 (conj palette_one_curve
    (Growth.thicker_to_thinner_end_fractions one_curve "Curve" _ _ 2 300 f0_5
       _ _ source_one_curve H1 H2 palette_one_curve))))).
Defined.

(** With the script's own parameters, ten instances over 300 frames, the
    end fraction of instance 3 is keyed at frame 300 to
    [0.7000000000000001] ([0x1.6666666666667p-1]): this is not the rational
    [1 - 3/10], and it is not the float [1 - 3/10 = 0.7] either. *)
Lemma thicker_to_thinner_instance_3_inexact :
  let r := grow_from_thicker_to_thinner "Curve" 10 300 one_curve in
  let v := S754_finite false 6305039478318695 (-53) in
  r.2 = Ok tt ∧
  members r.1 "curve_cpy_thicker_to_thinner_collection" !! 3%nat
    = Some "Curve3" ∧
  keys_of r.1 "Curve3" "bevel_factor_end"
    = Some [Keyframe (Int 0) f0_0 "CUBIC" "EASE_OUT";
            Keyframe (Int 300) v "CUBIC" "EASE_OUT"] ∧
  (∀ q, to_Q v = Some q → ¬ (q == 1 - 3 # 10)%Q) ∧
  int_truediv 3 10 = Ok f0_3 ∧
  v ≠ fsub f1_0 f0_3.
Proof.
  cbv zeta. split_and!.
  - vm_compute. reflexivity.
  - vm_compute. reflexivity.
  - vm_compute. reflexivity.
  - intros q [= <-]. vm_compute. discriminate.
  - reflexivity.
  - vm_compute. discriminate.
Qed.

(** *** C2 *)

Lemma thinner_to_thicker_windows_witness :
  source one_curve "Curve" (Object "CurveData" None) plain_curve ∧
  1 ≤ 2 ∧
  int_truediv 1 2 = Ok f0_5 ∧
  growth_delta_of 2 = Ok f0_5 ∧
  runs generate_5_random_colors_that_fit one_curve
       (palette_from one_curve 180 18)
       (with_noise_pos (λ p, 12 + p)%nat one_curve) ∧
  thin_to_thick_outcome one_curve "Curve" 2 1 f0_5 f0_5.
Proof.
  assert (H1 : 1 ≤ 2) by lia.
  assert (H2 : int_truediv 1 2 = Ok f0_5) by reflexivity.
  assert (H3 : growth_delta_of 2 = Ok f0_5) by reflexivity.
  exact (conj source_one_curve (conj H1 (conj H2 (conj H3
    (conj palette_one_curve
      (Growth.thinner_to_thicker_windows one_curve "Curve" _ _ 2 1 f0_5 f0_5
         _ _ source_one_curve H1 H2 H3 palette_one_curve)))))).
Defined.

(** With the script's own parameters the windows are the exact frames
    [0, 30, ..., 300], but the start fraction of instance 3 is keyed to
    [0.30000000000000004] ([0x1.3333333333334p-2]), which is neither the
    rational [3/10] nor the float [3 / 10 = 0.3], and the end fraction of
    instance 9 is keyed to [0.9999999999999999], not to [10/10 = 1]. *)
Lemma thinner_to_thicker_instance_3_inexact :
  let r := grow_from_thinner_to_thicker "Curve" 10 300 one_curve in
  let v := S754_finite false 5404319552844596 (-54) in
  let w := S754_finite false 9007199254740991 (-53) in
  r.2 = Ok tt ∧
  members r.1 "curve_cpy_thinner_to_thicker_collection" !! 3%nat
    = Some "Curve3" ∧
  members r.1 "curve_cpy_thinner_to_thicker_collection" !! 9%nat
    = Some "Curve9" ∧
  keys_of r.1 "Curve3" "bevel_factor_start"
    = Some [Keyframe (Float (round_int 90)) v "LINEAR" "EASE_OUT"] ∧
  keys_of r.1 "Curve9" "bevel_factor_end"
    = Some [Keyframe (Float (round_int 270))
                     (S754_finite false 8106479329266892 (-53))
                     "LINEAR" "EASE_OUT";
            Keyframe (Float (round_int 300)) w "LINEAR" "EASE_OUT"] ∧
  (∀ q, to_Q v = Some q → ¬ (q == 3 # 10)%Q) ∧
  int_truediv 3 10 = Ok f0_3 ∧ v ≠ f0_3 ∧
  (∀ q, to_Q w = Some q → ¬ (q == 1)%Q) ∧
  w ≠ f1_0.
Proof.
  cbv zeta. split_and!.
  - vm_compute. reflexivity.
  - vm_compute. reflexivity.
  - vm_compute. reflexivity.
  - vm_compute. reflexivity.
  - vm_compute. reflexivity.
  - intros q [= <-]. vm_compute. discriminate.
  - reflexivity.
  - discriminate.
  - intros q [= <-]. vm_compute. discriminate.
  - discriminate.
Qed.

(** *** C3 *)

Lemma plan_one_curve :
  plan_of ThickerToThinner 2 300 (palette_from one_curve 180 18)
  = Ok (thick_plan 300 f0_5 (palette_from one_curve 180 18)).
Proof. reflexivity. Defined.

Lemma thickness_keyed_once_witness :
  source one_curve "Curve" (Object "CurveData" None) plain_curve ∧
  1 ≤ 2 ∧
  plan_of ThickerToThinner 2 300 (palette_from one_curve 180 18)
    = Ok (thick_plan 300 f0_5 (palette_from one_curve 180 18)) ∧
  runs generate_5_random_colors_that_fit one_curve
       (palette_from one_curve 180 18)
       (with_noise_pos (λ p, 12 + p)%nat one_curve) ∧
  thickness_outcome ThickerToThinner one_curve "Curve" 2 300.
Proof.
  assert (H1 : 1 ≤ 2) by lia.
  exact (conj source_one_curve (conj H1 (conj plan_one_curve
    (conj palette_one_curve
      (Growth.thickness_keyed_once ThickerToThinner one_curve "Curve" _ _
         2 300 _ _ _ source_one_curve H1 plan_one_curve
         palette_one_curve))))).
Defined.

(** With the script's own parameters the thickness of instance 6 is keyed
    to [1.9000000000000001] ([0x1.e666666666667p+0]) in both strategies:
    this is not the rational [1/10 + 3/10 * 6 = 19/10], and it is not the
    float [0.1 + 0.3 * 6 = 1.9] either. *)
Lemma thickness_instance_6_inexact :
  let r := grow_from_thicker_to_thinner "Curve" 10 300 one_curve in
  let r' := grow_from_thinner_to_thicker "Curve" 10 300 one_curve in
  let v := S754_finite false 8556839292003943 (-52) in
  r.2 = Ok tt ∧ r'.2 = Ok tt ∧
  members r.1 "curve_cpy_thicker_to_thinner_collection" !! 6%nat
    = Some "Curve6" ∧
  members r'.1 "curve_cpy_thinner_to_thicker_collection" !! 6%nat
    = Some "Curve6" ∧
  keys_of r.1 "Curve6" "bevel_depth"
    = Some [Keyframe (Int 0) v "BEZIER" "AUTO"] ∧
  keys_of r'.1 "Curve6" "bevel_depth"
    = Some [Keyframe (Int 0) v "BEZIER" "AUTO"] ∧
  (∀ q, to_Q v = Some q → ¬ (q == (1 # 10) + (3 # 10) * 6)%Q) ∧
  v ≠ fadd f0_1 (fmul f0_3 (round_int 6)).
Proof.
  cbv zeta. split_and!.
  - vm_compute. reflexivity.
  - vm_compute. reflexivity.
  - vm_compute. reflexivity.
  - vm_compute. reflexivity.
  - vm_compute. reflexivity.
  - vm_compute. reflexivity.
  - intros q [= <-]. vm_compute. discriminate.
  - vm_compute. discriminate.
Qed.

(** *** C4 *)

Lemma thin_plan_one_curve :
  plan_of ThinnerToThicker 2 1 (palette_from one_curve 180 18)
  = Ok (thin_plan f0_5 f0_5 (palette_from one_curve 180 18)).
Proof. reflexivity. Defined.

Lemma frames_nonneg_and_ordered_witness :
  source one_curve "Curve" (Object "CurveData" None) plain_curve ∧
  1 ≤ 2 ∧
  0 ≤ 1 ∧
  plan_of ThinnerToThicker 2 1 (palette_from one_curve 180 18)
    = Ok (thin_plan f0_5 f0_5 (palette_from one_curve 180 18)) ∧
  runs generate_5_random_colors_that_fit one_curve
       (palette_from one_curve 180 18)
       (with_noise_pos (λ p, 12 + p)%nat one_curve) ∧
  frames_outcome ThinnerToThicker one_curve "Curve" 2 1
    (thin_plan f0_5 f0_5 (palette_from one_curve 180 18)).
Proof.
  assert (H1 : 1 ≤ 2) by lia.
  assert (H2 : 0 ≤ 1) by lia.
  exact (conj source_one_curve (conj H1 (conj H2 (conj thin_plan_one_curve
    (conj palette_one_curve
      (Growth.frames_nonneg_and_ordered ThinnerToThicker one_curve "Curve"
         _ _ 2 1 _ _ _ source_one_curve H1 H2 thin_plan_one_curve
         palette_one_curve)))))).
Defined.

(** Two instances over one frame: thin-to-thick keys the end of instance 0
    and the start of instance 1 at frame [0.5]. *)
Lemma thinner_to_thicker_half_frame :
  let r := grow_from_thinner_to_thicker "Curve" 2 1 one_curve in
  r.2 = Ok tt ∧
  members r.1 "curve_cpy_thinner_to_thicker_collection" !! 0%nat
    = Some "Curve0" ∧
  keys_of r.1 "Curve0" "bevel_factor_end"
    = Some [Keyframe (Int 0) f0_0 "LINEAR" "EASE_OUT";
            Keyframe (Float f0_5) f0_5 "LINEAR" "EASE_OUT"] ∧
  is_int (Float f0_5) = false ∧
  is_integral (Float f0_5) = false ∧
  (∀ q, to_Q f0_5 = Some q → (q == 1 # 2)%Q).
Proof.
  cbv zeta. split_and!; [vm_compute; reflexivity..|].
  intros q [= <-]. reflexivity.
Qed.

(** *** C5 *)

Lemma create_material_twice_witness :
  shader_type "glossy" = Some "ShaderNodeBsdfGlossy" ∧
  shader_type "emission" = Some "ShaderNodeEmission" ∧
  built_twice one_curve "Curve0_mat"
    "glossy" (RGB f1_0 f0_5 f0_1) (Int 1) (Float f0_1)
    "emission" (HSV f0_5 f0_5 f0_5) (Int 1) (Float f0_1)
    "ShaderNodeEmission".
Proof.
  assert (H1 : shader_type "glossy" = Some "ShaderNodeBsdfGlossy")
    by reflexivity.
  assert (H2 : shader_type "emission" = Some "ShaderNodeEmission")
    by reflexivity.
  exact (conj H1 (conj H2
    (Materials.create_material_twice_one_shader one_curve "Curve0_mat"
       "glossy" (RGB f1_0 f0_5 f0_1) (Int 1) (Float f0_1) _
       "emission" (HSV f0_5 f0_5 f0_5) (Int 1) (Float f0_1) _ H1 H2))).
Defined.

(** *** C6 *)

Lemma consistent_animated_object : consistent animated_object.
Proof.
  unfold consistent. split_and!.
  - apply map_Forall_singleton. simpl. by eexists.
  - apply map_Forall_empty.
  - apply Forall_singleton. by eexists.
  - exact I.
Defined.

Lemma copy_obj_duplicates_witness :
  objects animated_object !! "Curve"
    = Some (Object "CurveData" (Some (AnimData (Some "CurveAction")))) ∧
  curves animated_object !! "CurveData" = Some keyed_curve ∧
  consistent animated_object ∧
  duplicated animated_object "Curve"
             (Object "CurveData" (Some (AnimData (Some "CurveAction"))))
             keyed_curve (Some "copies").
Proof.
  assert (H1 : objects animated_object !! "Curve"
               = Some (Object "CurveData"
                         (Some (AnimData (Some "CurveAction")))))
    by reflexivity.
  assert (H2 : curves animated_object
                 !! data (Object "CurveData"
                            (Some (AnimData (Some "CurveAction"))))
               = Some keyed_curve) by reflexivity.
  exact (conj H1 (conj H2 (conj consistent_animated_object
    (Duplicator.copy_obj_duplicates animated_object "Curve" _ _
       (Some "copies") H1 H2 consistent_animated_object)))).
Defined.

(** The curve data of the source of [animated_object] is animated by the
    action ["CurveDataAction"].  Straight after [copy_obj] the curve data
    of the duplicate has animation data, which refers to that same action:
    the duplicate is animated by the F-curves of the source, and keying the
    depth of the duplicate at frame [7] puts a key into the F-curve that
    animates the source. *)
Lemma copy_obj_shares_action :
  let r := copy_obj "Curve" None animated_object in
  let r' := bind (copy_obj "Curve" None)
              (λ ob, bind (data_of ob)
                 (λ d, keyframe_insert d "bevel_depth" (Int 7)))
              animated_object in
  r.2 = Ok "Curve0" ∧
  objects r.1 !! "Curve0" = Some (Object "CurveData0" None) ∧
  (curves r.1 !! "CurveData0" ≫= cu_animation_data)
    = Some (AnimData (Some "CurveDataAction")) ∧
  fcurves_of r.1 "Curve0" = Some (fcurves two_keys) ∧
  fcurves_of animated_object "Curve" = Some (fcurves two_keys) ∧
  r'.2 = Ok tt ∧
  fcurves_of r'.1 "Curve"
    = Some [FCurve "bevel_depth"
              [Keyframe (Int 1) f0_1 "BEZIER" "AUTO";
               Keyframe (Int 7) f0_0 "BEZIER" "AUTO";
               Keyframe (Int 50) f0_3 "LINEAR" "AUTO"]] ∧
  fcurves_of r'.1 "Curve" ≠ fcurves_of animated_object "Curve".
Proof.
  cbv zeta. split_and!; [vm_compute; reflexivity..|].
  vm_compute. discriminate.
Qed.

(** *** C7 *)

Lemma palette_five_hues_witness :
  int_of_float (fmul (noise one_curve (noise_pos one_curve)) f360)
    = Ok 180 ∧
  int_of_float (fmul (noise one_curve (S (noise_pos one_curve))) f180)
    = Ok 18 ∧
  0 ≤ 180 ≤ 360 ∧ 0 ≤ 18 ≤ 180 ∧
  five_colors one_curve 180 18.
Proof.
  assert (H1 : int_of_float
                 (fmul (noise one_curve (noise_pos one_curve)) f360)
               = Ok 180) by reflexivity.
  assert (H2 : int_of_float
                 (fmul (noise one_curve (S (noise_pos one_curve))) f180)
               = Ok 18) by reflexivity.
  assert (H3 : 0 ≤ 180 ≤ 360) by lia.
  assert (H4 : 0 ≤ 18 ≤ 180) by lia.
  exact (conj H1 (conj H2 (conj H3 (conj H4
    (Palette.palette_five_hues one_curve 180 18 H1 H2 H3 H4))))).
Defined.

(** *** C8 *)

Lemma set_animation_fcurve_witness :
  objects animated !! "Curve" = Some (Object "CurveData" None) ∧
  curves animated !! "CurveData"
    = Some (Curve [] f0_0 f1_0 f0_0 []
                  (Some (AnimData (Some "CurveDataAction")))) ∧
  shaping_outcome animated "Curve"
    (Curve [] f0_0 f1_0 f0_0 [] (Some (AnimData (Some "CurveDataAction"))))
    "CUBIC".
Proof.
  assert (H1 : objects animated !! "Curve" = Some (Object "CurveData" None))
    by reflexivity.
  assert (H2 : curves animated !! data (Object "CurveData" None)
               = Some (Curve [] f0_0 f1_0 f0_0 []
                         (Some (AnimData (Some "CurveDataAction")))))
    by reflexivity.
  exact (conj H1 (conj H2
    (Shaping.set_animation_fcurve_shapes_every_key animated "Curve" _ _
       "CUBIC" H1 H2))).
Defined.

(** The curve data of [no_action] has animation data, yet shaping raises
    [AttributeError] and shapes no key: there is no action to read the
    F-curves of. *)
Lemma set_animation_fcurve_without_action :
  (∃ c, curves no_action !! "CurveData" = Some c ∧
        cu_animation_data c = Some (AnimData None)) ∧
  fails (set_animation_fcurve "Curve" "CUBIC") no_action
        AttributeError no_action ∧
  ¬ ∃ s', runs (set_animation_fcurve "Curve" "CUBIC") no_action tt s'.
Proof.
  split_and!.
  - eexists. split; reflexivity.
  - reflexivity.
  - intros [s' H]. unfold runs in H. vm_compute in H. discriminate.
Qed.

(** *** C10 *)

Lemma consistent_animated : consistent animated.
Proof.
  unfold consistent. split_and!.
  - apply map_Forall_singleton. simpl. by eexists.
  - apply map_Forall_empty.
  - apply Forall_singleton. by eexists.
  - exact I.
Defined.

Lemma palette_animated :
  runs generate_5_random_colors_that_fit animated
       (palette_from animated 180 18)
       (with_noise_pos (λ p, 12 + p)%nat animated).
Proof. vm_compute. reflexivity. Defined.

Lemma ready_animated :
  ready "Curve" (Object "CurveData" None)
    (Curve [] f0_0 f1_0 f0_0 [] (Some (AnimData (Some "CurveDataAction"))))
    animated.
Proof. split_and!; [reflexivity..|exact consistent_animated]. Defined.

Lemma action_known_animated :
  action_known animated
    (Curve [] f0_0 f1_0 f0_0 [] (Some (AnimData (Some "CurveDataAction")))).
Proof. intros a [= <-]. by eexists. Defined.

Lemma plan_animated_ten :
  plan_of ThickerToThinner 10 300 (palette_from animated 180 18)
  = Ok (thick_plan 300 f0_1 (palette_from animated 180 18)).
Proof. reflexivity. Defined.

Lemma instance_painted_witness :
  ready "Curve" (Object "CurveData" None)
    (Curve [] f0_0 f1_0 f0_0 [] (Some (AnimData (Some "CurveDataAction"))))
    animated ∧
  action_known animated
    (Curve [] f0_0 f1_0 f0_0 [] (Some (AnimData (Some "CurveDataAction")))) ∧
  1 ≤ 10 ∧
  plan_of ThickerToThinner 10 300 (palette_from animated 180 18)
    = Ok (thick_plan 300 f0_1 (palette_from animated 180 18)) ∧
  runs generate_5_random_colors_that_fit animated
       (palette_from animated 180 18)
       (with_noise_pos (λ p, 12 + p)%nat animated) ∧
  paint_outcome ThickerToThinner animated "Curve"
    (Curve [] f0_0 f1_0 f0_0 [] (Some (AnimData (Some "CurveDataAction"))))
    10 300 (palette_from animated 180 18).
Proof.
  assert (H1 : 1 ≤ 10) by lia.
  exact (conj ready_animated (conj action_known_animated (conj H1
    (conj plan_animated_ten (conj palette_animated
      (Painting.instance_painted_with_two_colors ThickerToThinner animated
         "Curve" _ _ 10 300 _ _ _ ready_animated action_known_animated H1
         plan_animated_ten palette_animated)))))).
Defined.

(** ** Further properties on sample scenes *)

(** *** Further sample facts *)

Lemma unit_draws k : unit_float (draws k) = true.
Proof.
  unfold draws. do 12 (destruct k as [|k]; [reflexivity|]). by destruct k.
Defined.

Lemma unit_noise_one_curve : unit_noise one_curve.
Proof. exact unit_draws. Defined.

Lemma animated_source_animated :
  animated_source animated "Curve" (Object "CurveData" None)
    (Curve [] f0_0 f1_0 f0_0 [] (Some (AnimData (Some "CurveDataAction"))))
    "CurveDataAction" (fcurves two_keys).
Proof.
  split; [|split; reflexivity]. split_and!; [reflexivity..|].
  exact consistent_animated.
Defined.

Lemma unanimated_curve (s : scene) :
  objects s !! "Curve" = Some (Object "CurveData" None) →
  curves s !! "CurveData" = Some plain_curve →
  unanimated s "Curve".
Proof. intros Ho Hc. by exists (Object "CurveData" None), plain_curve. Defined.

Lemma consistent_studio : consistent studio.
Proof.
  unfold consistent. split_and!.
  - apply map_Forall_singleton. simpl. by eexists.
  - intros name obs Hn. simpl in Hn.
    apply lookup_insert_Some in Hn as [[_ <-]|[_ Hn]].
    + apply Forall_singleton. by eexists.
    + apply lookup_singleton_Some in Hn as [_ <-].
      apply Forall_singleton. by eexists.
  - apply Forall_nil_2.
  - exact I.
Defined.

Lemma consistent_half_studio : consistent half_studio.
Proof.
  unfold consistent. split_and!.
  - apply map_Forall_singleton. simpl. by eexists.
  - apply map_Forall_singleton. apply Forall_singleton. by eexists.
  - apply Forall_nil_2.
  - exact I.
Defined.

(** *** [lerp] *)

Lemma lerp_endpoints_witness :
  valid_nonzero f0_1 = true ∧ valid_nonzero f0_3 = true ∧
  lerp f0_0 f0_1 f0_3 = f0_1 ∧ lerp f1_0 f0_1 f0_3 = f0_3.
Proof.
  assert (H1 : valid_nonzero f0_1 = true) by reflexivity.
  assert (H2 : valid_nonzero f0_3 = true) by reflexivity.
  exact (conj H1 (conj H2 (Interpolation.lerp_endpoints f0_1 f0_3 H1 H2))).
Defined.

(** *** Collections and duplicates *)

Lemma add_object_to_collection_witness :
  ("Curve" ∉ members one_curve "copies") ∧
  ∃ s',
    runs (add_object_to_collection "Curve" "copies") one_curve tt s' ∧
    linked_to one_curve s' "copies" "Curve" ∧
    scene_children s' = children_with one_curve "copies" ∧
    objects s' = objects one_curve ∧ curves s' = curves one_curve.
Proof.
  assert (H1 : "Curve" ∉ members one_curve "copies")
    by apply not_elem_of_nil.
  exact (conj H1
    (Collections.add_object_to_collection_appends "Curve" "copies" one_curve
       H1)).
Defined.

Lemma add_object_to_collection_again_witness :
  ("Curve" ∈ members studio "start_thicker_to_thinner_collection") ∧
  fails (add_object_to_collection "Curve"
           "start_thicker_to_thinner_collection") studio RuntimeError studio.
Proof.
  assert (H1 : "Curve" ∈ members studio "start_thicker_to_thinner_collection")
    by apply list_elem_of_here.
  exact (conj H1
    (Collections.add_object_to_collection_again "Curve" _ studio H1)).
Defined.

Lemma copy_obj_registers_witness :
  objects one_curve !! "Curve" = Some (Object "CurveData" None) ∧
  curves one_curve !! "CurveData" = Some plain_curve ∧
  consistent one_curve ∧
  ∃ obj_cpy s',
    runs (copy_obj "Curve" (Some "copies")) one_curve obj_cpy s' ∧
    objects one_curve !! obj_cpy = None ∧
    registered one_curve s' (Some "copies") obj_cpy.
Proof.
  assert (H1 : objects one_curve !! "Curve" = Some (Object "CurveData" None))
    by reflexivity.
  assert (H2 : curves one_curve !! data (Object "CurveData" None)
               = Some plain_curve) by reflexivity.
  exact (conj H1 (conj H2 (conj consistent_one_curve
    (Collections.copy_obj_registers one_curve "Curve" _ _ (Some "copies")
       H1 H2 consistent_one_curve)))).
Defined.

Lemma copy_obj_siblings_witness :
  objects one_curve !! "Curve" = Some (Object "CurveData" None) ∧
  curves one_curve !! "CurveData" = Some plain_curve ∧
  consistent one_curve ∧
  ∃ ob1 ob2 d1 d2 s1 s2,
    runs (copy_obj "Curve" None) one_curve ob1 s1 ∧
    runs (copy_obj "Curve" None) s1 ob2 s2 ∧
    ob1 ≠ ob2 ∧ ob1 ≠ "Curve" ∧ ob2 ≠ "Curve" ∧
    d1 ≠ d2 ∧ d1 ≠ "CurveData" ∧ d2 ≠ "CurveData" ∧
    objects s2 !! ob1 = Some (Object d1 None) ∧
    objects s2 !! ob2 = Some (Object d2 None) ∧
    curves s2 !! d1 = Some plain_curve ∧
    curves s2 !! d2 = Some plain_curve ∧
    objects s2 !! "Curve" = Some (Object "CurveData" None) ∧
    curves s2 !! "CurveData" = Some plain_curve.
Proof.
  assert (H1 : objects one_curve !! "Curve" = Some (Object "CurveData" None))
    by reflexivity.
  assert (H2 : curves one_curve !! data (Object "CurveData" None)
               = Some plain_curve) by reflexivity.
  exact (conj H1 (conj H2 (conj consistent_one_curve
    (Collections.copy_obj_siblings one_curve "Curve" _ _ None
       H1 H2 consistent_one_curve)))).
Defined.

(** *** Keying *)

Lemma animate_curve_growth_keys_witness :
  objects one_curve !! "Curve" = Some (Object "CurveData" None) ∧
  curves one_curve !! "CurveData" = Some plain_curve ∧
  cu_animation_data plain_curve = None ∧
  ∃ s',
    runs (animate_curve_growth "Curve" (Int 0) (Int 300) f0_0 f1_0)
         one_curve tt s' ∧
    keys_of s' "Curve" "bevel_factor_start"
      = Some [Keyframe (Int 0) f0_0 "BEZIER" "AUTO"] ∧
    keys_of s' "Curve" "bevel_factor_end"
      = Some (keyed_twice (Int 0) (Int 300) f0_0 f1_0) ∧
    keys_of s' "Curve" "bevel_depth" = None ∧
    bevel_of s' "Curve" = Some (f0_0, f1_0, bevel_depth plain_curve) ∧
    objects s' = objects one_curve.
Proof.
  assert (H1 : objects one_curve !! "Curve" = Some (Object "CurveData" None))
    by reflexivity.
  assert (H2 : curves one_curve !! "CurveData" = Some plain_curve)
    by reflexivity.
  assert (H3 : cu_animation_data plain_curve = None) by reflexivity.
  exact (conj H1 (conj H2 (conj H3
    (Keying.animate_curve_growth_keys one_curve "Curve" None "CurveData"
       plain_curve (Int 0) (Int 300) f0_0 f1_0 H1 H2 H3)))).
Defined.

Lemma animate_curve_thickness_keys_witness :
  objects one_curve !! "Curve" = Some (Object "CurveData" None) ∧
  curves one_curve !! "CurveData" = Some plain_curve ∧
  cu_animation_data plain_curve = None ∧
  ∃ s',
    runs (animate_curve_thickness "Curve" (Int 0) (Int 300) f0_1 f0_3 f0_0)
         one_curve tt s' ∧
    keys_of s' "Curve" "bevel_depth"
      = Some (keyed_twice (Int 0) (Int 300) f0_0
                (lerp (noise one_curve (noise_pos one_curve)) f0_1 f0_3)) ∧
    keys_of s' "Curve" "bevel_factor_start" = None ∧
    keys_of s' "Curve" "bevel_factor_end" = None ∧
    bevel_of s' "Curve"
      = Some (bevel_factor_start plain_curve, bevel_factor_end plain_curve,
              lerp (noise one_curve (noise_pos one_curve)) f0_1 f0_3) ∧
    noise_pos s' = S (noise_pos one_curve) ∧
    objects s' = objects one_curve.
Proof.
  assert (H1 : objects one_curve !! "Curve" = Some (Object "CurveData" None))
    by reflexivity.
  assert (H2 : curves one_curve !! "CurveData" = Some plain_curve)
    by reflexivity.
  assert (H3 : cu_animation_data plain_curve = None) by reflexivity.
  exact (conj H1 (conj H2 (conj H3
    (Keying.animate_curve_thickness_keys one_curve "Curve" None "CurveData"
       plain_curve (Int 0) (Int 300) f0_1 f0_3 f0_0 H1 H2 H3)))).
Defined.

Lemma set_animation_fcurve_last_wins_witness :
  objects animated !! "Curve" = Some (Object "CurveData" None) ∧
  curves animated !! "CurveData"
    = Some (Curve [] f0_0 f1_0 f0_0 []
                  (Some (AnimData (Some "CurveDataAction")))) ∧
  actions animated !! "CurveDataAction" = Some two_keys ∧
  ∃ s1 s2,
    runs (set_animation_fcurve "Curve" "BOUNCE") animated tt s1 ∧
    runs (set_animation_fcurve "Curve" "CUBIC") s1 tt s2 ∧
    runs (set_animation_fcurve "Curve" "CUBIC") animated tt s2 ∧
    runs (set_animation_fcurve "Curve" "CUBIC") s2 tt s2.
Proof.
  assert (H1 : objects animated !! "Curve" = Some (Object "CurveData" None))
    by reflexivity.
  assert (H2 : curves animated !! data (Object "CurveData" None)
               = Some (Curve [] f0_0 f1_0 f0_0 []
                         (Some (AnimData (Some "CurveDataAction")))))
    by reflexivity.
  assert (H3 : actions animated !! "CurveDataAction" = Some two_keys)
    by reflexivity.
  exact (conj H1 (conj H2 (conj H3
    (Keying.set_animation_fcurve_last_wins animated "Curve" _ _
       "CurveDataAction" two_keys "BOUNCE" "CUBIC" H1 H2 eq_refl H3)))).
Defined.

(** *** Materials *)

Lemma create_material_unknown_kind_witness :
  shader_type "toon" = None ∧
  fails (create_material "Curve0_mat" "toon" (RGB f1_0 f0_5 f0_1)
           (Int 1) (Float f0_1)) one_curve UnboundLocalError
        (with_materials <["Curve0_mat" := output_only]> one_curve).
Proof.
  assert (H1 : shader_type "toon" = None) by reflexivity.
  exact (conj H1
    (Shaders.create_material_unknown_kind one_curve "Curve0_mat" "toon"
       (RGB f1_0 f0_5 f0_1) (Int 1) (Float f0_1) H1)).
Defined.

Lemma create_material_inputs_witness :
  shader_type "emission" = Some "ShaderNodeEmission" ∧
  ∃ s',
    runs (create_material "Curve0_mat" "emission" (RGB f1_0 f0_5 f0_1)
            (Int 1) (Float f0_1)) one_curve "Curve0_mat" s' ∧
    shader_input s' "Curve0_mat" 0 = Some (RGBA (RGB f1_0 f0_5 f0_1) f1_0) ∧
    shader_input s' "Curve0_mat" 1
      = second_input "emission" (Int 1) (Float f0_1) ∧
    shader_input s' "Curve0_mat" 2 = None ∧
    dom (materials s') = dom (materials one_curve) ∪ {["Curve0_mat"]} ∧
    (∀ m, m ≠ "Curve0_mat" →
          materials s' !! m = materials one_curve !! m) ∧
    objects s' = objects one_curve ∧ curves s' = curves one_curve ∧
    actions s' = actions one_curve ∧
    collections s' = collections one_curve.
Proof.
  assert (H1 : shader_type "emission" = Some "ShaderNodeEmission")
    by reflexivity.
  exact (conj H1
    (Shaders.create_material_inputs one_curve "Curve0_mat" "emission"
       (RGB f1_0 f0_5 f0_1) (Int 1) (Float f0_1) _ H1)).
Defined.

(** *** The palette *)

Lemma palette_draws_twelve_witness :
  runs generate_5_random_colors_that_fit one_curve
       (palette_from one_curve 180 18)
       (with_noise_pos (λ p, 12 + p)%nat one_curve) ∧
  with_noise_pos (λ p, 12 + p)%nat one_curve
    = with_noise_pos (λ p, 12 + p)%nat one_curve ∧
  (∃ H O,
     int_of_float (fmul (noise one_curve (noise_pos one_curve)) f360)
       = Ok H ∧
     int_of_float (fmul (noise one_curve (1 + noise_pos one_curve)%nat) f180)
       = Ok O) ∧
  color_sv <$> palette_from one_curve 180 18
    = (λ i, Some (noise one_curve (2 * i + 2 + noise_pos one_curve)%nat,
                  noise one_curve (2 * i + 3 + noise_pos one_curve)%nat))
        <$> seq 0 5.
Proof.
  exact (conj palette_one_curve
    (Hues.palette_draws_twelve one_curve _ _ palette_one_curve)).
Defined.

Lemma palette_hues_not_wrapped_witness :
  int_of_float (fmul (noise wide_palette (noise_pos wide_palette)) f360)
    = Ok 90 ∧
  int_of_float (fmul (noise wide_palette (S (noise_pos wide_palette))) f180)
    = Ok 157 ∧
  0 ≤ 90 ≤ 360 ∧ 0 ≤ 157 ≤ 180 ∧
  palette_hues 90 157 = [90; -67; 247; -224; 404] ∧
  ∃ cols s',
    runs generate_5_random_colors_that_fit wide_palette cols s' ∧
    ∀ i z, palette_hues 90 157 !! i = Some z →
      ∃ h, color_hue <$> cols !! i = Some (Some h) ∧
           (z < 0 → ltb (Float h) (Int 0) = true) ∧
           (360 < z → ltb (Int 1) (Float h) = true) ∧
           (0 ≤ z ≤ 360 →
              leb (Int 0) (Float h) = true ∧ leb (Float h) (Int 1) = true).
Proof.
  assert (H1 : int_of_float
                 (fmul (noise wide_palette (noise_pos wide_palette)) f360)
               = Ok 90) by reflexivity.
  assert (H2 : int_of_float
                 (fmul (noise wide_palette (S (noise_pos wide_palette)))
                       f180)
               = Ok 157) by reflexivity.
  assert (H3 : 0 ≤ 90 ≤ 360) by lia.
  assert (H4 : 0 ≤ 157 ≤ 180) by lia.
  assert (H5 : palette_hues 90 157 = [90; -67; 247; -224; 404])
    by reflexivity.
  exact (conj H1 (conj H2 (conj H3 (conj H4 (conj H5
    (Hues.palette_hues_not_wrapped wide_palette 90 157 H1 H2 H3 H4)))))).
Defined.

Lemma palette_total_witness :
  unit_float (noise one_curve (noise_pos one_curve)) = true ∧
  unit_float (noise one_curve (S (noise_pos one_curve))) = true ∧
  ∃ cols H O,
    runs generate_5_random_colors_that_fit one_curve cols
         (with_noise_pos (λ p, 12 + p)%nat one_curve) ∧
    int_of_float (fmul (noise one_curve (noise_pos one_curve)) f360)
      = Ok H ∧
    int_of_float (fmul (noise one_curve (S (noise_pos one_curve))) f180)
      = Ok O ∧
    0 ≤ H ≤ 360 ∧ 0 ≤ O ≤ 180 ∧
    length cols = 5%nat ∧
    color_hue <$> cols = (λ h, Some (hue_fraction h)) <$> palette_hues H O.
Proof.
  assert (H1 : unit_float (noise one_curve (noise_pos one_curve)) = true)
    by reflexivity.
  assert (H2 : unit_float (noise one_curve (S (noise_pos one_curve))) = true)
    by reflexivity.
  exact (conj H1 (conj H2 (Hues.palette_total one_curve H1 H2))).
Defined.

(** *** The strategies *)

Lemma minus_two_plan :
  plan_of ThickerToThinner (-2) 300 (palette_from one_curve 180 18)
  = Ok (thick_plan 300 (S754_finite true 4503599627370496 (-53))
          (palette_from one_curve 180 18)).
Proof. reflexivity. Defined.

Lemma grow_negative_instances_witness :
  -2 < 0 ∧
  plan_of ThickerToThinner (-2) 300 (palette_from one_curve 180 18)
    = Ok (thick_plan 300 (S754_finite true 4503599627370496 (-53))
            (palette_from one_curve 180 18)) ∧
  runs generate_5_random_colors_that_fit one_curve
       (palette_from one_curve 180 18)
       (with_noise_pos (λ p, 12 + p)%nat one_curve) ∧
  runs (grow ThickerToThinner "Curve" (-2) 300) one_curve tt
       (with_noise_pos (λ p, 12 + p)%nat one_curve).
Proof.
  assert (H1 : -2 < 0) by lia.
  exact (conj H1 (conj minus_two_plan (conj palette_one_curve
    (Strategies.grow_negative_instances ThickerToThinner one_curve "Curve"
       (-2) 300 _ _ _ H1 minus_two_plan palette_one_curve)))).
Defined.

Lemma grow_returns_in_range_witness :
  source one_curve "Curve" (Object "CurveData" None) plain_curve ∧
  unit_noise one_curve ∧
  1 ≤ 10 ≤ 2 ^ 1023 ∧
  0 ≤ 300 ≤ 2 ^ 1023 ∧
  ∃ s' names,
    runs (grow ThinnerToThicker "Curve" 10 300) one_curve tt s' ∧
    Z.of_nat (length names) = 10 ∧
    grown ThinnerToThicker one_curve s' names ∧
    extends [collection_of ThinnerToThicker] one_curve s' 12 ∧
    consistent s'.
Proof.
  assert (H1 : 1 ≤ 10 ≤ 2 ^ 1023) by (split; [lia|done]).
  assert (H2 : 0 ≤ 300 ≤ 2 ^ 1023) by (split; [lia|done]).
  exact (conj source_one_curve (conj unit_noise_one_curve (conj H1 (conj H2
    (Strategies.grow_returns_in_range ThinnerToThicker one_curve "Curve" _ _
       10 300 source_one_curve unit_noise_one_curve H1 H2))))).
Defined.

Lemma grow_overflow_witness :
  2 ^ 1024 ≤ 2 ^ 1024 ∧
  0 ≤ 300 ≤ 2 ^ 1023 ∧
  fails (grow ThinnerToThicker "Curve" (2 ^ 1024) 300) one_curve
        OverflowError one_curve.
Proof.
  assert (H1 : 2 ^ 1024 ≤ 2 ^ 1024) by reflexivity.
  assert (H2 : 0 ≤ 300 ≤ 2 ^ 1023) by (split; [lia|done]).
  exact (conj H1 (conj H2
    (Strategies.grow_overflow ThinnerToThicker one_curve "Curve" (2 ^ 1024) 300
       H1 H2))).
Defined.

Lemma thin_to_thick_fractions_ordered_witness :
  source one_curve "Curve" (Object "CurveData" None) plain_curve ∧
  1 ≤ 2 ∧
  int_truediv 1 2 = Ok f0_5 ∧
  growth_delta_of 2 = Ok f0_5 ∧
  runs generate_5_random_colors_that_fit one_curve
       (palette_from one_curve 180 18)
       (with_noise_pos (λ p, 12 + p)%nat one_curve) ∧
  ∃ s' names,
    runs (grow_from_thinner_to_thicker "Curve" 2 1) one_curve tt s' ∧
    members s' "curve_cpy_thinner_to_thicker_collection"
      = members one_curve "curve_cpy_thinner_to_thicker_collection"
        ++ names ∧
    Z.of_nat (length names) = 2 ∧
    ∀ i ob, names !! i = Some ob →
      ∃ gs ge,
        bevel_of s' ob = Some (gs, ge, thickness i) ∧
        leb (Int 0) (Float gs) = true ∧
        leb (Float gs) (Float ge) = true ∧
        (i = 0%nat → gs = f0_0) ∧
        (∀ ob', names !! S i = Some ob' →
           ∃ ge', bevel_of s' ob' = Some (ge, ge', thickness (S i))).
Proof.
  assert (H1 : 1 ≤ 2) by lia.
  assert (H2 : int_truediv 1 2 = Ok f0_5) by reflexivity.
  assert (H3 : growth_delta_of 2 = Ok f0_5) by reflexivity.
  exact (conj source_one_curve (conj H1 (conj H2 (conj H3
    (conj palette_one_curve
      (Strategies.thin_to_thick_fractions_ordered one_curve "Curve" _ _ 2 1 f0_5
         f0_5 _ _ source_one_curve H1 H2 H3 palette_one_curve)))))).
Defined.

Lemma animated_plan :
  plan_of ThickerToThinner 2 300 (palette_from animated 180 18)
  = Ok (thick_plan 300 f0_5 (palette_from animated 180 18)).
Proof. reflexivity. Defined.

Lemma animated_source_shares_action_witness :
  animated_source animated "Curve" (Object "CurveData" None)
    (Curve [] f0_0 f1_0 f0_0 [] (Some (AnimData (Some "CurveDataAction"))))
    "CurveDataAction" (fcurves two_keys) ∧
  1 ≤ 2 ∧
  plan_of ThickerToThinner 2 300 (palette_from animated 180 18)
    = Ok (thick_plan 300 f0_5 (palette_from animated 180 18)) ∧
  runs generate_5_random_colors_that_fit animated
       (palette_from animated 180 18)
       (with_noise_pos (λ p, 12 + p)%nat animated) ∧
  ∃ s' names fcs',
    runs (grow ThickerToThinner "Curve" 2 300) animated tt s' ∧
    Z.of_nat (length names) = 2 ∧
    members s' (collection_of ThickerToThinner)
      = members animated (collection_of ThickerToThinner) ++ names ∧
    dom (actions s') = dom (actions animated) ∧
    fcs' = shared_fcurves_after (option_of ThickerToThinner)
             (thick_plan 300 f0_5 (palette_from animated 180 18)) 0
             (Z.to_nat 2) (fcurves two_keys) ∧
    fcurves_of s' "Curve" = Some fcs' ∧
    (∀ ob, ob ∈ names → fcurves_of s' ob = Some fcs') ∧
    all_shaped (option_of ThickerToThinner) fcs'.
Proof.
  assert (H1 : 1 ≤ 2) by lia.
  exact (conj animated_source_animated (conj H1 (conj animated_plan
    (conj palette_animated
      (SharedAction.animated_source_shares_action ThickerToThinner animated
         "Curve" _ _ _ _ 2 300 _ _ _ animated_source_animated H1 animated_plan
         palette_animated))))).
Defined.

Lemma grow_again_accumulates_witness :
  source one_curve "Curve" (Object "CurveData" None) plain_curve ∧
  unit_noise one_curve ∧
  1 ≤ 10 ≤ 2 ^ 1023 ∧
  0 ≤ 300 ≤ 2 ^ 1023 ∧
  ∃ s1 s2 names1 names2,
    runs (grow ThickerToThinner "Curve" 10 300) one_curve tt s1 ∧
    runs (grow ThickerToThinner "Curve" 10 300) s1 tt s2 ∧
    Z.of_nat (length names1) = 10 ∧
    Z.of_nat (length names2) = 10 ∧
    NoDup (names1 ++ names2) ∧
    (∀ ob, ob ∈ names1 ++ names2 → objects one_curve !! ob = None) ∧
    members s1 (collection_of ThickerToThinner)
      = members one_curve (collection_of ThickerToThinner) ++ names1 ∧
    members s2 (collection_of ThickerToThinner)
      = members one_curve (collection_of ThickerToThinner)
        ++ names1 ++ names2 ∧
    noise_pos s2 = (24 + noise_pos one_curve)%nat.
Proof.
  assert (H1 : 1 ≤ 10 ≤ 2 ^ 1023) by (split; [lia|done]).
  assert (H2 : 0 ≤ 300 ≤ 2 ^ 1023) by (split; [lia|done]).
  exact (conj source_one_curve (conj unit_noise_one_curve (conj H1 (conj H2
    (Strategies.grow_again_accumulates ThickerToThinner one_curve "Curve" _ _
       10 300 source_one_curve unit_noise_one_curve H1 H2))))).
Defined.

(** *** The script *)

Lemma unanimated_studio : Forall (unanimated studio) ["Curve"].
Proof.
  apply Forall_singleton. by apply unanimated_curve.
Defined.

Lemma unanimated_half_studio : Forall (unanimated half_studio) ["Curve"].
Proof.
  apply Forall_singleton. by apply unanimated_curve.
Defined.

Lemma main_duplicates_every_curve_witness :
  consistent studio ∧
  collections studio !! "start_thicker_to_thinner_collection"
    = Some ["Curve"] ∧
  collections studio !! "start_thinner_to_thicker_collection"
    = Some ["Curve"] ∧
  Forall (unanimated studio) ["Curve"] ∧
  unit_noise studio ∧
  ∃ s' names1 names2,
    runs main studio tt s' ∧
    length names1 = (10 * length ["Curve"])%nat ∧
    length names2 = (10 * length ["Curve"])%nat ∧
    NoDup (names1 ++ names2) ∧
    (∀ ob, ob ∈ names1 ++ names2 → objects studio !! ob = None) ∧
    dom (objects s')
      = dom (objects studio) ∪ list_to_set (names1 ++ names2) ∧
    members s' "curve_cpy_thicker_to_thinner_collection"
      = members studio "curve_cpy_thicker_to_thinner_collection"
        ++ names1 ∧
    members s' "curve_cpy_thinner_to_thicker_collection"
      = members studio "curve_cpy_thinner_to_thicker_collection"
        ++ names2 ∧
    extends ["curve_cpy_thicker_to_thinner_collection";
             "curve_cpy_thinner_to_thicker_collection"] studio s'
            (12 * (length ["Curve"] + length ["Curve"])) ∧
    paints_only (names1 ++ names2) studio s' ∧
    consistent s'.
Proof.
  assert (H1 : collections studio !! "start_thicker_to_thinner_collection"
               = Some ["Curve"]) by reflexivity.
  assert (H2 : collections studio !! "start_thinner_to_thicker_collection"
               = Some ["Curve"]) by reflexivity.
  exact (conj consistent_studio (conj H1 (conj H2 (conj unanimated_studio
    (conj unit_draws
      (Program.main_duplicates_every_curve studio ["Curve"] ["Curve"]
         consistent_studio H1 H2 unanimated_studio unanimated_studio
         unit_draws)))))).
Defined.

Lemma main_missing_collection_witness :
  consistent half_studio ∧
  collections half_studio !! "start_thicker_to_thinner_collection"
    = Some ["Curve"] ∧
  collections half_studio !! "start_thinner_to_thicker_collection" = None ∧
  Forall (unanimated half_studio) ["Curve"] ∧
  unit_noise half_studio ∧
  ∃ s' names1,
    fails main half_studio KeyError s' ∧
    length names1 = (10 * length ["Curve"])%nat ∧
    grown ThickerToThinner half_studio s' names1 ∧
    extends ["curve_cpy_thicker_to_thinner_collection"] half_studio s'
            (12 * length ["Curve"]).
Proof.
  assert (H1 : collections half_studio
                 !! "start_thicker_to_thinner_collection" = Some ["Curve"])
    by reflexivity.
  assert (H2 : collections half_studio
                 !! "start_thinner_to_thicker_collection" = None)
    by reflexivity.
  exact (conj consistent_half_studio (conj H1 (conj H2
    (conj unanimated_half_studio (conj unit_draws
      (proj2 (Program.main_missing_collection half_studio) ["Curve"]
         consistent_half_studio H1 H2 unanimated_half_studio
         unit_draws)))))).
Defined.

End Instances.
